(** * Solana local wallet: keystore and multisig client model

    A shallow embedding of the TypeScript sources of the wallet (keystore
    cipher, keystore, vault registry, proposal model, CLI skills) together
    with the properties stated about them.

    Conventions.
    - A JavaScript string is the list of its UTF-16 code units; [js "abc"]
      writes an ASCII literal.  [===] on strings is equality of these lists.
    - A JavaScript [number] holding an integer is a [Z]; every number met
      below stays inside the safe-integer range, where the two agree.
    - Code that throws returns in a sum type; code that reads or writes the
      outside world threads that world explicitly. *)

From Stdlib Require Import ZArith List Bool Lia String Ascii Sorted.
From Stdlib.Strings Require Import Byte.
From stdpp Require Import gmap strings list sorting.

Local Open Scope Z_scope.

(** ** JavaScript strings *)

Abbreviation jsstring := (list Z).

Definition codeUnit (a : ascii) : Z := Z.of_N (N_of_ascii a).

Definition js (s : string) : jsstring := map codeUnit (list_ascii_of_string s).

(** [a === b] on two strings. *)
Definition streq (a b : jsstring) : bool := bool_decide (a = b).

(** [arr.includes(x)] and [arr.some(p)] *)
Definition includes (arr : list jsstring) (x : jsstring) : bool :=
  existsb (streq x) arr.

Definition some {A} (p : A -> bool) (arr : list A) : bool := existsb p arr.

(** [s.trim()]: strips the WhiteSpace and LineTerminator code units of
    ECMAScript from both ends. *)
Definition isWhiteSpace (c : Z) : bool :=
  (c =? 9) || (c =? 10) || (c =? 11) || (c =? 12) || (c =? 13) || (c =? 32)
  || (c =? 160) || (c =? 5760) || ((8192 <=? c) && (c <=? 8202))
  || (c =? 8232) || (c =? 8233) || (c =? 8239) || (c =? 8287)
  || (c =? 12288) || (c =? 65279).

Fixpoint trimStart (s : jsstring) : jsstring :=
  match s with
  | c :: s' => if isWhiteSpace c then trimStart s' else s
  | [] => []
  end.

Definition trimEnd (s : jsstring) : jsstring := rev (trimStart (rev s)).

Definition trim (s : jsstring) : jsstring := trimEnd (trimStart s).

(** [s.split(',')] *)
Fixpoint split_from (sep : Z) (cur : jsstring) (s : jsstring) : list jsstring :=
  match s with
  | [] => [cur]
  | c :: s' =>
      if c =? sep then cur :: split_from sep [] s'
      else split_from sep (cur ++ [c]) s'
  end.

Definition split (sep : Z) (s : jsstring) : list jsstring := split_from sep [] s.

Definition comma : Z := 44.

(** A [Set<string>]: its elements in insertion order, without repetition. *)
Definition Set_add (s : list jsstring) (x : jsstring) : list jsstring :=
  if includes s x then s else s ++ [x].

(** The result of [parseInt]: an integer or [NaN]. *)
Inductive jsnumber := NaN | Int (z : Z).

(** ** Bytes *)

(** The elements of a [Buffer] or [Uint8Array]; storing a number keeps it
    modulo 256. *)
Definition byteValue (b : byte) : Z := Z.of_N (Byte.to_N b).

Definition byteOf (z : Z) : byte :=
  match Byte.of_N (Z.to_N (z mod 256)) with
  | Some b => b
  | None => x00
  end.

(** [buf.subarray(start, end)] and [arr.slice(start, end)] for indices
    within bounds or beyond the end. *)
Definition subarray (buf : list byte) (start stop : nat) : list byte :=
  take (stop - start) (drop start buf).

(** ** The chain reader: a ledger snapshot read through logged requests *)

Module Rpc.

(** Addresses are base58 strings; a [PublicKey] object wraps one. *)
Record PublicKey := mkPublicKey { toBase58 : jsstring }.

(** Squads SDK accounts, as [fromAccountAddress] decodes them. *)
Record SdkMember := { key : PublicKey; mask : Z }.

Record MultisigAccount := {
  acc_createKey : PublicKey;
  acc_threshold : Z;
  acc_members : list SdkMember;
  acc_transactionIndex : Z;
  acc_staleTransactionIndex : Z;
}.

Record ProposalAccount := {
  status__kind : jsstring;
  approved : list PublicKey;
  rejected : list PublicKey;
}.

(** What the cluster holds.  [None] is an address at which
    [fromAccountAddress] throws (no account, wrong shape, RPC failure). *)
Record Ledger := {
  multisigAt : jsstring -> option MultisigAccount;
  proposalAt : jsstring -> option ProposalAccount;
}.

Inductive Request :=
| ReadMultisig (address : jsstring)
| ReadProposal (address : jsstring).

(** A computation that talks to the connection: it extends the log of the
    requests sent so far. *)
Definition RPC (A : Type) : Type := list Request -> A * list Request.

Definition ret {A} (a : A) : RPC A := fun log => (a, log).

Definition bind {A B} (m : RPC A) (k : A -> RPC B) : RPC B :=
  fun log => let '(a, log') := m log in k a log'.

Definition run {A} (m : RPC A) : A * list Request := m [].

End Rpc.

Import Rpc.

Notation "x <- m ;; k" := (bind m (fun x => k))
  (at level 100, m at next level, right associativity).

(** ** @solana/web3.js: which strings [new PublicKey(s)] accepts *)

Module Web3.

(** The constructor base58-decodes its argument ([bs58]) and throws unless
    the result has exactly 32 bytes.  A string with a code unit outside the
    alphabet does not decode. *)
Definition ALPHABET : jsstring :=
  js "123456789ABCDEFGHJKLMNPQRSTUVWXYZabcdefghijkmnopqrstuvwxyz".

Fixpoint indexFrom (i : Z) (c : Z) (l : jsstring) : option Z :=
  match l with
  | [] => None
  | x :: l' => if x =? c then Some i else indexFrom (i + 1) c l'
  end.

Definition digit58 (c : Z) : option Z := indexFrom 0 c ALPHABET.

(** The number the digits denote, most significant first. *)
Fixpoint value58 (acc : Z) (s : jsstring) : option Z :=
  match s with
  | [] => Some acc
  | c :: s' =>
      match digit58 c with
      | Some d => value58 (acc * 58 + d) s'
      | None => None
      end
  end.

(** Leading [1]s, each of which stands for a zero byte. *)
Fixpoint leadingOnes (s : jsstring) : Z :=
  match s with
  | c :: s' => if c =? 49 then 1 + leadingOnes s' else 0
  | [] => 0
  end.

Definition byteLength (n : Z) : Z :=
  if n =? 0 then 0 else Z.log2 n / 8 + 1.

Definition decodedLength (s : jsstring) : option Z :=
  match value58 0 s with
  | Some n => Some (leadingOnes s + byteLength n)
  | None => None
  end.

Definition PUBLIC_KEY_LENGTH : Z := 32.

Definition isPublicKey (s : jsstring) : bool :=
  match decodedLength s with
  | Some len => len =? PUBLIC_KEY_LENGTH
  | None => false
  end.

End Web3.

(** ** utils/multisig.ts *)

Module Multisig.

Inductive Status := Draft | Active | Approved | Rejected | Executed | Cancelled.

Record Permissions := { initiate : bool; vote : bool; execute : bool }.

Record MultisigMember := { publicKey : jsstring; permissions : Permissions }.

Record MultisigVault := {
  address : jsstring;
  createKey : jsstring;
  threshold : Z;
  members : list MultisigMember;
  transactionIndex : Z;
  staleTransactionIndex : Z;
}.

Record ProposalInfo := {
  index : Z;
  multisigPda : jsstring;
  transactionPda : jsstring;
  proposalPda : jsstring;
  status : Status;
  approvals : list jsstring;
  rejections : list jsstring;
}.

(** [Permission.Initiate], [.Vote], [.Execute] and [Permissions.has] of
    the SDK: a bit mask. *)
Definition Permission_Initiate : Z := 1.
Definition Permission_Vote : Z := 2.
Definition Permission_Execute : Z := 4.

Definition Permissions_has (mask permission : Z) : bool :=
  Z.land mask permission =? permission.

Section WithCluster.

(** The SDK's address derivations and the cluster read from. *)
Variable getTransactionPda : PublicKey -> Z -> PublicKey.
Variable getProposalPda : PublicKey -> Z -> PublicKey.
Variable ledger : Ledger.

Definition Multisig_fromAccountAddress (pda : PublicKey)
  : RPC (option MultisigAccount) :=
  fun log => (multisigAt ledger (toBase58 pda),
              log ++ [ReadMultisig (toBase58 pda)]).

Definition Proposal_fromAccountAddress (pda : PublicKey)
  : RPC (option ProposalAccount) :=
  fun log => (proposalAt ledger (toBase58 pda),
              log ++ [ReadProposal (toBase58 pda)]).

(** [getMultisigAccount]: the [catch] turns any failure into [null]. *)
Definition getMultisigAccount (multisigPda : PublicKey)
  : RPC (option MultisigVault) :=
  account <- Multisig_fromAccountAddress multisigPda ;;
  ret (match account with
       | Some account =>
           Some {| address := toBase58 multisigPda;
                   createKey := toBase58 (acc_createKey account);
                   threshold := acc_threshold account;
                   members :=
                     map (fun m =>
                            {| publicKey := toBase58 (key m);
                               permissions :=
                                 {| initiate := Permissions_has (mask m) Permission_Initiate;
                                    vote := Permissions_has (mask m) Permission_Vote;
                                    execute := Permissions_has (mask m) Permission_Execute |} |})
                         (acc_members account);
                   transactionIndex := acc_transactionIndex account;
                   staleTransactionIndex := acc_staleTransactionIndex account |}
       | None => None
       end).

(** The "Determine status" block of [getProposalStatus]:
    [let status = "Draft"] followed by the [if]/[else if] chain on
    [proposal.status.__kind]. *)
Definition determineStatus (kind : jsstring) : Status :=
  if streq kind (js "Active") then Active
  else if streq kind (js "Approved") then Approved
  else if streq kind (js "Rejected") then Rejected
  else if streq kind (js "Executed") then Executed
  else if streq kind (js "Cancelled") then Cancelled
  else Draft.

Definition getProposalStatus (multisigPda : PublicKey) (transactionIndex : Z)
  : RPC (option ProposalInfo) :=
  let transactionPda := getTransactionPda multisigPda transactionIndex in
  let proposalPda := getProposalPda multisigPda transactionIndex in
  proposal <- Proposal_fromAccountAddress proposalPda ;;
  ret (match proposal with
       | Some proposal =>
           Some {| index := transactionIndex;
                   multisigPda := toBase58 multisigPda;
                   transactionPda := toBase58 transactionPda;
                   proposalPda := toBase58 proposalPda;
                   status := determineStatus (status__kind proposal);
                   approvals := map toBase58 (approved proposal);
                   rejections := map toBase58 (rejected proposal) |}
       | None => None
       end).

(** [Number(bigint)]: exact on safe integers. *)
Definition MAX_SAFE_INTEGER : Z := 2 ^ 53 - 1.
Definition Number (n : Z) : Z := n.

(** The [for (let i = startIndex; i <= currentIndex; i++)] loop of
    [getProposals]; [trips] is the number of iterations left. *)
Fixpoint getProposals_loop (trips : nat) (i : Z) (proposals : list ProposalInfo)
  (multisigPda : PublicKey) : RPC (list ProposalInfo) :=
  match trips with
  | O => ret proposals
  | S trips' =>
      proposal <- getProposalStatus multisigPda i ;;
      getProposals_loop trips' (i + 1)
        (match proposal with
         | Some proposal => proposals ++ [proposal]
         | None => proposals
         end)
        multisigPda
  end.

Definition getProposals (multisigPda : PublicKey) : RPC (list ProposalInfo) :=
  multisigAccount <- getMultisigAccount multisigPda ;;
  match multisigAccount with
  | None => ret []
  | Some multisigAccount =>
      let currentIndex := Number (transactionIndex multisigAccount) in
      let startIndex := Z.max 1 (currentIndex - 19) in
      proposals <- getProposals_loop
                     (Z.to_nat (currentIndex - startIndex + 1))
                     startIndex [] multisigPda ;;
      ret (rev proposals)
  end.

End WithCluster.

End Multisig.

Import Multisig.

(** ** components/multisig/VaultDetail.tsx: what the signed-in member may do *)

Module VaultDetail.

Section WithUser.

(** [keypair.publicKey.toBase58()] and the [vault] state ([null] until
    loaded). *)
Variable userPubKey : jsstring.
Variable vault : option MultisigVault.

Definition hasVoted (proposal : ProposalInfo) : bool :=
  includes (approvals proposal) userPubKey
  || includes (rejections proposal) userPubKey.

(** [proposal.status === 'Approved' && vault] *)
Definition canExecute (proposal : ProposalInfo) : bool :=
  match status proposal, vault with
  | Approved, Some _ => true
  | _, _ => false
  end.

(** [vault?.members.find((m) => m.publicKey === user)?.permissions] *)
Definition userPermissions : option Permissions :=
  match vault with
  | Some vault =>
      match find (fun m => streq (publicKey m) userPubKey) (members vault) with
      | Some m => Some (permissions m)
      | None => None
      end
  | None => None
  end.

(** The guard under which the Approve and Reject buttons are rendered:
    [proposal.status === 'Active' && (!hasVoted(proposal) &&
    userPermissions?.vote)]. *)
Definition canVote (proposal : ProposalInfo) : bool :=
  match status proposal with
  | Active =>
      negb (hasVoted proposal)
      && match userPermissions with
         | Some perms => vote perms
         | None => false
         end
  | _ => false
  end.

End WithUser.

End VaultDetail.

(** ** skills/multisig/approve-proposal.ts: the checks before submitting *)

Module ApproveProposal.

Inductive PreCheck :=
| PROPOSAL_NOT_ACTIVE (currentStatus : Status)
| ALREADY_APPROVED
| Submit.

(** The two guards of [main] between fetching the proposal and calling
    [approveProposal]. *)
Definition preChecks (proposal : ProposalInfo) (userPubKey : jsstring) : PreCheck :=
  match status proposal with
  | Active =>
      if includes (approvals proposal) userPubKey then ALREADY_APPROVED
      else Submit
  | other => PROPOSAL_NOT_ACTIVE other
  end.

End ApproveProposal.

(** ** components/external/ExternalCreateVault.tsx: validation in handleCreate *)

Module ExternalCreateVault.

Record MemberInput := { address : jsstring; permissions : Permissions }.

Inductive ErrorMessage :=
| ConnectWalletFirst
| AddressesRequired
| InvalidAddress (address : jsstring)
| ThresholdOutOfRange (voterCount : Z).

Inductive Outcome :=
| setError (e : ErrorMessage)
| createMultisigVaultWA (validMembers : list (PublicKey * Z)) (threshold : Z).

(** [createPermissions]: the SDK mask built from the three flags. *)
Definition createPermissions (initiate vote execute : bool) : Z :=
  Z.lor (if initiate then Permission_Initiate else 0)
    (Z.lor (if vote then Permission_Vote else 0)
           (if execute then Permission_Execute else 0)).

Section WithWeb3.

(** [new PublicKey(s)] succeeds exactly on the strings [isPublicKey]
    accepts. *)
Variable isPublicKey : jsstring -> bool.

Fixpoint validateMembers (members : list MemberInput)
  (validMembers : list (PublicKey * Z)) : ErrorMessage + list (PublicKey * Z) :=
  match members with
  | [] => inr validMembers
  | member :: rest =>
      match trim (address member) with
      | [] => inl AddressesRequired
      | trimmed =>
          if isPublicKey trimmed then
            validateMembers rest
              (validMembers ++
                 [(mkPublicKey trimmed,
                   createPermissions (initiate (permissions member))
                                     (vote (permissions member))
                                     (execute (permissions member)))])
          else inl (InvalidAddress (address member))
      end
  end.

Definition voterCount (members : list MemberInput) : Z :=
  Z.of_nat (length (filter (fun m => vote (permissions m) = true) members)).

(** [threshold < 1 || threshold > voterCount] *)
Definition thresholdRejected (threshold : Z) (members : list MemberInput) : bool :=
  (threshold <? 1) || (voterCount members <? threshold).

Definition handleCreate (walletPublicKey : option PublicKey)
  (members : list MemberInput) (threshold : Z) : Outcome :=
  match walletPublicKey with
  | None => setError ConnectWalletFirst
  | Some _ =>
      match validateMembers members [] with
      | inl e => setError e
      | inr validMembers =>
          if thresholdRejected threshold members
          then setError (ThresholdOutOfRange (voterCount members))
          else createMultisigVaultWA validMembers threshold
      end
  end.

End WithWeb3.

End ExternalCreateVault.

(** ** skills/multisig/create-multisig.ts: member parsing and threshold *)

Module CreateMultisig.

Inductive Outcome :=
| INVALID_MEMBER_ADDRESS (invalidAddress : jsstring)
| INVALID_THRESHOLD (threshold : Z) (memberCount : Z)
| Validated (members : list (PublicKey * Z)) (finalThreshold : Z).

(** [Permissions.all()] *)
Definition getAllPermissions : Z := 7.

(** [Math.ceil(n / 2)] on a length. *)
Definition ceilHalf (n : Z) : Z := - ((- n) / 2).

Section WithWeb3.

Variable isPublicKey : jsstring -> bool.

(** The [for (const addr of membersArg.split(','))] loop; [inl] is the
    address on which the script exits. *)
Fixpoint addMembers (addrs : list jsstring) (memberAddresses : list jsstring)
  : jsstring + list jsstring :=
  match addrs with
  | [] => inr memberAddresses
  | addr :: rest =>
      match trim addr with
      | [] => addMembers rest memberAddresses
      | trimmed =>
          if isPublicKey trimmed
          then addMembers rest (Set_add memberAddresses trimmed)
          else inl trimmed
      end
  end.

Definition parseMembers (creator : jsstring) (membersArg : jsstring)
  : jsstring + list jsstring :=
  let memberAddresses := [creator] in
  match membersArg with
  | [] => inr memberAddresses
  | _ => addMembers (split comma membersArg) memberAddresses
  end.

Definition finalThreshold (threshold : jsnumber) (memberCount : Z) : Z :=
  match threshold with
  | Int z => if 0 <? z then z else ceilHalf memberCount
  | NaN => ceilHalf memberCount
  end.

(** [main] from "Parse members" to the threshold checks; [creator] is
    [keypair.publicKey.toBase58()]. *)
Definition main (creator : jsstring) (membersArg : jsstring) (threshold : jsnumber)
  : Outcome :=
  match parseMembers creator membersArg with
  | inl invalid => INVALID_MEMBER_ADDRESS invalid
  | inr memberAddresses =>
      let members := map (fun addr => (mkPublicKey addr, getAllPermissions))
                         memberAddresses in
      let memberCount := Z.of_nat (length members) in
      let finalThreshold := finalThreshold threshold memberCount in
      if memberCount <? finalThreshold
      then INVALID_THRESHOLD finalThreshold memberCount
      else if finalThreshold <? 1
      then INVALID_THRESHOLD finalThreshold memberCount
      else Validated members finalThreshold
  end.

End WithWeb3.

End CreateMultisig.

(** ** utils/multisig-storage.ts: the per-owner list of vault references *)

Module MultisigStorage.

Record StoredMultisig := { multisigPda : jsstring; createKey : jsstring }.

(** [MultisigStorageData = Record<string, StoredMultisig[]>].  The JSON
    text kept in storage and the value it parses to are identified. *)
Abbreviation MultisigStorageData := (gmap jsstring (list StoredMultisig)).

(** Where the data lives: the [squads_multisigs] item of [localStorage]
    in a browser, the file [wallet-data/multisigs.json] under Node.js
    ([None]: no item, no file). *)
Record World := {
  isBrowser : bool;
  localStorage : option MultisigStorageData;
  file : option MultisigStorageData;
}.

Definition loadData (w : World) : MultisigStorageData :=
  if isBrowser w then
    match localStorage w with Some stored => stored | None => ∅ end
  else
    match file w with Some content => content | None => ∅ end.

Definition saveData (data : MultisigStorageData) (w : World) : World :=
  if isBrowser w then
    {| isBrowser := isBrowser w; localStorage := Some data; file := file w |}
  else
    {| isBrowser := isBrowser w; localStorage := localStorage w; file := Some data |}.

(** Sync version for browser - returns empty in Node.js *)
Definition loadDataSync (w : World) : MultisigStorageData :=
  if isBrowser w then
    match localStorage w with Some stored => stored | None => ∅ end
  else ∅.

(** Sync version for browser - no-op in Node.js *)
Definition saveDataSync (data : MultisigStorageData) (w : World) : World :=
  if isBrowser w then
    {| isBrowser := isBrowser w; localStorage := Some data; file := file w |}
  else w.

Section Api.

(** The two APIs differ only in the loader and saver they use. *)
Variable load : World -> MultisigStorageData.
Variable save : MultisigStorageData -> World -> World.

(** [data[ownerPublicKey]] is read as a lookup among the record's own
    keys.  That is what it is for the owner keys the callers pass, wallet
    addresses (base58 strings of 32 to 44 characters); a key that names a
    member every object inherits ([constructor], [__proto__], ...) would
    find that member instead and make [.some] and [.filter] throw, and is
    outside this model. *)
Definition saveWith (ownerPublicKey multisigPda createKey : jsstring)
  (w : World) : World :=
  let data := load w in
  let data :=
    match data !! ownerPublicKey with
    | None => <[ownerPublicKey := []]> data
    | Some _ => data
    end in
  let stored := default [] (data !! ownerPublicKey) in
  if some (fun m : StoredMultisig => streq (MultisigStorage.multisigPda m) multisigPda) stored
  then w
  else save (<[ownerPublicKey :=
                 stored ++ [{| multisigPda := multisigPda;
                               createKey := createKey |}]]> data) w.

Definition getWith (ownerPublicKey : jsstring) (w : World)
  : list StoredMultisig :=
  default [] (load w !! ownerPublicKey).

Definition removeWith (ownerPublicKey multisigPda : jsstring)
  (w : World) : World :=
  let data := load w in
  match data !! ownerPublicKey with
  | Some stored =>
      save (<[ownerPublicKey :=
                List.filter
                  (fun m : StoredMultisig =>
                     negb (streq (MultisigStorage.multisigPda m) multisigPda))
                  stored]> data) w
  | None => w
  end.

End Api.

Definition saveMultisigAddressAsync := saveWith loadData saveData.
Definition getStoredMultisigsAsync := getWith loadData.
Definition removeStoredMultisigAsync := removeWith loadData saveData.

Definition saveMultisigAddress := saveWith loadDataSync saveDataSync.
Definition getStoredMultisigs := getWith loadDataSync.
Definition removeStoredMultisig := removeWith loadDataSync saveDataSync.

(** A history of registry calls, replayed from a fresh installation. *)
Inductive Call :=
| CallSaveAsync (owner pda createKey : jsstring)
| CallRemoveAsync (owner pda : jsstring)
| CallSave (owner pda createKey : jsstring)
| CallRemove (owner pda : jsstring).

Definition perform (w : World) (c : Call) : World :=
  match c with
  | CallSaveAsync o v k => saveMultisigAddressAsync o v k w
  | CallRemoveAsync o v => removeStoredMultisigAsync o v w
  | CallSave o v k => saveMultisigAddress o v k w
  | CallRemove o v => removeStoredMultisig o v w
  end.

Definition fresh (browser : bool) : World :=
  {| isBrowser := browser; localStorage := None; file := None |}.

Definition replay (browser : bool) (history : list Call) : World :=
  fold_left perform history (fresh browser).

(** How many entries of a list refer to the vault [v]. *)
Definition entriesFor (v : jsstring) (stored : list StoredMultisig) : nat :=
  length (List.filter (fun m : StoredMultisig => streq (MultisigStorage.multisigPda m) v) stored).

End MultisigStorage.

(** ** The platform's UTF-8 codec *)

Module Utf8.

(** Encoding a string ([TextEncoder.encode], [Buffer] with ['utf8']): a
    surrogate pair is one code point, an unpaired surrogate is replaced by
    U+FFFD. *)
Definition isHighSurrogate (c : Z) : bool := (55296 <=? c) && (c <=? 56319).
Definition isLowSurrogate (c : Z) : bool := (56320 <=? c) && (c <=? 57343).

Definition REPLACEMENT : Z := 65533.

Definition encodeCodePoint (cp : Z) : list byte :=
  if cp <? 128 then [byteOf cp]
  else if cp <? 2048 then
    [byteOf (192 + cp / 64); byteOf (128 + cp mod 64)]
  else if cp <? 65536 then
    [byteOf (224 + cp / 64 / 64); byteOf (128 + cp / 64 mod 64);
     byteOf (128 + cp mod 64)]
  else
    [byteOf (240 + cp / 64 / 64 / 64); byteOf (128 + cp / 64 / 64 mod 64);
     byteOf (128 + cp / 64 mod 64); byteOf (128 + cp mod 64)].

Fixpoint encode (s : jsstring) : list byte :=
  match s with
  | [] => []
  | c :: rest =>
      if isHighSurrogate c then
        match rest with
        | d :: rest' =>
            if isLowSurrogate d
            then encodeCodePoint (65536 + (c - 55296) * 1024 + (d - 56320))
                 ++ encode rest'
            else encodeCodePoint REPLACEMENT ++ encode rest
        | [] => encodeCodePoint REPLACEMENT
        end
      else if isLowSurrogate c then encodeCodePoint REPLACEMENT ++ encode rest
      else encodeCodePoint c ++ encode rest
  end.

(** Decoding ([TextDecoder.decode], [buf.toString('utf8')]): the decoder of
    the Encoding Standard, which emits U+FFFD for every ill-formed
    sequence. *)
Record Decoder := {
  codePoint : Z;
  bytesSeen : Z;
  bytesNeeded : Z;
  lower : Z;
  upper : Z;
}.

Definition idle : Decoder :=
  {| codePoint := 0; bytesSeen := 0; bytesNeeded := 0; lower := 128; upper := 191 |}.

(** A byte met when no sequence is open. *)
Definition lead (b : Z) : list Z * Decoder :=
  if b <=? 127 then ([b], idle)
  else if (194 <=? b) && (b <=? 223) then
    ([], {| codePoint := b - 192; bytesSeen := 0; bytesNeeded := 1;
            lower := 128; upper := 191 |})
  else if (224 <=? b) && (b <=? 239) then
    ([], {| codePoint := b - 224; bytesSeen := 0; bytesNeeded := 2;
            lower := if b =? 224 then 160 else 128;
            upper := if b =? 237 then 159 else 191 |})
  else if (240 <=? b) && (b <=? 244) then
    ([], {| codePoint := b - 240; bytesSeen := 0; bytesNeeded := 3;
            lower := if b =? 240 then 144 else 128;
            upper := if b =? 244 then 143 else 191 |})
  else ([REPLACEMENT], idle).

Definition step (st : Decoder) (b : Z) : list Z * Decoder :=
  if bytesNeeded st =? 0 then lead b
  else if (b <? lower st) || (upper st <? b) then
    let '(out, st') := lead b in (REPLACEMENT :: out, st')
  else
    let cp := codePoint st * 64 + (b - 128) in
    if bytesSeen st + 1 =? bytesNeeded st then ([cp], idle)
    else ([], {| codePoint := cp; bytesSeen := bytesSeen st + 1;
                 bytesNeeded := bytesNeeded st; lower := 128; upper := 191 |}).

Fixpoint decodeFrom (st : Decoder) (bytes : list byte) : list Z :=
  match bytes with
  | [] => if bytesNeeded st =? 0 then [] else [REPLACEMENT]
  | b :: bytes' =>
      let '(out, st') := step st (byteValue b) in
      out ++ decodeFrom st' bytes'
  end.

(** A code point as UTF-16 code units. *)
Definition codeUnits (cp : Z) : jsstring :=
  if cp <? 65536 then [cp]
  else [55296 + (cp - 65536) / 1024; 56320 + (cp - 65536) mod 1024].

(** [buf.toString('utf8')] keeps a leading U+FEFF. *)
Definition decode (bytes : list byte) : jsstring :=
  flat_map codeUnits (decodeFrom idle bytes).

Definition BOM : Z := 65279.

Definition stripBOM (s : jsstring) : jsstring :=
  match s with
  | c :: rest => if c =? BOM then rest else s
  | [] => []
  end.

(** [new TextDecoder().decode(bytes)] drops it ([ignoreBOM] is false). *)
Definition textDecoderDecode (bytes : list byte) : jsstring :=
  stripBOM (decode bytes).

(** Strings of code units in which every surrogate is paired. *)
Fixpoint wellFormed (s : jsstring) : bool :=
  match s with
  | [] => true
  | c :: rest =>
      if isHighSurrogate c then
        match rest with
        | d :: rest' => isLowSurrogate d && wellFormed rest'
        | [] => false
        end
      else if isLowSurrogate c then false
      else (0 <=? c) && (c <? 65536) && wellFormed rest
  end.

End Utf8.

(** ** The randomness drawn by a run *)

Module Random.

(** [crypto.randomBytes(n)] and [crypto.getRandomValues(new Uint8Array(n))]
    read the next [n] bytes of the run's entropy. *)
Record Entropy := { source : nat -> byte; position : nat }.

Definition randomBytes (n : nat) (e : Entropy) : list byte * Entropy :=
  (map (source e) (seq (position e) n),
   {| source := source e; position := (position e + n)%nat |}).

End Random.

(** ** skills/crypto.ts (Node.js) and src/utils/crypto.ts (Web Crypto) *)

Module Crypto.

Import Random.

Definition SALT_LENGTH : nat := 16.
Definition IV_LENGTH : nat := 12.
Definition TAG_LENGTH : nat := 16.
Definition ITERATIONS : Z := 100000.
Definition KEY_LENGTH : nat := 32.

Section WithPrimitives.

(** PBKDF2-HMAC-SHA256 over password bytes, salt, iteration count and key
    length; AES-256-GCM sealing to ciphertext and tag, and opening
    ([None]: the key, nonce or tag is refused, or authentication fails);
    base64 text of bytes, [Buffer.from(text, 'base64')] and [atob]
    ([None]: it throws). *)
Variable pbkdf2 : list byte -> list byte -> Z -> nat -> list byte.
Variable gcmSeal : list byte -> list byte -> list byte -> list byte * list byte.
Variable gcmOpen : list byte -> list byte -> list byte -> list byte -> option (list byte).
Variable base64 : list byte -> jsstring.
Variable bufferFromBase64 : jsstring -> list byte.
Variable atob : jsstring -> option jsstring.

Definition deriveKey (password : jsstring) (salt : list byte) : list byte :=
  pbkdf2 (Utf8.encode password) salt ITERATIONS KEY_LENGTH.

(** *** Node.js *)

Definition encrypt (data password : jsstring) (e : Entropy) : jsstring * Entropy :=
  let '(salt, e) := randomBytes SALT_LENGTH e in
  let '(iv, e) := randomBytes IV_LENGTH e in
  let key := deriveKey password salt in
  let '(encrypted, authTag) := gcmSeal key iv (Utf8.encode data) in
  let combined := salt ++ iv ++ authTag ++ encrypted in
  (base64 combined, e).

Definition decrypt (encryptedData password : jsstring) : option jsstring :=
  let combined := bufferFromBase64 encryptedData in
  let salt := subarray combined 0 SALT_LENGTH in
  let iv := subarray combined SALT_LENGTH (SALT_LENGTH + IV_LENGTH) in
  let authTag := subarray combined (SALT_LENGTH + IV_LENGTH)
                   (SALT_LENGTH + IV_LENGTH + TAG_LENGTH) in
  let ciphertext := drop (SALT_LENGTH + IV_LENGTH + TAG_LENGTH) combined in
  let key := deriveKey password salt in
  match gcmOpen key iv ciphertext authTag with
  | Some decrypted => Some (Utf8.decode decrypted)
  | None => None
  end.

(** *** Web Crypto *)

(** [crypto.subtle.encrypt] returns the ciphertext followed by the 16-byte
    tag, and [crypto.subtle.decrypt] expects them so. *)
Definition subtleEncrypt (key iv data : list byte) : list byte :=
  let '(ciphertext, tag) := gcmSeal key iv data in ciphertext ++ tag.

Definition subtleDecrypt (key iv data : list byte) : option (list byte) :=
  if (length data <? TAG_LENGTH)%nat then None
  else
    gcmOpen key iv (take (length data - TAG_LENGTH) data)
                   (drop (length data - TAG_LENGTH) data).

(** [String.fromCharCode(...bytes)] and [btoa] of it (the engine's bound
    on the number of arguments of one call is left out). *)
Definition fromCharCodes (bytes : list byte) : jsstring := map byteValue bytes.

Definition btoa (binary : jsstring) : jsstring := base64 (map byteOf binary).

Definition webEncrypt (data password : jsstring) (e : Entropy) : jsstring * Entropy :=
  let dataBuffer := Utf8.encode data in
  let '(salt, e) := randomBytes SALT_LENGTH e in
  let '(iv, e) := randomBytes IV_LENGTH e in
  let key := deriveKey password salt in
  let ciphertext := subtleEncrypt key iv dataBuffer in
  let combined := salt ++ iv ++ ciphertext in
  (btoa (fromCharCodes combined), e).

Definition webDecrypt (encryptedData password : jsstring) : option jsstring :=
  match atob encryptedData with
  | None => None
  | Some binary =>
      let combined := map byteOf binary in
      let salt := subarray combined 0 SALT_LENGTH in
      let iv := subarray combined SALT_LENGTH (SALT_LENGTH + IV_LENGTH) in
      let ciphertext := drop (SALT_LENGTH + IV_LENGTH) combined in
      let key := deriveKey password salt in
      match subtleDecrypt key iv ciphertext with
      | Some decrypted => Some (Utf8.textDecoderDecode decrypted)
      | None => None
      end
  end.

End WithPrimitives.

End Crypto.

(** ** skills/errors.ts *)

Module Errors.

Inductive WalletError :=
| NoWalletError
| InvalidPasswordError
| WalletExistsError
| WeakPasswordError (minLength : Z).

Definition code (e : WalletError) : jsstring :=
  match e with
  | NoWalletError => js "NO_WALLET"
  | InvalidPasswordError => js "INVALID_PASSWORD"
  | WalletExistsError => js "WALLET_EXISTS"
  | WeakPasswordError _ => js "WEAK_PASSWORD"
  end.

End Errors.

(** ** skills/storage.ts: the file-based storage adapter *)

Module Storage.

Inductive Path :=
| IndexFile
| KeyFile (key : jsstring).

Inductive FsCall :=
| Mkdir
| ReadFile (p : Path)
| WriteFile (p : Path)
| Unlink (p : Path).

Section WithValues.

(** What the [.json] files hold once parsed. *)
Variable T : Type.

(** The storage directory: one file per key, the index file, and the calls
    made to [fs] so far.  Files are named by their key here: [getFilePath]
    names them by the base64url form of the key's UTF-8 encoding, which
    tells apart all keys in which every surrogate is paired (an unpaired
    surrogate is encoded as U+FFFD and shares its file with it), among them
    the one key the wallet uses, [solana_wallet].  Files are taken to hold
    what [set] wrote, a value that is not [null]: reading them raises
    nothing but [ENOENT]. *)
Record Disk := {
  files : gmap jsstring T;
  indexFile : option (list jsstring);
  calls : list FsCall;
}.

(** The fields of a [FileStorage] object. *)
Record FileStorage := { index : list jsstring; initialized : bool }.

Definition newFileStorage : FileStorage := {| index := []; initialized := false |}.

Definition fsCall (c : FsCall) (d : Disk) : Disk :=
  {| files := files d; indexFile := indexFile d; calls := calls d ++ [c] |}.

Definition ensureInitialized (this : FileStorage) (d : Disk) : FileStorage * Disk :=
  if initialized this then (this, d)
  else
    let d := fsCall Mkdir d in
    let d := fsCall (ReadFile IndexFile) d in
    match indexFile d with
    | Some keys => ({| index := fold_left Set_add keys []; initialized := true |}, d)
    | None => ({| index := []; initialized := true |}, d)
    end.

Definition saveIndex (this : FileStorage) (d : Disk) : Disk :=
  let d := fsCall (WriteFile IndexFile) d in
  {| files := files d; indexFile := Some (index this); calls := calls d |}.

Definition get (this : FileStorage) (key : jsstring) (d : Disk)
  : option T * FileStorage * Disk :=
  let '(this, d) := ensureInitialized this d in
  let d := fsCall (ReadFile (KeyFile key)) d in
  (files d !! key, this, d).

Definition set (this : FileStorage) (key : jsstring) (value : T) (d : Disk)
  : FileStorage * Disk :=
  let '(this, d) := ensureInitialized this d in
  let d := fsCall (WriteFile (KeyFile key)) d in
  let d := {| files := <[key := value]> (files d);
              indexFile := indexFile d; calls := calls d |} in
  if includes (index this) key then (this, d)
  else
    let this := {| index := Set_add (index this) key; initialized := initialized this |} in
    (this, saveIndex this d).

Definition remove (this : FileStorage) (key : jsstring) (d : Disk)
  : FileStorage * Disk :=
  let '(this, d) := ensureInitialized this d in
  let d := fsCall (Unlink (KeyFile key)) d in
  let d := {| files := delete key (files d);
              indexFile := indexFile d; calls := calls d |} in
  if includes (index this) key then
    let this := {| index := List.filter (fun k => negb (streq k key)) (index this);
                   initialized := initialized this |} in
    (this, saveIndex this d)
  else (this, d).

End WithValues.

Arguments files {T} _.
Arguments indexFile {T} _.
Arguments calls {T} _.

End Storage.

(** ** skills/wallet.ts: the keystore *)

Module Wallet.

Import Errors Storage.

Definition WALLET_KEY : jsstring := js "solana_wallet".
Definition MIN_PASSWORD_LENGTH : Z := 8.

Record WalletData := {
  name : jsstring;
  publicKey : jsstring;
  encryptedSecretKey : jsstring;
  createdAt : Z;
}.

Record CreateWalletResult := {
  success : bool;
  address : option jsstring;
  cw_name : option jsstring;
  error : option jsstring;
}.

(** A [Keypair] of web3.js. *)
Record Keypair := { kp_publicKey : PublicKey; secretKey : list byte }.

(** [secretKeyToBase58] *)
Definition bigIntOfBytes (secretKey : list byte) : Z :=
  fold_left (fun num b => num * 256 + byteValue b) secretKey 0.

(** The [while (num > 0)] loop; [fuel] bounds its length from above. *)
Fixpoint base58Digits (fuel : nat) (num : Z) (result : jsstring) : jsstring :=
  match fuel with
  | O => result
  | S fuel' =>
      if 0 <? num
      then base58Digits fuel' (num / 58)
             (nth (Z.to_nat (num mod 58)) Web3.ALPHABET 0 :: result)
      else result
  end.

(** The "Handle leading zeros" loop. *)
Fixpoint leadingZeroBytes (secretKey : list byte) (result : jsstring) : jsstring :=
  match secretKey with
  | b :: rest => if byteValue b =? 0 then leadingZeroBytes rest (49 :: result) else result
  | [] => result
  end.

Definition secretKeyToBase58 (secretKey : list byte) : jsstring :=
  let num := bigIntOfBytes secretKey in
  let result := base58Digits (S (Z.to_nat (Z.log2 num))) num [] in
  leadingZeroBytes secretKey result.

(** [JSON.stringify(Array.from(secretKey))] *)
Definition digit (d : Z) : Z := 48 + d.

Definition decimal (n : Z) : jsstring :=
  if n <? 10 then [digit n]
  else if n <? 100 then [digit (n / 10); digit (n mod 10)]
  else [digit (n / 100); digit (n / 10 mod 10); digit (n mod 10)].

Fixpoint joinComma (items : list jsstring) : jsstring :=
  match items with
  | [] => []
  | [x] => x
  | x :: rest => x ++ js "," ++ joinComma rest
  end.

Definition stringifyBytes (secretKey : list byte) : jsstring :=
  js "[" ++ joinComma (map (fun b => decimal (byteValue b)) secretKey) ++ js "]".

Section WithPlatform.

(** The cipher of [crypto.ts], with the salt and nonce it draws in this
    run ([None]: [decrypt] throws). *)
Variable encrypt : jsstring -> jsstring -> jsstring.
Variable decrypt : jsstring -> jsstring -> option jsstring.

(** [JSON.parse] ([None]: it throws), [new Uint8Array(value)] on what it
    returned ([None]: it throws) and [Keypair.fromSecretKey] ([None]: the
    bytes are not a 64-byte secret key matching its public half). *)
Variable JsValue : Type.
Variable JSON_parse : jsstring -> option JsValue.
Variable Uint8Array_from : JsValue -> option (list byte).
Variable Keypair_fromSecretKey : list byte -> option Keypair.

Record UnlockWalletResult := {
  uw_success : bool;
  uw_publicKey : jsstring;
  uw_secretKey : jsstring;
  secretKeyArray : JsValue;
  uw_name : jsstring;
}.

(** What can be thrown inside the [try] blocks. *)
Inductive Thrown :=
| DecryptThrew
| JsonParseThrew
| Uint8ArrayThrew
| FromSecretKeyThrew.

(** [createWallet]; [keypair] is what [Keypair.generate()] returns and
    [now] what [Date.now()] returns. *)
Definition createWallet (name password : jsstring) (keypair : Keypair) (now : Z)
  (d : Disk WalletData) : (WalletError + CreateWalletResult) * Disk WalletData :=
  if Z.of_nat (length password) <? MIN_PASSWORD_LENGTH
  then (inl (WeakPasswordError MIN_PASSWORD_LENGTH), d)
  else
    let storage := newFileStorage in
    let '(existing, storage, d) := get WalletData storage WALLET_KEY d in
    match existing with
    | Some _ => (inl WalletExistsError, d)
    | None =>
        let publicKey := toBase58 (kp_publicKey keypair) in
        let secretKeyJson := stringifyBytes (secretKey keypair) in
        let encryptedSecretKey := encrypt secretKeyJson password in
        let walletData :=
          {| name := name; publicKey := publicKey;
             encryptedSecretKey := encryptedSecretKey; createdAt := now |} in
        let '(storage, d) := set WalletData storage WALLET_KEY walletData d in
        (inr {| success := true; address := Some publicKey;
                cw_name := Some name; error := None |}, d)
    end.

(** The body of the [try] of [unlockWallet]. *)
Definition unlockWallet_try (walletData : WalletData) (password : jsstring)
  : Thrown + UnlockWalletResult :=
  match decrypt (encryptedSecretKey walletData) password with
  | None => inl DecryptThrew
  | Some secretKeyJson =>
      match JSON_parse secretKeyJson with
      | None => inl JsonParseThrew
      | Some secretKeyArray =>
          match Uint8Array_from secretKeyArray with
          | None => inl Uint8ArrayThrew
          | Some secretKeyUint8 =>
              match Keypair_fromSecretKey secretKeyUint8 with
              | None => inl FromSecretKeyThrew
              | Some keypair =>
                  inr {| uw_success := true;
                         uw_publicKey := toBase58 (kp_publicKey keypair);
                         uw_secretKey := secretKeyToBase58 secretKeyUint8;
                         secretKeyArray := secretKeyArray;
                         uw_name := name walletData |}
              end
          end
      end
  end.

Definition unlockWallet (password : jsstring) (d : Disk WalletData)
  : (WalletError + UnlockWalletResult) * Disk WalletData :=
  let storage := newFileStorage in
  let '(walletData, storage, d) := get WalletData storage WALLET_KEY d in
  match walletData with
  | None => (inl NoWalletError, d)
  | Some walletData =>
      match unlockWallet_try walletData password with
      | inr result => (inr result, d)
      | inl _ => (inl InvalidPasswordError, d)
      end
  end.

(** The body of the [try] of [getKeypair]. *)
Definition getKeypair_try (walletData : WalletData) (password : jsstring)
  : Thrown + Keypair :=
  match decrypt (encryptedSecretKey walletData) password with
  | None => inl DecryptThrew
  | Some secretKeyJson =>
      match JSON_parse secretKeyJson with
      | None => inl JsonParseThrew
      | Some secretKeyArray =>
          match Uint8Array_from secretKeyArray with
          | None => inl Uint8ArrayThrew
          | Some bytes =>
              match Keypair_fromSecretKey bytes with
              | None => inl FromSecretKeyThrew
              | Some keypair => inr keypair
              end
          end
      end
  end.

Definition getKeypair (password : jsstring) (d : Disk WalletData)
  : (WalletError + Keypair) * Disk WalletData :=
  let storage := newFileStorage in
  let '(walletData, storage, d) := get WalletData storage WALLET_KEY d in
  match walletData with
  | None => (inl NoWalletError, d)
  | Some walletData =>
      match getKeypair_try walletData password with
      | inr keypair => (inr keypair, d)
      | inl _ => (inl InvalidPasswordError, d)
      end
  end.

End WithPlatform.

Record AddressResult := {
  ar_success : bool;
  ar_address : option jsstring;
  ar_name : option jsstring;
}.

Definition getAddress (d : Disk WalletData)
  : (WalletError + AddressResult) * Disk WalletData :=
  let storage := newFileStorage in
  let '(walletData, storage, d) := get WalletData storage WALLET_KEY d in
  match walletData with
  | None => (inl NoWalletError, d)
  | Some walletData =>
      (inr {| ar_success := true;
              ar_address := Some (publicKey walletData);
              ar_name := Some (name walletData) |}, d)
  end.

Definition deleteWallet (d : Disk WalletData)
  : (WalletError + bool) * Disk WalletData :=
  let storage := newFileStorage in
  let '(walletData, storage, d) := get WalletData storage WALLET_KEY d in
  match walletData with
  | None => (inl NoWalletError, d)
  | Some _ =>
      let '(storage, d) := remove WalletData storage WALLET_KEY d in
      (inr true, d)
  end.

End Wallet.

(** ** skills/multisig/import-vault.ts *)

Module ImportVault.

(** The class [[A-HJ-NP-Za-km-z1-9]] *)
Definition isBase58 (c : Z) : bool :=
  ((65 <=? c) && (c <=? 72)) || ((74 <=? c) && (c <=? 78))
  || ((80 <=? c) && (c <=? 90)) || ((97 <=? c) && (c <=? 107))
  || ((109 <=? c) && (c <=? 122)) || ((49 <=? c) && (c <=? 57)).

Fixpoint stripPrefix (prefix s : jsstring) : option jsstring :=
  match prefix, s with
  | [], _ => Some s
  | p :: prefix', c :: s' => if p =? c then stripPrefix prefix' s' else None
  | _ :: _, [] => None
  end.

(** The greedy [{..,n}]: the longest run of at most [n] class members at
    the head of [s]. *)
Fixpoint takeBase58 (n : nat) (s : jsstring) : jsstring :=
  match n, s with
  | S n', c :: s' => if isBase58 c then c :: takeBase58 n' s' else []
  | _, _ => []
  end.

(** [/\/vault\/([A-HJ-NP-Za-km-z1-9]{32,44})/] tried at the head of [s]:
    the captured group. *)
Definition matchHere (s : jsstring) : option jsstring :=
  match stripPrefix (js "/vault/") s with
  | Some rest =>
      let group := takeBase58 44 rest in
      if (32 <=? length group)%nat then Some group else None
  | None => None
  end.

(** [trimmed.match(...)]: the leftmost position at which the pattern
    matches. *)
Fixpoint vaultUrlMatch (s : jsstring) : option jsstring :=
  match matchHere s with
  | Some group => Some group
  | None =>
      match s with
      | [] => None
      | _ :: s' => vaultUrlMatch s'
      end
  end.

(** [/^[A-HJ-NP-Za-km-z1-9]{32,44}$/.test(trimmed)] *)
Definition isDirectAddress (trimmed : jsstring) : bool :=
  forallb isBase58 trimmed
  && (32 <=? length trimmed)%nat && (length trimmed <=? 44)%nat.

Definition extractVaultAddress (input : jsstring) : option jsstring :=
  let trimmed := trim input in
  match vaultUrlMatch trimmed with
  | Some group => Some group
  | None => if isDirectAddress trimmed then Some trimmed else None
  end.

(** What is thrown into the outer [catch] before any request is sent. *)
Inductive Thrown :=
| NoWalletThrown
| InvalidPublicKeyInput.

(** The JSON printed by [main], by its [error] code or success flag. *)
Inductive Outcome :=
| INPUT_REQUIRED
| INVALID_INPUT
| NO_WALLET
| VAULT_NOT_FOUND (providedAddress : jsstring)
| NOT_A_MEMBER (yourAddress : jsstring)
| IMPORT_FAILED (e : Thrown)
| Success (alreadyImported : bool) (address : jsstring).

Record World := {
  disk : Storage.Disk Wallet.WalletData;
  requests : list Request;
  registry : MultisigStorage.World;
}.

Section WithCluster.

Variable isPublicKey : jsstring -> bool.
Variable ledger : Ledger.

(** [main], from [const input = link || vault] on. *)
Definition main (input : jsstring) (w : World) : Outcome * World :=
  match input with
  | [] => (INPUT_REQUIRED, w)
  | _ =>
      match extractVaultAddress input with
      | None => (INVALID_INPUT, w)
      | Some extractedAddress =>
          let '(addressResult, disk) := Wallet.getAddress (disk w) in
          let w := {| disk := disk; requests := requests w; registry := registry w |} in
          match addressResult with
          | inl _ => (IMPORT_FAILED NoWalletThrown, w)
          | inr addressResult =>
              match Wallet.ar_success addressResult, Wallet.ar_address addressResult with
              | true, Some (c :: rest) =>
                  let walletAddress := c :: rest in
                  if isPublicKey extractedAddress then
                    let multisigPda := mkPublicKey extractedAddress in
                    let '(vaultInfo, requests) :=
                      getMultisigAccount ledger multisigPda (requests w) in
                    let w := {| disk := disk; requests := requests; registry := registry w |} in
                    match vaultInfo with
                    | None => (VAULT_NOT_FOUND extractedAddress, w)
                    | Some vaultInfo =>
                        let isMember :=
                          some (fun m => streq (Multisig.publicKey m) walletAddress)
                               (members vaultInfo) in
                        if isMember then
                          let existing :=
                            MultisigStorage.getStoredMultisigsAsync walletAddress (registry w) in
                          if some (fun e => streq (MultisigStorage.multisigPda e)
                                                  (Multisig.address vaultInfo)) existing
                          then (Success true (Multisig.address vaultInfo), w)
                          else
                            (Success false (Multisig.address vaultInfo),
                             {| disk := disk; requests := requests;
                                registry :=
                                  MultisigStorage.saveMultisigAddressAsync walletAddress
                                    (Multisig.address vaultInfo)
                                    (Multisig.createKey vaultInfo) (registry w) |})
                        else (NOT_A_MEMBER walletAddress, w)
                    end
                  else (IMPORT_FAILED InvalidPublicKeyInput, w)
              | _, _ => (NO_WALLET, w)
              end
          end
      end
  end.

End WithCluster.

End ImportVault.

(** ** skills/storage.ts: the remaining methods of the adapter *)

Module StorageQueries.

Import Storage.

Section FilePaths.

(** [buf.toString('base64url')] *)
Variable base64url : list byte -> jsstring.


End FilePaths.

Section WithValues.

Variable T : Type.

(** [clear]: every [.json] file of the directory is unlinked, the index
    file among them, and the in-memory index is emptied.  The directory
    listing and the unlinks, which run in no fixed order, are not entered
    in [calls]. *)
Definition clear (this : FileStorage) (d : Disk T) : FileStorage * Disk T :=
  let '(this, d) := ensureInitialized T this d in
  ({| index := []; initialized := initialized this |},
   {| files := ∅; indexFile := None; calls := calls d |}).

Definition list (this : FileStorage) (d : Disk T)
  : list jsstring * FileStorage * Disk T :=
  let '(this, d) := ensureInitialized T this d in
  (index this, this, d).

Definition has (this : FileStorage) (key : jsstring) (d : Disk T)
  : bool * FileStorage * Disk T :=
  let '(this, d) := ensureInitialized T this d in
  (includes (index this) key, this, d).

(** The calls a program makes on one [FileStorage] object. *)
Inductive Op :=
| OpSet (key : jsstring) (value : T)
| OpRemove (key : jsstring)
| OpGet (key : jsstring)
| OpHas (key : jsstring)
| OpList.

Definition perform (state : FileStorage * Disk T) (op : Op) : FileStorage * Disk T :=
  let '(this, d) := state in
  match op with
  | OpSet key value => set T this key value d
  | OpRemove key => remove T this key d
  | OpGet key => let '(_, this, d) := get T this key d in (this, d)
  | OpHas key => let '(_, this, d) := has this key d in (this, d)
  | OpList => let '(_, this, d) := list this d in (this, d)
  end.

End WithValues.

End StorageQueries.

(** ** skills/wallet.ts, continued, and the wallet scripts *)

Module WalletCli.

Import Errors Storage Wallet.

(** [formatPublicKey]: [slice(0, 6)], three dots, [slice(-6)]. *)
Definition formatPublicKey (publicKey : jsstring) : jsstring :=
  if (length publicKey <=? 12)%nat then publicKey
  else take 6 publicKey ++ js "..." ++ drop (length publicKey - 6) publicKey.

Record WalletStatus := {
  exists_ : bool;
  ws_name : option jsstring;
  ws_publicKey : option jsstring;
  ws_createdAt : option Z;
}.

(** [checkStatus]; its [catch] is for file-system failures, which the disk
    model does not raise. *)
Definition checkStatus (d : Disk WalletData) : WalletStatus * Disk WalletData :=
  let storage := newFileStorage in
  let '(walletData, storage, d) := get WalletData storage WALLET_KEY d in
  match walletData with
  | None =>
      ({| exists_ := false; ws_name := None; ws_publicKey := None;
          ws_createdAt := None |}, d)
  | Some walletData =>
      ({| exists_ := true;
          ws_name := Some (name walletData);
          ws_publicKey := Some (publicKey walletData);
          ws_createdAt := Some (createdAt walletData) |}, d)
  end.

(** [args[i + 1]] as a condition: defined and not the empty string. *)
Definition truthy (s : jsstring) : bool :=
  match s with
  | [] => false
  | _ :: _ => true
  end.

(** *** skills/create-wallet.ts *)

Record CreateArgs := { arg_name : jsstring; arg_password : jsstring; force : bool }.

(** The [for] loop of [parseArgs]: a recognised flag consumes the argument
    after it ([args[++i]]). *)
Fixpoint parseCreateArgs (args : list jsstring) (acc : CreateArgs) : CreateArgs :=
  match args with
  | [] => acc
  | a :: rest =>
      match rest with
      | v :: rest' =>
          if streq a (js "--name") && truthy v then
            parseCreateArgs rest'
              {| arg_name := v; arg_password := arg_password acc; force := force acc |}
          else if streq a (js "--password") && truthy v then
            parseCreateArgs rest'
              {| arg_name := arg_name acc; arg_password := v; force := force acc |}
          else if streq a (js "--force") then
            parseCreateArgs rest
              {| arg_name := arg_name acc; arg_password := arg_password acc; force := true |}
          else parseCreateArgs rest acc
      | [] =>
          if streq a (js "--force") then
            {| arg_name := arg_name acc; arg_password := arg_password acc; force := true |}
          else acc
      end
  end.

Definition createParseArgs (args : list jsstring) : CreateArgs :=
  parseCreateArgs args {| arg_name := []; arg_password := []; force := false |}.

Inductive CreateOutcome :=
| MissingArguments
| WALLET_EXISTS (existingAddress existingName : option jsstring)
| Created (address name : option jsstring)
| CreateFailed (e : WalletError).

Section WithCipher.

Variable encrypt : jsstring -> jsstring -> jsstring.

Definition createMain (args : list jsstring) (keypair : Keypair) (now : Z)
  (d : Disk WalletData) : CreateOutcome * Disk WalletData :=
  let parsed := createParseArgs args in
  if negb (truthy (arg_name parsed)) || negb (truthy (arg_password parsed))
  then (MissingArguments, d)
  else
    let '(existing, d) := checkStatus d in
    let create (d : Disk WalletData) :=
      let '(result, d) :=
        createWallet encrypt (arg_name parsed) (arg_password parsed) keypair now d in
      match result with
      | inr result => (Created (address result) (cw_name result), d)
      | inl e => (CreateFailed e, d)
      end in
    if exists_ existing then
      if negb (force parsed)
      then (WALLET_EXISTS (ws_publicKey existing) (ws_name existing), d)
      else
        let '(deleted, d) := deleteWallet d in
        match deleted with
        | inl e => (CreateFailed e, d)
        | inr _ => create d
        end
    else create d.

End WithCipher.

(** *** skills/unlock-wallet.ts *)

Record UnlockArgs := { unlock_password : jsstring; showSecret : bool }.

Fixpoint parseUnlockArgs (args : list jsstring) (acc : UnlockArgs) : UnlockArgs :=
  match args with
  | [] => acc
  | a :: rest =>
      match rest with
      | v :: rest' =>
          if streq a (js "--password") && truthy v then
            parseUnlockArgs rest'
              {| unlock_password := v; showSecret := showSecret acc |}
          else if streq a (js "--show-secret") then
            parseUnlockArgs rest
              {| unlock_password := unlock_password acc; showSecret := true |}
          else parseUnlockArgs rest acc
      | [] =>
          if streq a (js "--show-secret") then
            {| unlock_password := unlock_password acc; showSecret := true |}
          else acc
      end
  end.

Definition unlockParseArgs (args : list jsstring) : UnlockArgs :=
  parseUnlockArgs args {| unlock_password := []; showSecret := false |}.

Section WithPlatform.

Variable decrypt : jsstring -> jsstring -> option jsstring.
Variable JsValue : Type.
Variable JSON_parse : jsstring -> option JsValue.
Variable Uint8Array_from : JsValue -> option (list byte).
Variable Keypair_fromSecretKey : list byte -> option Keypair.

(** The object the unlock script prints on success, without [success]
    and the [message] made of the name and the address. *)
Record UnlockOutput := {
  out_name : jsstring;
  out_publicKey : jsstring;
  out_publicKeyShort : jsstring;
  out_secretKey : option jsstring;
  out_secretKeyArray : option JsValue;
  out_warning : bool;
}.

Inductive UnlockOutcome :=
| MissingPassword
| Unlocked (output : UnlockOutput)
| UnlockFailed (e : WalletError).

Definition unlockMain (args : list jsstring) (d : Disk WalletData)
  : UnlockOutcome * Disk WalletData :=
  let parsed := unlockParseArgs args in
  if negb (truthy (unlock_password parsed)) then (MissingPassword, d)
  else
    let '(result, d) :=
      unlockWallet decrypt JsValue JSON_parse Uint8Array_from Keypair_fromSecretKey
        (unlock_password parsed) d in
    match result with
    | inl e => (UnlockFailed e, d)
    | inr result =>
        let shown := showSecret parsed in
        (Unlocked
           {| out_name := uw_name JsValue result;
              out_publicKey := uw_publicKey JsValue result;
              out_publicKeyShort := formatPublicKey (uw_publicKey JsValue result);
              out_secretKey :=
                if shown then Some (uw_secretKey JsValue result) else None;
              out_secretKeyArray :=
                if shown then Some (secretKeyArray JsValue result) else None;
              out_warning := shown |}, d)
    end.

End WithPlatform.

(** *** skills/delete-wallet.ts *)

Inductive DeleteOutcome :=
| ConfirmRequired
| Deleted (deletedAddress deletedName : option jsstring)
| DeleteFailed (e : WalletError).

Definition deleteMain (args : list jsstring) (d : Disk WalletData)
  : DeleteOutcome * Disk WalletData :=
  let confirm := includes args (js "--confirm") in
  if negb confirm then (ConfirmRequired, d)
  else
    let '(addressInfo, d) := getAddress d in
    match addressInfo with
    | inl e => (DeleteFailed e, d)
    | inr addressInfo =>
        let '(deleted, d) := deleteWallet d in
        match deleted with
        | inl e => (DeleteFailed e, d)
        | inr _ => (Deleted (ar_address addressInfo) (ar_name addressInfo), d)
        end
    end.

End WalletCli.

(** ** skills/utils/share-links.ts and utils/multisigWalletAdapter.ts *)

Module ShareLinks.

Definition getVaultShareLink (multisigPda baseUrl : jsstring) : jsstring :=
  baseUrl ++ js "/vault/" ++ multisigPda.

Section WithIndex.

(** [proposalIndex.toString()] of a [bigint] or [number]. *)
Variable Index : Type.
Variable toString : Index -> jsstring.

Definition getProposalShareLink (multisigPda : jsstring) (proposalIndex : Index)
  (baseUrl : jsstring) : jsstring :=
  baseUrl ++ js "/vault/" ++ multisigPda ++ js "/proposal/" ++ toString proposalIndex.

End WithIndex.

End ShareLinks.

(** ** utils/multisig.ts: finding the vaults a key is a member of *)

Module Discovery.

(** An account owned by the Squads program: its address, the length of
    its data and what [Multisig.fromAccountInfo] makes of it ([None]: it
    throws). *)
Record ProgramAccount := {
  pubkey : PublicKey;
  dataLength : Z;
  fromAccountInfo : option MultisigAccount;
}.

(** The cluster as [getProgramAccounts] sees it.  Either of the two
    requests may fail. *)
Record Cluster := {
  accounts : list ProgramAccount;
  filteredRequestFails : bool;
  unfilteredRequestFails : bool;
}.

(** [connection.getProgramAccounts(programId, { filters: [{ dataSize }] })]
    and [connection.getProgramAccounts(programId)]; [None]: it throws. *)
Definition getProgramAccounts (cluster : Cluster) (dataSize : option Z)
  : option (list ProgramAccount) :=
  match dataSize with
  | Some size =>
      if filteredRequestFails cluster then None
      else Some (List.filter (fun a => dataLength a =? size) (accounts cluster))
  | None =>
      if unfilteredRequestFails cluster then None
      else Some (accounts cluster)
  end.

(** The body of the [for] loop. *)
Definition checkAccount (memberPublicKey : PublicKey) (vaults : list MultisigVault)
  (entry : ProgramAccount) : list MultisigVault :=
  match fromAccountInfo entry with
  | Some multisigAccount =>
      let isMember :=
        some (fun m => streq (toBase58 (key m)) (toBase58 memberPublicKey))
             (acc_members multisigAccount) in
      if isMember then
        vaults ++
        [{| address := toBase58 (pubkey entry);
            createKey := toBase58 (acc_createKey multisigAccount);
            threshold := acc_threshold multisigAccount;
            members :=
              map (fun m =>
                     {| publicKey := toBase58 (key m);
                        permissions :=
                          {| initiate := Permissions_has (mask m) Permission_Initiate;
                             vote := Permissions_has (mask m) Permission_Vote;
                             execute := Permissions_has (mask m) Permission_Execute |} |})
                  (acc_members multisigAccount);
            transactionIndex := acc_transactionIndex multisigAccount;
            staleTransactionIndex := acc_staleTransactionIndex multisigAccount |}]
      else vaults
  | None => vaults
  end.

Definition discoverMultisigsForMember (cluster : Cluster) (memberPublicKey : PublicKey)
  : list MultisigVault :=
  match getProgramAccounts cluster (Some 178) with
  | None => []
  | Some accounts =>
      let accountsToCheck :=
        if (0 <? length accounts)%nat then Some accounts
        else getProgramAccounts cluster None in
      match accountsToCheck with
      | None => []
      | Some accountsToCheck =>
          fold_left (checkAccount memberPublicKey) accountsToCheck []
      end
  end.

End Discovery.

(** ** components/multisig/CreateVault.tsx: the form of the built-in wallet *)

Module CreateVault.

Record Member := {
  address : jsstring;
  initiate : bool;
  vote : bool;
  execute : bool;
}.

(** The state of the form: [members], [threshold] and [password]. *)
Record Form := {
  members : list Member;
  threshold : Z;
  password : jsstring;
}.

(** [useState] initial values; [keypairAddress] is
    [keypair.publicKey.toBase58()]. *)
Definition initialForm (keypairAddress : jsstring) : Form :=
  {| members := [{| address := keypairAddress; initiate := true; vote := true;
                    execute := true |}];
     threshold := 1;
     password := [] |}.

Definition addMember (f : Form) : Form :=
  {| members := members f ++ [{| address := []; initiate := true; vote := true;
                                 execute := true |}];
     threshold := threshold f;
     password := password f |}.

(** [members.filter((_, i) => i !== index)] is [delete index members]. *)
Definition removeMember (index : nat) (f : Form) : Form :=
  if (1 <? length (members f))%nat then
    let newMembers := delete index (members f) in
    {| members := newMembers;
       threshold :=
         if Z.of_nat (length newMembers) <? threshold f
         then Z.of_nat (length newMembers) else threshold f;
       password := password f |}
  else f.

(** The four ways the form calls [updateMember(index, field, value)]. *)
Inductive FieldValue :=
| Address (value : jsstring)
| Initiate (checked : bool)
| Vote (checked : bool)
| Execute (checked : bool).

Definition withField (field : FieldValue) (m : Member) : Member :=
  match field with
  | Address value =>
      {| address := value; initiate := initiate m; vote := vote m; execute := execute m |}
  | Initiate checked =>
      {| address := address m; initiate := checked; vote := vote m; execute := execute m |}
  | Vote checked =>
      {| address := address m; initiate := initiate m; vote := checked; execute := execute m |}
  | Execute checked =>
      {| address := address m; initiate := initiate m; vote := vote m; execute := checked |}
  end.

(** [updateMember] for the index of a row of the form. *)
Definition updateMember (index : nat) (field : FieldValue) (f : Form) : Form :=
  {| members := alter (withField field) index (members f);
     threshold := threshold f;
     password := password f |}.

(** [setThreshold(Math.max(1, parseInt(e.target.value) || 1))]; [parsed]
    is what [parseInt] returns. *)
Definition onThresholdChange (parsed : jsnumber) (f : Form) : Form :=
  let value :=
    match parsed with
    | NaN => 1
    | Int z => if z =? 0 then 1 else z
    end in
  {| members := members f; threshold := Z.max 1 value; password := password f |}.

Definition onPasswordChange (value : jsstring) (f : Form) : Form :=
  {| members := members f; threshold := threshold f; password := value |}.

(** What the user can do to the form: each row has its index, so
    [removeMember] and [updateMember] are called with an index below
    [members.length]. *)
Inductive Step (f : Form) : Form -> Prop :=
| step_addMember : Step f (addMember f)
| step_removeMember (index : nat) :
    (index < length (members f))%nat -> Step f (removeMember index f)
| step_updateMember (index : nat) (field : FieldValue) :
    (index < length (members f))%nat -> Step f (updateMember index field f)
| step_threshold (parsed : jsnumber) : Step f (onThresholdChange parsed f)
| step_password (value : jsstring) : Step f (onPasswordChange value f).

Inductive Reachable (keypairAddress : jsstring) : Form -> Prop :=
| reach_initial : Reachable keypairAddress (initialForm keypairAddress)
| reach_step (f f' : Form) :
    Reachable keypairAddress f -> Step f f' -> Reachable keypairAddress f'.

Inductive ErrorMessage :=
| AddressRequired (memberNumber : nat)
| InvalidSolanaAddress (memberNumber : nat)
| NoPermission (memberNumber : nat)
| DuplicateAddresses
| ThresholdExceedsVoters (threshold votersCount : Z)
| PasswordRequired
| InvalidPassword
| Thrown (message : jsstring).

(** What [loadWallet(password)] does: a key pair, [null], or an error. *)
Inductive LoadResult :=
| Loaded (kp : Wallet.Keypair)
| NoWallet
| LoadThrew (message : jsstring).

Inductive Outcome :=
| setError (e : ErrorMessage)
| createMultisigVault (kp : Wallet.Keypair) (membersList : list (PublicKey * Z))
    (threshold : Z).

Section WithWeb3.

Variable isPublicKey : jsstring -> bool.
Variable loadWallet : jsstring -> LoadResult.

(** The "Validate members" loop, from the member at index [i] on. *)
Fixpoint validateMembers (i : nat) (members : list Member) : option ErrorMessage :=
  match members with
  | [] => None
  | member :: rest =>
      match address member with
      | [] => Some (AddressRequired (i + 1))
      | _ =>
          if negb (isPublicKey (address member)) then Some (InvalidSolanaAddress (i + 1))
          else if negb (initiate member) && negb (vote member) && negb (execute member)
          then Some (NoPermission (i + 1))
          else validateMembers (S i) rest
      end
  end.

Definition votersCount (members : list Member) : Z :=
  Z.of_nat (length (List.filter vote members)).

Definition permissionsOf (m : Member) : Z :=
  if initiate m && vote m && execute m
  then CreateMultisig.getAllPermissions
  else ExternalCreateVault.createPermissions (initiate m) (vote m) (execute m).

Definition handleCreate (f : Form) : Outcome :=
  match validateMembers 0 (members f) with
  | Some e => setError e
  | None =>
      let addresses := map address (members f) in
      let uniqueAddresses := fold_left Set_add addresses [] in
      if negb (length uniqueAddresses =? length addresses)%nat
      then setError DuplicateAddresses
      else if votersCount (members f) <? threshold f
      then setError (ThresholdExceedsVoters (threshold f) (votersCount (members f)))
      else
        match password f with
        | [] => setError PasswordRequired
        | _ =>
            match loadWallet (password f) with
            | LoadThrew message => setError (Thrown message)
            | NoWallet => setError InvalidPassword
            | Loaded kp =>
                createMultisigVault kp
                  (map (fun m => (mkPublicKey (address m), permissionsOf m)) (members f))
                  (threshold f)
            end
        end
  end.

End WithWeb3.

End CreateVault.

(** ** components/multisig/VaultDetail.tsx: what a proposal row shows *)

Module ProposalRow.

Import VaultDetail.

Inductive VotedLabel := YouApproved | YouRejected.

Section WithUser.

Variable userPubKey : jsstring.
Variable vault : option MultisigVault.

(** [canExecute(proposal) && userPermissions?.execute] *)
Definition executeButton (proposal : ProposalInfo) : bool :=
  canExecute vault proposal
  && match userPermissions userPubKey vault with
     | Some perms => execute perms
     | None => false
     end.

(** The "You voted" label inside the [proposal.status === 'Active'] block. *)
Definition votedLabel (proposal : ProposalInfo) : option VotedLabel :=
  match status proposal with
  | Active =>
      if hasVoted userPubKey proposal then
        Some (if includes (approvals proposal) userPubKey then YouApproved
              else YouRejected)
      else None
  | _ => None
  end.

End WithUser.

End ProposalRow.

(** ** skills/multisig/execute-proposal.ts *)

Module ExecuteProposal.

Import Errors.

Record Args := { arg_vault : jsstring; proposalIndex : jsnumber; arg_password : jsstring }.

(** [!proposalIndex] on a number: [0] and [NaN]. *)
Definition falsy (n : jsnumber) : bool :=
  match n with
  | NaN => true
  | Int z => z =? 0
  end.

Inductive Thrown :=
| KeypairThrew (e : WalletError)
| InvalidPublicKeyInput.

Inductive Outcome :=
| MISSING_ARGS
| PROPOSAL_NOT_FOUND (proposalIndex : Z)
| PROPOSAL_NOT_APPROVED (currentStatus : Status) (currentApprovals : nat)
| EXECUTE_FAILED (e : Thrown)
| executeVaultTransaction (keypair : Wallet.Keypair) (multisigPda : PublicKey)
    (transactionIndex : Z).

Record World := {
  disk : Storage.Disk Wallet.WalletData;
  requests : list Request;
}.

Section WithPlatform.

Variable parseInt : jsstring -> jsnumber.
Variable isPublicKey : jsstring -> bool.
Variable decrypt : jsstring -> jsstring -> option jsstring.
Variable JsValue : Type.
Variable JSON_parse : jsstring -> option JsValue.
Variable Uint8Array_from : JsValue -> option (list byte).
Variable Keypair_fromSecretKey : list byte -> option Wallet.Keypair.
Variable getTransactionPda : PublicKey -> Z -> PublicKey.
Variable getProposalPda : PublicKey -> Z -> PublicKey.
Variable ledger : Ledger.

(** The argument loop of [main]. *)
Fixpoint parseArgs (args : list jsstring) (acc : Args) : Args :=
  match args with
  | [] => acc
  | a :: rest =>
      match rest with
      | v :: rest' =>
          if streq a (js "--vault") && WalletCli.truthy v then
            parseArgs rest'
              {| arg_vault := v; proposalIndex := proposalIndex acc;
                 arg_password := arg_password acc |}
          else if streq a (js "--proposal") && WalletCli.truthy v then
            parseArgs rest'
              {| arg_vault := arg_vault acc; proposalIndex := parseInt v;
                 arg_password := arg_password acc |}
          else if streq a (js "--password") && WalletCli.truthy v then
            parseArgs rest'
              {| arg_vault := arg_vault acc; proposalIndex := proposalIndex acc;
                 arg_password := v |}
          else parseArgs rest acc
      | [] => acc
      end
  end.

(** [main] up to the call of [executeVaultTransaction]. *)
Definition main (args : list jsstring) (w : World) : Outcome * World :=
  let parsed :=
    parseArgs args {| arg_vault := []; proposalIndex := Int 0; arg_password := [] |} in
  match proposalIndex parsed with
  | NaN => (MISSING_ARGS, w)
  | Int index =>
      if negb (WalletCli.truthy (arg_vault parsed)) || falsy (Int index)
         || negb (WalletCli.truthy (arg_password parsed))
      then (MISSING_ARGS, w)
      else
        let '(keypair, disk) :=
          Wallet.getKeypair decrypt JsValue JSON_parse Uint8Array_from
            Keypair_fromSecretKey (arg_password parsed) (disk w) in
        let w := {| disk := disk; requests := requests w |} in
        match keypair with
        | inl e => (EXECUTE_FAILED (KeypairThrew e), w)
        | inr keypair =>
            if isPublicKey (arg_vault parsed) then
              let multisigPda := mkPublicKey (arg_vault parsed) in
              let '(proposal, requests) :=
                getProposalStatus getTransactionPda getProposalPda ledger
                  multisigPda index (requests w) in
              let w := {| disk := disk; requests := requests |} in
              match proposal with
              | None => (PROPOSAL_NOT_FOUND index, w)
              | Some proposal =>
                  match status proposal with
                  | Approved => (executeVaultTransaction keypair multisigPda index, w)
                  | other =>
                      (PROPOSAL_NOT_APPROVED other (length (approvals proposal)), w)
                  end
              end
            else (EXECUTE_FAILED InvalidPublicKeyInput, w)
        end
  end.

End WithPlatform.

End ExecuteProposal.

(** ** components/multisig/MyVaults.tsx *)

Module MyVaults.

Inductive ImportError :=
| EnterAddress
| InvalidFormat
| NotFound
| NotAMember
| InvalidAddressFormat.

Inductive ImportOutcome :=
| setImportError (e : ImportError)
| Imported (multisigPda : jsstring).

Record World := {
  requests : list Request;
  registry : MultisigStorage.World;
}.

Section WithCluster.

Variable isPublicKey : jsstring -> bool.
Variable getTransactionPda : PublicKey -> Z -> PublicKey.
Variable getProposalPda : PublicKey -> Z -> PublicKey.
Variable ledger : Ledger.

(** [getVaultBalance], whose result is only passed on ([None]: it throws). *)
Variable Balance : Type.
Variable getVaultBalance : PublicKey -> option Balance.

(** [keypair.publicKey.toBase58()] *)
Variable userPubKey : jsstring.

Record VaultListItem := {
  item_multisigPda : jsstring;
  account : option MultisigVault;
  balance : option Balance;
  pendingProposals : nat;
  error : bool;
}.

Definition failedItem (multisigPda : jsstring) : VaultListItem :=
  {| item_multisigPda := multisigPda; account := None; balance := None;
     pendingProposals := 0; error := true |}.

(** [fetchVaultDetails].  The three reads of [Promise.all] are independent
    requests, each run on a log of its own: [ledger] is what the cluster
    answers to [getMultisigAccount] (a request that fails counting as an
    account that is not there, since its [catch] returns [null]) and
    [proposalsLedger] what it answers to the reads of [getProposals]. *)
Definition fetchVaultDetails (proposalsLedger : Ledger) (multisigPda : jsstring)
  : VaultListItem :=
  if isPublicKey multisigPda then
    let pdaPublicKey := mkPublicKey multisigPda in
    let account := fst (run (getMultisigAccount ledger pdaPublicKey)) in
    match getVaultBalance pdaPublicKey with
    | None => failedItem multisigPda
    | Some balance =>
        let proposals :=
          fst (run (getProposals getTransactionPda getProposalPda proposalsLedger
                      pdaPublicKey)) in
        {| item_multisigPda := multisigPda;
           account := account;
           balance := Some balance;
           pendingProposals :=
             length (List.filter
                       (fun p => match status p with
                                 | Active | Approved => true
                                 | _ => false
                                 end) proposals);
           error := false |}
    end
  else failedItem multisigPda.

(** [handleImport]; the vault is stored through the sync API. *)
Definition handleImport (importAddress : jsstring) (w : World) : ImportOutcome * World :=
  match trim importAddress with
  | [] => (setImportError EnterAddress, w)
  | _ =>
      match ImportVault.extractVaultAddress importAddress with
      | None => (setImportError InvalidFormat, w)
      | Some extractedAddress =>
          if isPublicKey extractedAddress then
            let pdaPublicKey := mkPublicKey extractedAddress in
            let '(account, requests) :=
              getMultisigAccount ledger pdaPublicKey (requests w) in
            let w := {| requests := requests; registry := registry w |} in
            match account with
            | None => (setImportError NotFound, w)
            | Some account =>
                let isMember :=
                  some (fun m => streq (publicKey m) userPubKey) (members account) in
                if isMember then
                  (Imported extractedAddress,
                   {| requests := requests;
                      registry :=
                        MultisigStorage.saveMultisigAddress userPubKey extractedAddress
                          (createKey account) (registry w) |})
                else (setImportError NotAMember, w)
            end
          else (setImportError InvalidAddressFormat, w)
      end
  end.

(** [handleRemove] once the user has confirmed: the registry entry goes
    and the item leaves the displayed list. *)
Definition handleRemove (multisigPda : jsstring)
  (state : list VaultListItem * MultisigStorage.World)
  : list VaultListItem * MultisigStorage.World :=
  (List.filter (fun v => negb (streq (item_multisigPda v) multisigPda)) state.1,
   MultisigStorage.removeStoredMultisig userPubKey multisigPda state.2).

End WithCluster.

End MyVaults.

(** ** skills/rpc.ts: which endpoint is used *)

Module RpcConfig.

Definition DEFAULT_RPC_URL : jsstring := js "https://api.mainnet-beta.solana.com".

(** The module variable [rpcUrlOverride], [process.argv] and
    [process.env.SOLANA_RPC_URL] once [.env] has been loaded. *)
Record Config := {
  rpcUrlOverride : option jsstring;
  argv : list jsstring;
  SOLANA_RPC_URL : option jsstring;
}.

Definition setRpcUrl (url : jsstring) (c : Config) : Config :=
  {| rpcUrlOverride := Some url; argv := argv c; SOLANA_RPC_URL := SOLANA_RPC_URL c |}.

Fixpoint getCliRpcUrl (args : list jsstring) : option jsstring :=
  match args with
  | [] => None
  | a :: rest =>
      match rest with
      | v :: _ =>
          if streq a (js "--rpc-url") && WalletCli.truthy v then Some v
          else getCliRpcUrl rest
      | [] => None
      end
  end.

(** [x || y] on an optional string: [undefined] and the empty string are
    falsy. *)
Definition orElse (x : option jsstring) (y : jsstring) : jsstring :=
  match x with
  | Some (c :: s) => c :: s
  | _ => y
  end.

Definition getRpcUrl (c : Config) : jsstring :=
  match rpcUrlOverride c with
  | Some (ch :: url) => ch :: url
  | _ =>
      match getCliRpcUrl (argv c) with
      | Some (ch :: cliUrl) => ch :: cliUrl
      | _ => orElse (SOLANA_RPC_URL c) DEFAULT_RPC_URL
      end
  end.

End RpcConfig.

(** ** utils/wallet.ts and components/BuiltinWalletApp.tsx: the browser keystore *)

Module WebWallet.

Record WalletData := { publicKey : jsstring; secretKey : list Z }.

(** [Array.from(keypair.secretKey)]: the bytes as numbers. *)
Definition keypairToWalletData (keypair : Wallet.Keypair) : WalletData :=
  {| publicKey := toBase58 (Wallet.kp_publicKey keypair);
     secretKey := map byteValue (Wallet.secretKey keypair) |}.

(** The [solana_wallet_encrypted] item of [localStorage] ([None]: there is
    none). *)
Abbreviation Item := (option jsstring).

Definition walletExists (item : Item) : bool :=
  match item with
  | Some _ => true
  | None => false
  end.

Definition deleteWallet (item : Item) : Item := None.

Section WithPlatform.

(** The cipher of [utils/crypto.ts] with the salt and nonce of this run,
    [JSON.stringify] and [JSON.parse] ([None]: it throws),
    [new Uint8Array(data.secretKey)] on the parsed value and
    [Keypair.fromSecretKey] ([None]: they throw). *)
Variable encrypt : jsstring -> jsstring -> jsstring.
Variable decrypt : jsstring -> jsstring -> option jsstring.
Variable JSON_stringify : WalletData -> jsstring.
Variable JsValue : Type.
Variable JSON_parse : jsstring -> option JsValue.
Variable secretKeyBytes : JsValue -> option (list byte).
Variable Keypair_fromSecretKey : list byte -> option Wallet.Keypair.

Definition walletDataToKeypair (data : JsValue) : option Wallet.Keypair :=
  match secretKeyBytes data with
  | Some bytes => Keypair_fromSecretKey bytes
  | None => None
  end.

Definition saveWallet (keypair : Wallet.Keypair) (password : jsstring) (item : Item)
  : Item :=
  let walletData := keypairToWalletData keypair in
  let encrypted := encrypt (JSON_stringify walletData) password in
  Some encrypted.

Definition corrupted : jsstring := js "Invalid password or corrupted wallet data".

Definition loadWallet (password : jsstring) (item : Item) : CreateVault.LoadResult :=
  match item with
  | None | Some [] => CreateVault.NoWallet
  | Some encrypted =>
      match decrypt encrypted password with
      | None => CreateVault.LoadThrew corrupted
      | Some decrypted =>
          match JSON_parse decrypted with
          | None => CreateVault.LoadThrew corrupted
          | Some walletData =>
              match walletDataToKeypair walletData with
              | Some keypair => CreateVault.Loaded keypair
              | None => CreateVault.LoadThrew corrupted
              end
          end
      end
  end.

(** [handleCreateWallet] of the app; [newKeypair] is what
    [generateKeypair()] returns. *)
Inductive CreateError := PasswordTooShort | PasswordsDoNotMatch.

Definition handleCreateWallet (password confirmPassword : jsstring)
  (newKeypair : Wallet.Keypair) (item : Item)
  : (CreateError + Wallet.Keypair) * Item :=
  if (length password <? 8)%nat then (inl PasswordTooShort, item)
  else if negb (streq password confirmPassword) then (inl PasswordsDoNotMatch, item)
  else (inr newKeypair, saveWallet newKeypair password item).

End WithPlatform.

End WebWallet.

(** * Properties *)

(** ** Proposal classification and the recent-proposal window *)

Module MultisigFacts.

Lemma streq_true (a b : jsstring) : streq a b = true <-> a = b.
Proof. unfold streq. apply bool_decide_eq_true. Qed.

Lemma streq_false (a b : jsstring) : streq a b = false <-> a <> b.
Proof. unfold streq. apply bool_decide_eq_false. Qed.

(** The name under which the chain reports each status the client
    recognises. *)
Definition kindOf (s : Status) : jsstring :=
  match s with
  | Draft => js "Draft"
  | Active => js "Active"
  | Approved => js "Approved"
  | Rejected => js "Rejected"
  | Executed => js "Executed"
  | Cancelled => js "Cancelled"
  end.

Definition recognised : list jsstring :=
  [js "Active"; js "Approved"; js "Rejected"; js "Executed"; js "Cancelled"].

Lemma determineStatus_recognised (s : Status) :
  determineStatus (kindOf s) = s.
Proof. destruct s; vm_compute; reflexivity. Qed.

Lemma determineStatus_Draft (kind : jsstring) :
  determineStatus kind = Draft <-> ~ In kind recognised.
Proof.
  unfold determineStatus, recognised. simpl.
  repeat match goal with
         | |- context [streq ?a ?b] =>
             let E := fresh "E" in
             destruct (streq a b) eqn:E;
             [apply streq_true in E | apply streq_false in E]
         end;
    split; intros H; try discriminate; try reflexivity.
  1-5: exfalso; apply H; subst kind; tauto.
  intros [K | [K | [K | [K | [K | []]]]]]; congruence.
Qed.

(** A cluster on which every proposal account reports the SDK's
    [Executing] status. *)
Definition executingLedger : Ledger :=
  {| multisigAt := fun _ => None;
     proposalAt := fun _ =>
       Some {| status__kind := js "Executing"; approved := []; rejected := [] |} |}.

Definition samplePda : PublicKey := mkPublicKey (js "Vault1").

Definition samplePdaOf (tag : string) (multisigPda : PublicKey) (i : Z) : PublicKey :=
  mkPublicKey (toBase58 multisigPda ++ js tag ++ [i]).

(** C3, as stated, does not hold: a proposal whose raw status tag is
    none of the six names ([Executing]) is not refused; it is returned,
    classified as [Draft]. *)
Lemma unknown_tag_is_not_refused :
  ~ (forall (ledger : Ledger) (multisigPda : PublicKey) (i : Z) (account : ProposalAccount),
        proposalAt ledger
          (toBase58 (samplePdaOf "/proposal/" multisigPda i)) = Some account ->
        ~ In (status__kind account) (js "Draft" :: recognised) ->
        fst (run (getProposalStatus (samplePdaOf "/transaction/")
                    (samplePdaOf "/proposal/") ledger multisigPda i)) = None).
Proof.
  intros H.
  specialize (H executingLedger samplePda 1 _ eq_refl).
  assert (K : ~ In (js "Executing") (js "Draft" :: recognised)).
  { vm_compute. intros [K | [K | [K | [K | [K | [K | []]]]]]]; discriminate K. }
  specialize (H K). vm_compute in H. discriminate H.
Qed.

(** C3, amended: the classifier is total on raw tags.  The five tags
    [Active], [Approved], [Rejected], [Executed], [Cancelled] map to the
    status of the same name, and every other tag, [Draft] included, maps
    to [Draft]; no tag makes [getProposalStatus] fail. *)
Theorem status_classification
  (getTransactionPda getProposalPda : PublicKey -> Z -> PublicKey)
  (ledger : Ledger) (multisigPda : PublicKey) (i : Z) :
  (forall s : Status, determineStatus (kindOf s) = s)
  /\ (forall kind : jsstring,
         determineStatus kind = Draft <-> ~ In kind recognised)
  /\ fst (run (getProposalStatus getTransactionPda getProposalPda ledger multisigPda i))
     = match proposalAt ledger (toBase58 (getProposalPda multisigPda i)) with
       | Some account =>
           Some {| index := i;
                   multisigPda := toBase58 multisigPda;
                   transactionPda := toBase58 (getTransactionPda multisigPda i);
                   proposalPda := toBase58 (getProposalPda multisigPda i);
                   status := determineStatus (status__kind account);
                   approvals := map toBase58 (approved account);
                   rejections := map toBase58 (rejected account) |}
       | None => None
       end.
Proof.
  split; [exact determineStatus_recognised |].
  split; [exact determineStatus_Draft |].
  unfold run, getProposalStatus, bind, ret, Proposal_fromAccountAddress. simpl.
  destruct (proposalAt ledger _); reflexivity.
Qed.

Section RecentWindow.

Variable getTransactionPda getProposalPda : PublicKey -> Z -> PublicKey.
Variable ledger : Ledger.
Variable multisigPda : PublicKey.

(** What one call of [getProposalStatus] returns and what it asks for. *)
Definition proposalInfoAt (j : Z) : option ProposalInfo :=
  fst (run (getProposalStatus getTransactionPda getProposalPda ledger multisigPda j)).

Definition proposalRequest (j : Z) : Request :=
  ReadProposal (toBase58 (getProposalPda multisigPda j)).

Lemma getProposalStatus_run (j : Z) (log : list Request) :
  getProposalStatus getTransactionPda getProposalPda ledger multisigPda j log
  = (proposalInfoAt j, log ++ [proposalRequest j]).
Proof.
  unfold proposalInfoAt, proposalRequest, run, getProposalStatus, bind, ret,
    Proposal_fromAccountAddress.
  simpl. reflexivity.
Qed.

Lemma proposalInfoAt_index (j : Z) (p : ProposalInfo) :
  proposalInfoAt j = Some p -> index p = j.
Proof.
  unfold proposalInfoAt, run, getProposalStatus, bind, ret,
    Proposal_fromAccountAddress. simpl.
  destruct (proposalAt ledger _); intros H; inversion H; reflexivity.
Qed.

Lemma proposalInfoAt_is_Some (j : Z) :
  is_Some (proposalInfoAt j)
  <-> is_Some (proposalAt ledger (toBase58 (getProposalPda multisigPda j))).
Proof.
  unfold proposalInfoAt, run, getProposalStatus, bind, ret,
    Proposal_fromAccountAddress. simpl.
  destruct (proposalAt ledger _); split; intros [x Hx]; eauto; discriminate.
Qed.

(** The loop visits [i], [i+1], ... one request each, and keeps the
    proposals found, in that order. *)
Lemma getProposals_loop_run (trips : nat) :
  forall (i : Z) (proposals : list ProposalInfo) (log : list Request),
    getProposals_loop getTransactionPda getProposalPda ledger
      trips i proposals multisigPda log
    = (proposals ++ omap proposalInfoAt (seqZ i (Z.of_nat trips)),
       log ++ map proposalRequest (seqZ i (Z.of_nat trips))).
Proof.
  induction trips as [| trips IH]; intros i proposals log.
  - simpl. unfold ret. rewrite !app_nil_r. reflexivity.
  - rewrite seqZ_cons by lia.
    replace (Z.pred (Z.of_nat (S trips))) with (Z.of_nat trips) by lia.
    cbn [getProposals_loop]. unfold bind at 1.
    rewrite getProposalStatus_run. rewrite IH.
    replace (Z.succ i) with (i + 1) by lia.
    cbn [omap list_omap map]. f_equal.
    + fold (omap proposalInfoAt (seqZ (i + 1) (Z.of_nat trips))).
      destruct (proposalInfoAt i); simpl; rewrite <- ?app_assoc; reflexivity.
    + rewrite <- app_assoc. reflexivity.
Qed.

Lemma omap_index (l : list Z) :
  map index (omap proposalInfoAt l)
  = List.filter (fun j => bool_decide (is_Some (proposalInfoAt j))) l.
Proof.
  induction l as [| j l IH]; [reflexivity |].
  cbn [omap list_omap List.filter].
  fold (omap proposalInfoAt l).
  destruct (proposalInfoAt j) as [p |] eqn:E.
  - rewrite bool_decide_eq_true_2 by eauto.
    cbn [map]. rewrite IH. f_equal. apply proposalInfoAt_index. exact E.
  - rewrite bool_decide_eq_false_2 by (intros [x Hx]; discriminate).
    exact IH.
Qed.

End RecentWindow.

Lemma StronglySorted_filter {A} (R : A -> A -> Prop) (f : A -> bool) (l : list A) :
  StronglySorted R l -> StronglySorted R (List.filter f l).
Proof.
  induction 1 as [| x l Hl IH Hx]; simpl; [constructor |].
  destruct (f x); [| exact IH].
  constructor; [exact IH |].
  rewrite List.Forall_forall in *. intros y Hy.
  apply List.filter_In in Hy. apply Hx. tauto.
Qed.

Lemma StronglySorted_rev {A} (R : A -> A -> Prop) (l : list A) :
  StronglySorted R l -> StronglySorted (fun x y => R y x) (rev l).
Proof.
  induction 1 as [| x l Hl IH Hx]; simpl; [constructor |].
  apply StronglySorted_app_2; [| exact IH | repeat constructor].
  intros a b Ha Hb. apply list_elem_of_In in Hb. destruct Hb as [<- | []].
  rewrite List.Forall_forall in Hx. apply Hx.
  apply list_elem_of_In in Ha. apply in_rev. exact Ha.
Qed.

Lemma StronglySorted_seqZ (m n : Z) : StronglySorted Z.lt (seqZ m n).
Proof.
  destruct (Z_le_gt_dec n 0) as [Hn | Hn].
  { rewrite seqZ_nil by lia. constructor. }
  rewrite <- (Z2Nat.id n) by lia. generalize (Z.to_nat n) as k. clear.
  intros k. revert m. induction k as [| k IH]; intros m.
  - rewrite seqZ_nil by lia. constructor.
  - rewrite seqZ_cons by lia.
    replace (Z.pred (Z.of_nat (S k))) with (Z.of_nat k) by lia.
    constructor; [apply IH |].
    rewrite List.Forall_forall. intros y Hy.
    apply list_elem_of_In, elem_of_seqZ in Hy. lia.
Qed.

(** C8: for a vault whose transaction index is [n], [getProposals] reads
    the vault once and then exactly the proposals numbered
    [max(1, n - 19)] to [n], at most twenty of them, never an older one;
    it returns those that exist, most recent first. *)
Theorem getProposals_recent_window
  (getTransactionPda getProposalPda : PublicKey -> Z -> PublicKey)
  (ledger : Ledger) (multisigPda : PublicKey) (account : MultisigAccount)
  (Haccount : multisigAt ledger (toBase58 multisigPda) = Some account)
  (Hsafe : 0 <= acc_transactionIndex account <= MAX_SAFE_INTEGER) :
  let n := acc_transactionIndex account in
  let startIndex := Z.max 1 (n - 19) in
  let window := seqZ startIndex (n - startIndex + 1) in
  let result := run (getProposals getTransactionPda getProposalPda ledger multisigPda) in
  snd result
  = ReadMultisig (toBase58 multisigPda)
      :: map (fun j => ReadProposal (toBase58 (getProposalPda multisigPda j))) window
  /\ (length window <= 20)%nat
  /\ Forall (fun j => Z.max 1 (n - 19) <= j <= n) window
  /\ map index (fst result)
     = rev (List.filter
              (fun j => bool_decide
                          (is_Some (proposalAt ledger
                                      (toBase58 (getProposalPda multisigPda j)))))
              window)
  /\ StronglySorted (fun newer older => older < newer) (map index (fst result)).
Proof.
  intros n startIndex window result.
  assert (Hrun :
    result
    = (rev (omap (proposalInfoAt getTransactionPda getProposalPda ledger multisigPda) window),
       ReadMultisig (toBase58 multisigPda)
         :: map (proposalRequest getProposalPda multisigPda) window)).
  { unfold result, run, getProposals, bind at 1, getMultisigAccount, bind at 1,
      Multisig_fromAccountAddress, ret at 1.
    rewrite Haccount. cbn [transactionIndex Number app].
    unfold Number. unfold bind.
    rewrite getProposals_loop_run. unfold ret. cbn [app].
    fold n. fold startIndex.
    rewrite Z2Nat.id by (unfold startIndex; lia).
    reflexivity. }
  rewrite Hrun. cbn [fst snd].
  assert (Hfilter :
    map index (rev (omap (proposalInfoAt getTransactionPda getProposalPda ledger multisigPda) window))
    = rev (List.filter
             (fun j => bool_decide
                         (is_Some (proposalAt ledger
                                     (toBase58 (getProposalPda multisigPda j)))))
             window)).
  { rewrite map_rev, omap_index. f_equal.
    apply List.filter_ext. intros j.
    apply bool_decide_ext, proposalInfoAt_is_Some. }
  split; [reflexivity |].
  split; [unfold window; rewrite length_seqZ; unfold startIndex; lia |].
  split.
  { apply Forall_forall. intros j Hj.
    unfold window in Hj. apply elem_of_seqZ in Hj. unfold startIndex in Hj. lia. }
  split; [exact Hfilter |].
  rewrite Hfilter.
  apply (StronglySorted_rev Z.lt), StronglySorted_filter, StronglySorted_seqZ.
Qed.

(** A vault at transaction index 25 of which proposals 10, 11 and 13 to
    25 can be fetched. *)
Definition sampleAccount : MultisigAccount :=
  {| acc_createKey := mkPublicKey (js "CreateKey1");
     acc_threshold := 2;
     acc_members := [];
     acc_transactionIndex := 25;
     acc_staleTransactionIndex := 0 |}.

Definition sampleLedger : Ledger :=
  {| multisigAt := fun a => if streq a (js "Vault1") then Some sampleAccount else None;
     proposalAt := fun a =>
       match last a with
       | Some i =>
           if (10 <=? i) && negb (i =? 12)
           then Some {| status__kind := js "Active"; approved := []; rejected := [] |}
           else None
       | None => None
       end |}.

Lemma getProposals_recent_window_witness :
  let result :=
    run (getProposals (samplePdaOf "/transaction/") (samplePdaOf "/proposal/")
           sampleLedger samplePda) in
  snd result
  = ReadMultisig (js "Vault1")
      :: map (fun j => ReadProposal (toBase58 (samplePdaOf "/proposal/" samplePda j)))
           (seqZ 6 20)
  /\ (length (seqZ 6 20) <= 20)%nat
  /\ Forall (fun j => 6 <= j <= 25) (seqZ 6 20)
  /\ map index (fst result)
     = rev (List.filter
              (fun j => bool_decide
                          (is_Some (proposalAt sampleLedger
                                      (toBase58 (samplePdaOf "/proposal/" samplePda j)))))
              (seqZ 6 20))
  /\ StronglySorted (fun newer older => older < newer) (map index (fst result)).
Proof.
  apply (getProposals_recent_window
           (samplePdaOf "/transaction/") (samplePdaOf "/proposal/")
           sampleLedger samplePda sampleAccount).
  - reflexivity.
  - unfold MAX_SAFE_INTEGER. simpl. lia.
Defined.

Example getProposals_sample :
  map index
    (fst (run (getProposals (samplePdaOf "/transaction/") (samplePdaOf "/proposal/")
                 sampleLedger samplePda)))
  = [25; 24; 23; 22; 21; 20; 19; 18; 17; 16; 15; 14; 13; 11; 10].
Proof. vm_compute. reflexivity. Qed.

End MultisigFacts.

(** ** Who may vote *)

Module VoteFacts.

Import MultisigFacts.

Lemma includes_In (arr : list jsstring) (x : jsstring) :
  includes arr x = true <-> In x arr.
Proof.
  unfold includes. rewrite existsb_exists. split.
  - intros [y [Hy E]]. apply streq_true in E. subst y. exact Hy.
  - intros H. exists x. split; [exact H | apply streq_true; reflexivity].
Qed.

Lemma includes_not_In (arr : list jsstring) (x : jsstring) :
  includes arr x = false <-> ~ In x arr.
Proof.
  rewrite <- includes_In. destruct (includes arr x); split; congruence.
Qed.

(** An active proposal that the member [Member1] has rejected. *)
Definition rejectedByMember1 : ProposalInfo :=
  {| index := 1;
     multisigPda := js "Vault1";
     transactionPda := js "Tx1";
     proposalPda := js "Proposal1";
     status := Active;
     approvals := [];
     rejections := [js "Member1"] |}.

(** In the vault view the vote buttons are offered exactly when the
    proposal is Active, the signed-in member holds the vote permission and
    their address is in neither [approvals] nor [rejections]. *)
Lemma canVote_spec
  (member : jsstring) (vault : option MultisigVault) (proposal : ProposalInfo) :
  VaultDetail.canVote member vault proposal = true
  <-> status proposal = Active
      /\ (exists perms, VaultDetail.userPermissions member vault = Some perms
                        /\ vote perms = true)
      /\ ~ In member (approvals proposal)
      /\ ~ In member (rejections proposal).
Proof.
  unfold VaultDetail.canVote, VaultDetail.hasVoted.
  destruct (status proposal);
    try (split; [discriminate | intros [K _]; discriminate K]).
  rewrite andb_true_iff, negb_true_iff, orb_false_iff, !includes_not_In.
  destruct (VaultDetail.userPermissions member vault) as [perms |].
  - split.
    + intros [[Ha Hr] Hv]. repeat split; eauto.
    + intros [_ [[perms' [E Hv]] [Ha Hr]]]. inversion E. subst perms'. tauto.
  - split.
    + intros [_ K]. discriminate K.
    + intros [_ [[perms' [E _]] _]]. discriminate E.
Qed.

(** C4: the vault view lets a member vote at most once, the approve script
    does not.  For every proposal and member [canVote] is true exactly when the
    proposal is Active, the member holds the vote permission and their
    address is in neither [approvals] nor [rejections].  But on the Active
    proposal [rejectedByMember1], which [Member1] has rejected and nobody
    has approved, where [hasVoted] is true and [canVote] false whatever the
    vault, the checks of the approve script (announced there as the check
    for having already voted) pass and the approval is submitted. *)
Theorem approve_script_submits_after_rejection :
  (forall member vault proposal,
      VaultDetail.canVote member vault proposal = true
      <-> status proposal = Active
          /\ (exists perms, VaultDetail.userPermissions member vault = Some perms
                            /\ vote perms = true)
          /\ ~ In member (approvals proposal)
          /\ ~ In member (rejections proposal))
  /\ status rejectedByMember1 = Active
  /\ In (js "Member1") (rejections rejectedByMember1)
  /\ VaultDetail.hasVoted (js "Member1") rejectedByMember1 = true
  /\ (forall vault, VaultDetail.canVote (js "Member1") vault rejectedByMember1 = false)
  /\ ApproveProposal.preChecks rejectedByMember1 (js "Member1") = ApproveProposal.Submit.
Proof.
  split; [exact canVote_spec |].
  split; [reflexivity |].
  split; [left; reflexivity |].
  split; [vm_compute; reflexivity |].
  split; [| vm_compute; reflexivity].
  intros vault. unfold VaultDetail.canVote.
  change (VaultDetail.hasVoted (js "Member1") rejectedByMember1) with true.
  reflexivity.
Qed.

End VoteFacts.

(** ** Threshold validation and member parsing at vault creation *)

Module CreateVaultFacts.

Import MultisigFacts VoteFacts.

Definition allPermissions : Permissions :=
  {| initiate := true; vote := true; execute := true |}.

Definition proposeOnly : Permissions :=
  {| initiate := true; vote := false; execute := false |}.

(** Three members, two of them voters. *)
Definition threeMembersTwoVoters : list ExternalCreateVault.MemberInput :=
  [ {| ExternalCreateVault.address := js "MemberA";
       ExternalCreateVault.permissions := allPermissions |};
    {| ExternalCreateVault.address := js "MemberB";
       ExternalCreateVault.permissions := allPermissions |};
    {| ExternalCreateVault.address := js "MemberC";
       ExternalCreateVault.permissions := proposeOnly |} ].

Lemma thresholdRejected_false (threshold : Z)
  (members : list ExternalCreateVault.MemberInput) :
  ExternalCreateVault.thresholdRejected threshold members = false
  <-> 1 <= threshold <= ExternalCreateVault.voterCount members.
Proof.
  unfold ExternalCreateVault.thresholdRejected.
  rewrite orb_false_iff, !Z.ltb_ge. lia.
Qed.


Lemma Permissions_has_all_Vote :
  Permissions_has CreateMultisig.getAllPermissions Permission_Vote = true.
Proof. reflexivity. Qed.

Lemma ceilHalf_half (n : Z) : CreateMultisig.ceilHalf n = (n + 1) / 2.
Proof.
  unfold CreateMultisig.ceilHalf.
  pose proof (Z.div_mod (- n) 2 ltac:(lia)).
  pose proof (Z.mod_pos_bound (- n) 2 ltac:(lia)).
  pose proof (Z.div_mod (n + 1) 2 ltac:(lia)).
  pose proof (Z.mod_pos_bound (n + 1) 2 ltac:(lia)). lia.
Qed.

Lemma addMembers_nonempty (isPublicKey : jsstring -> bool)
  (addrs memberAddresses addresses : list jsstring) :
  memberAddresses <> [] ->
  CreateMultisig.addMembers isPublicKey addrs memberAddresses = inr addresses ->
  addresses <> [].
Proof.
  revert memberAddresses. induction addrs as [| addr rest IH]; intros acc Hacc.
  - cbn. intros H. injection H as <-. exact Hacc.
  - cbn [CreateMultisig.addMembers]. destruct (trim addr) as [| c trimmed].
    + apply IH. exact Hacc.
    + destruct (isPublicKey (c :: trimmed)); [| discriminate].
      apply IH. unfold Set_add. destruct (includes acc (c :: trimmed)); [exact Hacc |].
      destruct acc; [contradiction | discriminate].
Qed.

Lemma parseMembers_nonempty (isPublicKey : jsstring -> bool)
  (creator membersArg : jsstring) (addresses : list jsstring) :
  CreateMultisig.parseMembers isPublicKey creator membersArg = inr addresses ->
  (1 <= length addresses)%nat.
Proof.
  unfold CreateMultisig.parseMembers. intros H.
  assert (Hne : addresses <> []).
  { destruct membersArg.
    - injection H as <-. discriminate.
    - eapply addMembers_nonempty; [| exact H]. discriminate. }
  destruct addresses; [contradiction | cbn; lia].
Qed.

(** C5, as stated, does not hold of the create script: run for the wallet
    [So111..] alone with the threshold 0, its checks pass, and the vault is
    set up with the majority threshold 1. *)
Lemma create_script_accepts_threshold_zero :
  ~ (forall (creator membersArg : jsstring) (t : Z)
            (members : list (PublicKey * Z)) (finalThreshold : Z),
        CreateMultisig.main Web3.isPublicKey creator membersArg (Int t)
        = CreateMultisig.Validated members finalThreshold ->
        1 <= t <= Z.of_nat (length members)).
Proof.
  intros H.
  specialize (H (js "So11111111111111111111111111111111111111112") [] 0
                [(mkPublicKey (js "So11111111111111111111111111111111111111112"), 7)] 1).
  assert (K : 1 <= 0 <= 1) by (apply H; vm_compute; reflexivity).
  lia.
Qed.

(** C5, amended: in the web form the threshold check passes exactly when
    [1 <= t <= number of members with the vote permission], and the vault
    is then submitted with that threshold; with three members of which two
    vote, 2 is accepted and 3 is refused with the threshold error.  In the
    create script, where every member is given all permissions, a threshold
    [t >= 1] passes exactly when [t <= number of members], is then the
    vault's threshold, and is refused with [INVALID_THRESHOLD] otherwise;
    the threshold 0, which is also the script's value when none is given,
    always passes and stands for the majority [(n + 1) / 2] of the [n]
    members. *)
Theorem threshold_validation
  (isPublicKey : jsstring -> bool) (walletPublicKey : PublicKey)
  (members : list ExternalCreateVault.MemberInput) (t : Z)
  (creator membersArg : jsstring) :
  (ExternalCreateVault.thresholdRejected t members = false
   <-> 1 <= t <= Z.of_nat (length (List.filter (fun m => vote (ExternalCreateVault.permissions m)) members)))
  /\ ExternalCreateVault.handleCreate isPublicKey (Some walletPublicKey) members t
     = match ExternalCreateVault.validateMembers isPublicKey members [] with
       | inl e => ExternalCreateVault.setError e
       | inr validMembers =>
           if decide (1 <= t <= ExternalCreateVault.voterCount members)
           then ExternalCreateVault.createMultisigVaultWA validMembers t
           else ExternalCreateVault.setError
                  (ExternalCreateVault.ThresholdOutOfRange
                     (ExternalCreateVault.voterCount members))
       end
  /\ (1 <= t ->
      CreateMultisig.main isPublicKey creator membersArg (Int t)
      = match CreateMultisig.parseMembers isPublicKey creator membersArg with
        | inl invalid => CreateMultisig.INVALID_MEMBER_ADDRESS invalid
        | inr addresses =>
            let n := Z.of_nat (length addresses) in
            if decide (t <= n)
            then CreateMultisig.Validated (map (fun a => (mkPublicKey a, 7)) addresses) t
            else CreateMultisig.INVALID_THRESHOLD t n
        end)
  /\ CreateMultisig.main isPublicKey creator membersArg (Int 0)
     = match CreateMultisig.parseMembers isPublicKey creator membersArg with
       | inl invalid => CreateMultisig.INVALID_MEMBER_ADDRESS invalid
       | inr addresses =>
           CreateMultisig.Validated (map (fun a => (mkPublicKey a, 7)) addresses)
             ((Z.of_nat (length addresses) + 1) / 2)
       end
  /\ (forall addresses,
         CreateMultisig.parseMembers isPublicKey creator membersArg = inr addresses ->
         1 <= (Z.of_nat (length addresses) + 1) / 2 <= Z.of_nat (length addresses))
  /\ Permissions_has 7 Permission_Vote = true
  /\ ExternalCreateVault.thresholdRejected 2 threeMembersTwoVoters = false
  /\ ExternalCreateVault.thresholdRejected 3 threeMembersTwoVoters = true
  /\ ExternalCreateVault.handleCreate (fun _ => true) (Some walletPublicKey)
       threeMembersTwoVoters 2
     = ExternalCreateVault.createMultisigVaultWA
         [(mkPublicKey (js "MemberA"), 7); (mkPublicKey (js "MemberB"), 7);
          (mkPublicKey (js "MemberC"), 1)] 2
  /\ ExternalCreateVault.handleCreate (fun _ => true) (Some walletPublicKey)
       threeMembersTwoVoters 3
     = ExternalCreateVault.setError (ExternalCreateVault.ThresholdOutOfRange 2).
Proof.
  assert (Hcount :
    ExternalCreateVault.voterCount members
    = Z.of_nat (length (List.filter (fun m => vote (ExternalCreateVault.permissions m)) members))).
  { unfold ExternalCreateVault.voterCount. f_equal. f_equal.
    induction members as [| m ms IH]; [reflexivity |].
    cbn [List.filter]. rewrite filter_cons.
    destruct (vote (ExternalCreateVault.permissions m)) eqn:E.
    - rewrite decide_True by reflexivity. f_equal. exact IH.
    - rewrite decide_False by discriminate. exact IH. }
  assert (Hhalf : forall n : nat, (1 <= n)%nat ->
                    1 <= (Z.of_nat n + 1) / 2 <= Z.of_nat n).
  { intros n Hn.
    pose proof (Z.div_mod (Z.of_nat n + 1) 2 ltac:(lia)).
    pose proof (Z.mod_pos_bound (Z.of_nat n + 1) 2 ltac:(lia)). lia. }
  split; [rewrite <- Hcount; apply thresholdRejected_false |].
  split.
  { unfold ExternalCreateVault.handleCreate.
    destruct (ExternalCreateVault.validateMembers isPublicKey members []); [reflexivity |].
    destruct (ExternalCreateVault.thresholdRejected t members) eqn:E.
    - rewrite decide_False; [reflexivity |].
      rewrite <- thresholdRejected_false. congruence.
    - rewrite decide_True; [reflexivity |].
      apply thresholdRejected_false. exact E. }
  split.
  { intros Ht. unfold CreateMultisig.main.
    destruct (CreateMultisig.parseMembers isPublicKey creator membersArg) as [bad | addresses];
      [reflexivity |].
    rewrite length_map. cbv zeta. unfold CreateMultisig.finalThreshold.
    rewrite (proj2 (Z.ltb_lt 0 t)) by lia.
    destruct (Z.of_nat (length addresses) <? t) eqn:E1.
    - apply Z.ltb_lt in E1. rewrite decide_False by lia. reflexivity.
    - apply Z.ltb_ge in E1. rewrite (proj2 (Z.ltb_ge t 1)) by lia.
      rewrite decide_True by lia. reflexivity. }
  split.
  { unfold CreateMultisig.main.
    destruct (CreateMultisig.parseMembers isPublicKey creator membersArg)
      as [bad | addresses] eqn:E; [reflexivity |].
    rewrite length_map. cbv zeta. unfold CreateMultisig.finalThreshold.
    change (0 <? 0) with false. cbv iota. rewrite ceilHalf_half.
    pose proof (Hhalf _ (parseMembers_nonempty _ _ _ _ E)) as Hb.
    rewrite (proj2 (Z.ltb_ge _ _)) by lia.
    rewrite (proj2 (Z.ltb_ge _ 1)) by lia. reflexivity. }
  split.
  { intros addresses E. exact (Hhalf _ (parseMembers_nonempty _ _ _ _ E)). }
  repeat split; reflexivity.
Qed.

Section MemberParsing.

Variable isPublicKey : jsstring -> bool.

Lemma Set_add_NoDup (s : list jsstring) (x : jsstring) :
  List.NoDup s -> List.NoDup (Set_add s x).
Proof.
  intros H. unfold Set_add. destruct (includes s x) eqn:E; [exact H |].
  apply includes_not_In in E.
  apply NoDup_ListNoDup. apply NoDup_app. repeat split.
  - apply NoDup_ListNoDup. exact H.
  - intros y Hy Hx. apply list_elem_of_In in Hy, Hx.
    destruct Hx as [<- | []]. contradiction.
  - apply NoDup_singleton.
Qed.






End MemberParsing.


Definition wrappedSol : jsstring := js "So11111111111111111111111111111111111111112".
Definition tokenProgram : jsstring := js "TokenkegQfeZyiNwAJbNbGKPFXCWuBvf9Ss623VQ5DA".
Definition systemProgram : jsstring := js "11111111111111111111111111111111".

(** [--members " Tokenkeg..,So111..,, 1111.. ,Tokenkeg.."] run by the
    holder of [So111..], without [--threshold]. *)
Definition sampleMembersArg : jsstring :=
  js " " ++ tokenProgram ++ js "," ++ wrappedSol ++ js ",, " ++ systemProgram
     ++ js " ," ++ tokenProgram.


Example create_multisig_sample :
  CreateMultisig.main Web3.isPublicKey wrappedSol sampleMembersArg (Int 0)
  = CreateMultisig.Validated
      [(mkPublicKey wrappedSol, 7); (mkPublicKey tokenProgram, 7);
       (mkPublicKey systemProgram, 7)] 2.
Proof. vm_compute. reflexivity. Qed.

End CreateVaultFacts.

(** ** The vault registry *)

Module RegistryFacts.

Import MultisigFacts MultisigStorage.

Definition entry (v k : jsstring) : StoredMultisig :=
  {| multisigPda := v; createKey := k |}.

Definition refersTo (v : jsstring) (m : StoredMultisig) : bool :=
  streq (MultisigStorage.multisigPda m) v.

(** No vault is listed twice for one owner. *)
Definition listOk (stored : list StoredMultisig) : Prop :=
  List.NoDup (map MultisigStorage.multisigPda stored).

Definition dataOk (data : gmap jsstring (list StoredMultisig)) : Prop :=
  forall o stored, data !! o = Some stored -> listOk stored.

Definition worldOk (w : World) : Prop :=
  dataOk (loadData w) /\ dataOk (loadDataSync w)
  /\ (forall d, localStorage w = Some d -> dataOk d)
  /\ (forall d, file w = Some d -> dataOk d).

Lemma dataOk_empty : dataOk ∅.
Proof. intros o stored H. rewrite lookup_empty in H. discriminate. Qed.

Lemma some_refersTo_In (v : jsstring) (stored : list StoredMultisig) :
  some (refersTo v) stored = true
  <-> In v (map MultisigStorage.multisigPda stored).
Proof.
  unfold some. rewrite existsb_exists, in_map_iff. unfold refersTo.
  split; intros [m [H1 H2]]; exists m.
  - apply streq_true in H2. tauto.
  - split; [tauto | apply streq_true; tauto].
Qed.

Lemma entriesFor_app (v : jsstring) (l1 l2 : list StoredMultisig) :
  entriesFor v (l1 ++ l2) = (entriesFor v l1 + entriesFor v l2)%nat.
Proof. unfold entriesFor. rewrite List.filter_app, length_app. reflexivity. Qed.

Lemma entriesFor_absent (v : jsstring) (stored : list StoredMultisig) :
  some (refersTo v) stored = false -> entriesFor v stored = 0%nat.
Proof.
  unfold some, entriesFor. induction stored as [| m l IH]; [reflexivity |].
  cbn [existsb List.filter]. unfold refersTo at 1.
  destruct (streq (MultisigStorage.multisigPda m) v); [discriminate |].
  exact IH.
Qed.

Lemma entriesFor_present (v : jsstring) (stored : list StoredMultisig) :
  some (refersTo v) stored = true -> listOk stored -> entriesFor v stored = 1%nat.
Proof.
  unfold listOk, some, entriesFor. induction stored as [| m l IH]; [discriminate |].
  cbn [existsb List.filter map]. unfold refersTo at 1. intros Hs Hnd.
  apply List.NoDup_cons_iff in Hnd. destruct Hnd as [Hm Hl].
  destruct (streq (MultisigStorage.multisigPda m) v) eqn:E.
  - apply streq_true in E. cbn [length]. f_equal.
    apply (entriesFor_absent v l).
    destruct (some (refersTo v) l) eqn:F; [| reflexivity].
    apply some_refersTo_In in F. congruence.
  - apply IH; assumption.
Qed.

Section OneApi.

(** Either API, on a world where its saver and loader talk to the same
    store ([linked]) or where the saver does nothing. *)
Variable load : World -> gmap jsstring (list StoredMultisig).
Variable save : gmap jsstring (list StoredMultisig) -> World -> World.

Lemma saveWith_unfold (o v k : jsstring) (w : World) :
  saveWith load save o v k w
  = if some (refersTo v) (default [] (load w !! o)) then w
    else save (<[o := default [] (load w !! o) ++ [entry v k]]> (load w)) w.
Proof.
  unfold saveWith. destruct (load w !! o) as [stored |] eqn:E.
  - rewrite E. reflexivity.
  - rewrite lookup_insert_eq. cbn [default].
    rewrite insert_insert_eq. reflexivity.
Qed.

Hypothesis load_save : forall d w, load (save d w) = d.

Lemma getWith_saveWith (o v k : jsstring) (w : World) :
  getWith load o (saveWith load save o v k w)
  = if some (refersTo v) (getWith load o w) then getWith load o w
    else getWith load o w ++ [entry v k].
Proof.
  rewrite saveWith_unfold. unfold getWith.
  destruct (some (refersTo v) (default [] (load w !! o))); [reflexivity |].
  rewrite load_save, lookup_insert_eq. reflexivity.
Qed.

Lemma some_after_saveWith (o v k : jsstring) (w : World) :
  some (refersTo v) (getWith load o (saveWith load save o v k w)) = true.
Proof.
  rewrite getWith_saveWith.
  destruct (some (refersTo v) (getWith load o w)) eqn:E; [exact E |].
  unfold some. rewrite existsb_app. cbn. unfold refersTo at 2. cbn.
  unfold streq. rewrite bool_decide_eq_true_2 by reflexivity.
  apply orb_true_r.
Qed.

Lemma saveWith_idempotent (o v k : jsstring) (w : World) :
  saveWith load save o v k (saveWith load save o v k w)
  = saveWith load save o v k w.
Proof.
  rewrite (saveWith_unfold o v k (saveWith load save o v k w)).
  fold (getWith load o (saveWith load save o v k w)).
  rewrite some_after_saveWith. reflexivity.
Qed.

Lemma entries_after_saveWith (o v k : jsstring) (w : World) :
  dataOk (load w) ->
  entriesFor v (getWith load o (saveWith load save o v k w)) = 1%nat.
Proof.
  intros Hok. rewrite getWith_saveWith.
  destruct (some (refersTo v) (getWith load o w)) eqn:E.
  - apply entriesFor_present; [exact E |].
    unfold getWith. destruct (load w !! o) as [stored |] eqn:F.
    + exact (Hok _ _ F).
    + constructor.
  - rewrite entriesFor_app, (entriesFor_absent _ _ E).
    unfold entriesFor. cbn. unfold streq.
    rewrite bool_decide_eq_true_2 by reflexivity. reflexivity.
Qed.

End OneApi.

Lemma loadData_saveData (d : gmap jsstring (list StoredMultisig)) (w : World) :
  loadData (saveData d w) = d.
Proof. unfold loadData, saveData. destruct (isBrowser w) eqn:E; reflexivity. Qed.

Lemma dataOk_insert_push (data : gmap jsstring (list StoredMultisig))
  (o v k : jsstring) :
  dataOk data ->
  some (refersTo v) (default [] (data !! o)) = false ->
  dataOk (<[o := default [] (data !! o) ++ [entry v k]]> data).
Proof.
  intros Hok Habsent o' stored H.
  destruct (decide (o = o')) as [<- | Hne].
  - rewrite lookup_insert_eq in H. inversion H. subst stored.
    unfold listOk. rewrite map_app. cbn.
    apply NoDup_ListNoDup, NoDup_app. repeat split.
    + apply NoDup_ListNoDup.
      destruct (data !! o) as [l |] eqn:E; [exact (Hok _ _ E) | constructor].
    + intros x Hx Hv. apply list_elem_of_In in Hx, Hv.
      destruct Hv as [<- | []].
      apply some_refersTo_In in Hx. congruence.
    + apply NoDup_singleton.
  - rewrite lookup_insert_ne in H by exact Hne. exact (Hok _ _ H).
Qed.

Lemma dataOk_insert_filter (data : gmap jsstring (list StoredMultisig))
  (o : jsstring) (stored : list StoredMultisig) (f : StoredMultisig -> bool) :
  dataOk data -> data !! o = Some stored ->
  dataOk (<[o := List.filter f stored]> data).
Proof.
  intros Hok Hstored o' l H.
  destruct (decide (o = o')) as [<- | Hne].
  - rewrite lookup_insert_eq in H. inversion H. subst l.
    specialize (Hok _ _ Hstored). unfold listOk in *.
    clear -Hok. induction stored as [| m ms IH]; [constructor |].
    cbn in *. apply List.NoDup_cons_iff in Hok. destruct Hok as [Hm Hms].
    destruct (f m); [| apply IH; exact Hms].
    cbn. constructor; [| apply IH; exact Hms].
    intros K. apply Hm. apply in_map_iff in K. destruct K as [x [E Hx]].
    apply List.filter_In in Hx. apply in_map_iff. exists x. tauto.
  - rewrite lookup_insert_ne in H by exact Hne. exact (Hok _ _ H).
Qed.

Lemma worldOk_of_fields (w : World) :
  (forall d, localStorage w = Some d -> dataOk d) ->
  (forall d, file w = Some d -> dataOk d) ->
  worldOk w.
Proof.
  intros Hl Hf. unfold worldOk, loadData, loadDataSync.
  repeat split; try assumption.
  - destruct (isBrowser w).
    + destruct (localStorage w); [apply Hl; reflexivity | apply dataOk_empty].
    + destruct (file w); [apply Hf; reflexivity | apply dataOk_empty].
  - destruct (isBrowser w); [| apply dataOk_empty].
    destruct (localStorage w); [apply Hl; reflexivity | apply dataOk_empty].
Qed.

Lemma worldOk_saveData (d : gmap jsstring (list StoredMultisig)) (w : World) :
  worldOk w -> dataOk d -> worldOk (saveData d w).
Proof.
  intros (_ & _ & Hl & Hf) Hd. apply worldOk_of_fields; unfold saveData;
    destruct (isBrowser w); cbn; intros d' E; try (inversion E; subst; exact Hd); eauto.
Qed.

Lemma worldOk_saveDataSync (d : gmap jsstring (list StoredMultisig)) (w : World) :
  worldOk w -> dataOk d -> worldOk (saveDataSync d w).
Proof.
  intros Hw Hd. unfold saveDataSync. destruct (isBrowser w) eqn:E; [| exact Hw].
  destruct Hw as (_ & _ & Hl & Hf).
  apply worldOk_of_fields; cbn; intros d' E'; try (inversion E'; subst; exact Hd); eauto.
Qed.

Lemma worldOk_perform (w : World) (c : Call) : worldOk w -> worldOk (perform w c).
Proof.
  intros Hw. pose proof Hw as (Ha & Hs & _ & _).
  destruct c as [o v k | o v | o v k | o v]; cbn [perform].
  - unfold saveMultisigAddressAsync. rewrite saveWith_unfold.
    destruct (some _ _) eqn:E; [exact Hw |].
    apply worldOk_saveData; [exact Hw | apply dataOk_insert_push; assumption].
  - unfold removeStoredMultisigAsync, removeWith.
    destruct (loadData w !! o) as [stored |] eqn:E; [| exact Hw].
    apply worldOk_saveData; [exact Hw | eapply dataOk_insert_filter; eassumption].
  - unfold saveMultisigAddress. rewrite saveWith_unfold.
    destruct (some _ _) eqn:E; [exact Hw |].
    apply worldOk_saveDataSync; [exact Hw | apply dataOk_insert_push; assumption].
  - unfold removeStoredMultisig, removeWith.
    destruct (loadDataSync w !! o) as [stored |] eqn:E; [| exact Hw].
    apply worldOk_saveDataSync; [exact Hw | eapply dataOk_insert_filter; eassumption].
Qed.

Lemma isBrowser_perform (w : World) (c : Call) : isBrowser (perform w c) = isBrowser w.
Proof.
  destruct c as [o v k | o v | o v k | o v]; cbn [perform];
    unfold saveMultisigAddressAsync, removeStoredMultisigAsync,
      saveMultisigAddress, removeStoredMultisig, saveWith, removeWith,
      saveData, saveDataSync;
    repeat match goal with
           | |- context [match ?x with _ => _ end] => destruct x eqn:?
           | |- context [if ?x then _ else _] => destruct x eqn:?
           end; cbn; congruence.
Qed.

Lemma replay_ok (browser : bool) (history : list Call) :
  worldOk (replay browser history) /\ isBrowser (replay browser history) = browser.
Proof.
  unfold replay.
  assert (H0 : worldOk (fresh browser) /\ isBrowser (fresh browser) = browser).
  { split; [| reflexivity]. apply worldOk_of_fields; cbn; discriminate. }
  revert H0. generalize (fresh browser) as w.
  induction history as [| c cs IH]; intros w [Hw Hb]; [split; assumption |].
  cbn [fold_left]. apply IH. split.
  - apply worldOk_perform. exact Hw.
  - rewrite isBrowser_perform. exact Hb.
Qed.

Lemma sync_is_async_in_browser (w : World) :
  isBrowser w = true ->
  loadDataSync w = loadData w
  /\ forall d, saveDataSync d w = saveData d w.
Proof.
  intros E. unfold loadDataSync, loadData, saveDataSync, saveData.
  rewrite E. split; reflexivity.
Qed.

Lemma sync_under_node (o v k : jsstring) (w : World) :
  isBrowser w = false ->
  saveMultisigAddress o v k w = w /\ getStoredMultisigs o w = [].
Proof.
  intros E. unfold saveMultisigAddress, getStoredMultisigs, getWith.
  rewrite saveWith_unfold. unfold loadDataSync, saveDataSync. rewrite E.
  rewrite lookup_empty. cbn. split; reflexivity.
Qed.

Lemma sync_in_browser (o v k : jsstring) (w : World) :
  isBrowser w = true ->
  saveMultisigAddress o v k w = saveMultisigAddressAsync o v k w
  /\ getStoredMultisigs o w = getStoredMultisigsAsync o w.
Proof.
  intros E. destruct (sync_is_async_in_browser w E) as [Hl Hs].
  unfold saveMultisigAddress, saveMultisigAddressAsync,
    getStoredMultisigs, getStoredMultisigsAsync, getWith.
  rewrite !saveWith_unfold, Hl. split; [| reflexivity].
  destruct (some _ _); [reflexivity | apply Hs].
Qed.

(** C6, as stated, does not hold of the sync API under Node.js, where
    [saveDataSync] is a no-op and [loadDataSync] returns the empty record:
    after two registrations the owner's list holds no entry at all. *)
Lemma sync_registration_stores_nothing_under_node :
  ~ (forall (browser : bool) (o v k : jsstring),
        entriesFor v
          (getStoredMultisigs o
             (saveMultisigAddress o v k
                (saveMultisigAddress o v k (fresh browser)))) = 1%nat).
Proof.
  intros H.
  specialize (H false (js "Owner1") (js "Vault1") (js "Key1")).
  vm_compute in H. discriminate H.
Qed.

(** The owner a registry call is made for. *)
Definition callOwner (c : Call) : jsstring :=
  match c with
  | CallSaveAsync o _ _ | CallRemoveAsync o _ | CallSave o _ _ | CallRemove o _ => o
  end.

(** Every call of the history is made for a wallet address. *)
Definition addressCalls (history : list Call) : Prop :=
  Forall (fun c => ImportVault.isDirectAddress (callOwner c) = true) history.

(** C6, amended: for an owner address [o] (a base58 string of 32 to 44
    characters), after any history of registry calls made for owner
    addresses on a fresh installation, registering [(o, v, k)] twice in
    succession through the async API leaves exactly one entry for [v] in
    the owner's list, and the second call changes nothing.  Through the
    sync API the same holds in a browser; under Node.js that API stores
    nothing and the list it reads stays empty. *)
Theorem registration_idempotent
  (browser : bool) (history : list Call) (o v k : jsstring)
  (Howner : ImportVault.isDirectAddress o = true)
  (Hhistory : addressCalls history) :
  let w := replay browser history in
  let once := saveMultisigAddressAsync o v k w in
  let twice := saveMultisigAddressAsync o v k once in
  let onceSync := saveMultisigAddress o v k w in
  let twiceSync := saveMultisigAddress o v k onceSync in
  twice = once
  /\ entriesFor v (getStoredMultisigsAsync o twice) = 1%nat
  /\ twiceSync = onceSync
  /\ entriesFor v (getStoredMultisigs o twiceSync) = (if browser then 1 else 0)%nat.
Proof.
  intros w once twice onceSync twiceSync.
  destruct (replay_ok browser history) as [Hw Hb]. fold w in Hw, Hb.
  assert (Htwice : twice = once).
  { apply (saveWith_idempotent loadData saveData loadData_saveData). }
  assert (Hone : entriesFor v (getStoredMultisigsAsync o once) = 1%nat).
  { apply (entries_after_saveWith loadData saveData loadData_saveData).
    destruct Hw as [Hdata _]. exact Hdata. }
  split; [exact Htwice |].
  split; [rewrite Htwice; exact Hone |].
  destruct browser.
  - assert (E1 : onceSync = once) by (apply sync_in_browser; exact Hb).
    assert (Hb1 : isBrowser once = true).
    { unfold once. change (isBrowser (perform w (CallSaveAsync o v k)) = true).
      rewrite isBrowser_perform. exact Hb. }
    assert (E2 : twiceSync = twice).
    { unfold twiceSync. rewrite E1. apply sync_in_browser. exact Hb1. }
    split; [congruence |].
    rewrite E2, Htwice.
    destruct (sync_in_browser o v k once Hb1) as [_ ->]. exact Hone.
  - destruct (sync_under_node o v k w Hb) as [E1 _].
    assert (E2 : twiceSync = w).
    { unfold twiceSync, onceSync. rewrite E1. exact E1. }
    split; [unfold onceSync; congruence |].
    rewrite E2. destruct (sync_under_node o v k w Hb) as [_ ->]. reflexivity.
Qed.

(** Under Node.js, after one registration and one removal made for the
    wallet [So111..]. *)
Lemma registration_idempotent_witness :
  let o := js "So11111111111111111111111111111111111111112" in
  let v := js "TokenkegQfeZyiNwAJbNbGKPFXCWuBvf9Ss623VQ5DA" in
  let w := replay false [CallSaveAsync o v (js "Key1"); CallRemoveAsync o v] in
  let once := saveMultisigAddressAsync o v (js "Key2") w in
  let twice := saveMultisigAddressAsync o v (js "Key2") once in
  let onceSync := saveMultisigAddress o v (js "Key2") w in
  let twiceSync := saveMultisigAddress o v (js "Key2") onceSync in
  twice = once
  /\ entriesFor v (getStoredMultisigsAsync o twice) = 1%nat
  /\ twiceSync = onceSync
  /\ entriesFor v (getStoredMultisigs o twiceSync) = 0%nat.
Proof.
  apply (registration_idempotent false
           [CallSaveAsync (js "So11111111111111111111111111111111111111112")
              (js "TokenkegQfeZyiNwAJbNbGKPFXCWuBvf9Ss623VQ5DA") (js "Key1");
            CallRemoveAsync (js "So11111111111111111111111111111111111111112")
              (js "TokenkegQfeZyiNwAJbNbGKPFXCWuBvf9Ss623VQ5DA")]
           (js "So11111111111111111111111111111111111111112")
           (js "TokenkegQfeZyiNwAJbNbGKPFXCWuBvf9Ss623VQ5DA") (js "Key2")).
  - vm_compute. reflexivity.
  - repeat constructor.
Defined.

End RegistryFacts.

(** ** The keystore cipher *)

Module CipherFacts.

Import Utf8.

Lemma byteValue_range (b : byte) : 0 <= byteValue b < 256.
Proof.
  unfold byteValue. pose proof (Byte.to_N_bounded b) as H.
  apply N.leb_le in H. apply N.leb_le in H. lia.
Qed.

Lemma byteValue_byteOf (z : Z) : 0 <= z < 256 -> byteValue (byteOf z) = z.
Proof.
  intros Hz. unfold byteOf, byteValue. rewrite Z.mod_small by lia.
  destruct (Byte.of_N (Z.to_N z)) as [b |] eqn:E.
  - apply Byte.to_of_N in E. rewrite E. lia.
  - apply Byte.of_N_None_iff in E. lia.
Qed.

Lemma byteOf_byteValue (b : byte) : byteOf (byteValue b) = b.
Proof.
  unfold byteOf. pose proof (byteValue_range b) as H.
  rewrite Z.mod_small by lia. unfold byteValue.
  rewrite N2Z.id, Byte.of_to_N. reflexivity.
Qed.

(** Unicode scalar values: code points that are not surrogates. *)
Definition isScalar (cp : Z) : Prop :=
  0 <= cp < 1114112 /\ ~ (55296 <= cp <= 57343).

Ltac decide_tests :=
  repeat match goal with
         | |- context [?a <=? ?b] =>
             first [ rewrite (proj2 (Z.leb_le a b)) by lia
                   | rewrite (proj2 (Z.leb_gt a b)) by lia ]
         | |- context [?a <? ?b] =>
             first [ rewrite (proj2 (Z.ltb_lt a b)) by lia
                   | rewrite (proj2 (Z.ltb_ge a b)) by lia ]
         | |- context [?a =? ?b] =>
             first [ rewrite (proj2 (Z.eqb_eq a b)) by lia
                   | rewrite (proj2 (Z.eqb_neq a b)) by lia ]
         end.

Lemma decode_one_byte (cp : Z) (rest : list byte) :
  0 <= cp < 128 ->
  decodeFrom idle (encodeCodePoint cp ++ rest) = cp :: decodeFrom idle rest.
Proof.
  intros H. unfold encodeCodePoint. decide_tests.
  cbn [app decodeFrom]. rewrite byteValue_byteOf by lia.
  unfold step, lead. cbn [bytesNeeded idle]. decide_tests. reflexivity.
Qed.

Lemma decode_two_bytes (cp : Z) (rest : list byte) :
  128 <= cp < 2048 ->
  decodeFrom idle (encodeCodePoint cp ++ rest) = cp :: decodeFrom idle rest.
Proof.
  intros H. unfold encodeCodePoint. decide_tests.
  pose proof (Z.div_mod cp 64 ltac:(lia)) as Hq.
  pose proof (Z.mod_pos_bound cp 64 ltac:(lia)) as Hr.
  cbn [app decodeFrom]. rewrite !byteValue_byteOf by lia.
  unfold step at 1, lead. cbn [bytesNeeded idle]. decide_tests.
  cbn [andb]. unfold step.
  cbn [bytesNeeded bytesSeen codePoint lower upper]. decide_tests.
  cbn [orb app]. f_equal. lia.
Qed.

Lemma decode_three_bytes (cp : Z) (rest : list byte) :
  2048 <= cp < 65536 -> ~ (55296 <= cp <= 57343) ->
  decodeFrom idle (encodeCodePoint cp ++ rest) = cp :: decodeFrom idle rest.
Proof.
  intros H Hs. unfold encodeCodePoint. decide_tests.
  pose proof (Z.div_mod cp 64 ltac:(lia)) as Hq1.
  pose proof (Z.mod_pos_bound cp 64 ltac:(lia)) as Hr1.
  pose proof (Z.div_mod (cp / 64) 64 ltac:(lia)) as Hq2.
  pose proof (Z.mod_pos_bound (cp / 64) 64 ltac:(lia)) as Hr2.
  cbn [app decodeFrom]. rewrite !byteValue_byteOf by lia.
  unfold step at 1, lead. cbn [bytesNeeded idle]. decide_tests.
  cbn [andb].
  destruct (224 + cp / 64 / 64 =? 224) eqn:E1;
    [apply Z.eqb_eq in E1 | apply Z.eqb_neq in E1];
    (destruct (224 + cp / 64 / 64 =? 237) eqn:E2;
     [apply Z.eqb_eq in E2 | apply Z.eqb_neq in E2]);
    unfold step at 1;
    cbn [bytesNeeded bytesSeen codePoint lower upper]; decide_tests;
    cbn [orb]; unfold step;
    cbn [bytesNeeded bytesSeen codePoint lower upper]; decide_tests;
    cbn [orb app]; f_equal; lia.
Qed.

Lemma decode_four_bytes (cp : Z) (rest : list byte) :
  65536 <= cp < 1114112 ->
  decodeFrom idle (encodeCodePoint cp ++ rest) = cp :: decodeFrom idle rest.
Proof.
  intros H. unfold encodeCodePoint. decide_tests.
  pose proof (Z.div_mod cp 64 ltac:(lia)) as Hq1.
  pose proof (Z.mod_pos_bound cp 64 ltac:(lia)) as Hr1.
  pose proof (Z.div_mod (cp / 64) 64 ltac:(lia)) as Hq2.
  pose proof (Z.mod_pos_bound (cp / 64) 64 ltac:(lia)) as Hr2.
  pose proof (Z.div_mod (cp / 64 / 64) 64 ltac:(lia)) as Hq3.
  pose proof (Z.mod_pos_bound (cp / 64 / 64) 64 ltac:(lia)) as Hr3.
  cbn [app decodeFrom]. rewrite !byteValue_byteOf by lia.
  unfold step at 1, lead. cbn [bytesNeeded idle]. decide_tests.
  cbn [andb].
  destruct (240 + cp / 64 / 64 / 64 =? 240) eqn:E1;
    [apply Z.eqb_eq in E1 | apply Z.eqb_neq in E1];
    (destruct (240 + cp / 64 / 64 / 64 =? 244) eqn:E2;
     [apply Z.eqb_eq in E2 | apply Z.eqb_neq in E2]);
    unfold step at 1;
    cbn [bytesNeeded bytesSeen codePoint lower upper]; decide_tests;
    cbn [orb]; unfold step at 1;
    cbn [bytesNeeded bytesSeen codePoint lower upper]; decide_tests;
    cbn [orb]; unfold step;
    cbn [bytesNeeded bytesSeen codePoint lower upper]; decide_tests;
    cbn [orb app]; f_equal; lia.
Qed.

Lemma decode_code_point (cp : Z) (rest : list byte) :
  isScalar cp ->
  decodeFrom idle (encodeCodePoint cp ++ rest) = cp :: decodeFrom idle rest.
Proof.
  intros [Hr Hs].
  destruct (Z_lt_ge_dec cp 128); [apply decode_one_byte; lia |].
  destruct (Z_lt_ge_dec cp 2048); [apply decode_two_bytes; lia |].
  destruct (Z_lt_ge_dec cp 65536); [apply decode_three_bytes; lia |].
  apply decode_four_bytes; lia.
Qed.

Lemma codeUnits_scalar (c : Z) : 0 <= c < 65536 -> codeUnits c = [c].
Proof. intros H. unfold codeUnits. decide_tests. reflexivity. Qed.

Lemma codeUnits_pair (c d : Z) :
  55296 <= c <= 56319 -> 56320 <= d <= 57343 ->
  codeUnits (65536 + (c - 55296) * 1024 + (d - 56320)) = [c; d].
Proof.
  intros Hc Hd. unfold codeUnits. decide_tests.
  set (x := 65536 + (c - 55296) * 1024 + (d - 56320) - 65536).
  pose proof (Z.div_mod x 1024 ltac:(lia)) as Hq.
  pose proof (Z.mod_pos_bound x 1024 ltac:(lia)) as Hr.
  assert (Hx : x = 1024 * (c - 55296) + (d - 56320)) by (unfold x; lia).
  f_equal; [lia | f_equal; lia].
Qed.

Lemma surrogate_tests (c : Z) :
  (isHighSurrogate c = true <-> 55296 <= c <= 56319)
  /\ (isLowSurrogate c = true <-> 56320 <= c <= 57343).
Proof.
  unfold isHighSurrogate, isLowSurrogate.
  rewrite !andb_true_iff, !Z.leb_le. tauto.
Qed.

(** Encoding then decoding gives back every string in which the
    surrogates are paired. *)
Lemma utf8_round_trip (s : jsstring) :
  wellFormed s = true -> decode (encode s) = s.
Proof.
  remember (length s) as n eqn:Hn. revert s Hn.
  induction n as [n IH] using lt_wf_ind. intros s Hn Hwf.
  destruct s as [| c rest]; [reflexivity |].
  cbn [wellFormed encode] in *.
  destruct (isHighSurrogate c) eqn:Eh.
  - destruct rest as [| d rest']; [discriminate |].
    apply andb_true_iff in Hwf. destruct Hwf as [Hd Hwf]. rewrite Hd.
    apply (proj1 (surrogate_tests c)) in Eh.
    apply (proj2 (surrogate_tests d)) in Hd.
    unfold decode. rewrite decode_code_point by (unfold isScalar; lia).
    cbn [flat_map]. rewrite codeUnits_pair by lia. cbn [app]. do 2 f_equal.
    apply (IH (length rest')); [cbn in Hn; lia | reflexivity | exact Hwf].
  - destruct (isLowSurrogate c) eqn:El; [discriminate |].
    apply andb_true_iff in Hwf. destruct Hwf as [Hc Hwf].
    apply andb_true_iff in Hc. destruct Hc as [H0 H1].
    apply Z.leb_le in H0. apply Z.ltb_lt in H1.
    assert (Hns : ~ (55296 <= c <= 57343)).
    { intros K. destruct (Z_le_gt_dec c 56319).
      - assert (isHighSurrogate c = true) by (apply (surrogate_tests c); lia).
        congruence.
      - assert (isLowSurrogate c = true) by (apply (surrogate_tests c); lia).
        congruence. }
    unfold decode. rewrite decode_code_point by (unfold isScalar; lia).
    cbn [flat_map]. rewrite codeUnits_scalar by lia. cbn [app]. f_equal.
    apply (IH (length rest)); [cbn in Hn; lia | reflexivity | exact Hwf].
Qed.

(** An unpaired surrogate comes back as U+FFFD. *)
Example lone_surrogate_is_replaced : decode (encode [55296]) = [65533].
Proof. vm_compute. reflexivity. Qed.

Example text_decoder_drops_bom :
  textDecoderDecode (encode (65279 :: js "[1,2]")) = js "[1,2]".
Proof. vm_compute. reflexivity. Qed.

Import Random Crypto.

Lemma randomBytes_length (n : nat) (e : Entropy) :
  length (fst (randomBytes n e)) = n.
Proof. unfold randomBytes. cbn. rewrite length_map, length_seq. reflexivity. Qed.

Lemma subarray_middle (a b c : list byte) :
  subarray (a ++ b ++ c) (length a) (length a + length b) = b.
Proof.
  unfold subarray. rewrite drop_app_length.
  replace (length a + length b - length a)%nat with (length b) by lia.
  apply take_app_length.
Qed.

Lemma subarray_head (a c : list byte) :
  subarray (a ++ c) 0 (length a) = a.
Proof.
  unfold subarray. rewrite drop_0, Nat.sub_0_r. apply take_app_length.
Qed.

Lemma map_byteOf_byteValue (bytes : list byte) :
  map byteOf (map byteValue bytes) = bytes.
Proof.
  induction bytes as [| b bytes IH]; [reflexivity |].
  cbn. rewrite byteOf_byteValue, IH. reflexivity.
Qed.

Section RoundTrip.

Variable pbkdf2 : list byte -> list byte -> Z -> nat -> list byte.
Variable gcmSeal : list byte -> list byte -> list byte -> list byte * list byte.
Variable gcmOpen : list byte -> list byte -> list byte -> list byte -> option (list byte).
Variable base64 : list byte -> jsstring.
Variable bufferFromBase64 : jsstring -> list byte.
Variable atob : jsstring -> option jsstring.

(** What the primitives are relied on for: the derived key has the
    requested length; opening what was sealed under a 32-byte key and a
    12-byte nonce gives the data back; the tag has 16 bytes; both base64
    decoders invert the encoder. *)
Hypothesis pbkdf2_length :
  forall password salt iterations keylen,
    length (pbkdf2 password salt iterations keylen) = keylen.
Hypothesis gcm_opens :
  forall key iv data,
    length key = KEY_LENGTH -> length iv = IV_LENGTH ->
    gcmOpen key iv (fst (gcmSeal key iv data)) (snd (gcmSeal key iv data)) = Some data.
Hypothesis gcm_tag_length :
  forall key iv data, length (snd (gcmSeal key iv data)) = TAG_LENGTH.
Hypothesis bufferFromBase64_base64 :
  forall bytes, bufferFromBase64 (base64 bytes) = bytes.
Hypothesis atob_base64 :
  forall bytes, atob (base64 bytes) = Some (map byteValue bytes).

Lemma decrypt_encrypt (data password : jsstring) (e : Entropy) :
  decrypt pbkdf2 gcmOpen bufferFromBase64
    (fst (encrypt pbkdf2 gcmSeal base64 data password e)) password
  = Some (Utf8.decode (Utf8.encode data)).
Proof.
  unfold encrypt, decrypt.
  destruct (randomBytes SALT_LENGTH e) as [salt e1] eqn:Es.
  destruct (randomBytes IV_LENGTH e1) as [iv e2] eqn:Ei.
  assert (Hsalt : length salt = SALT_LENGTH).
  { pose proof (randomBytes_length SALT_LENGTH e) as H. rewrite Es in H. exact H. }
  assert (Hiv : length iv = IV_LENGTH).
  { pose proof (randomBytes_length IV_LENGTH e1) as H. rewrite Ei in H. exact H. }
  set (key := deriveKey pbkdf2 password salt).
  pose proof (gcm_opens key iv (Utf8.encode data)
                (pbkdf2_length _ _ _ _) Hiv) as Hopen.
  pose proof (gcm_tag_length key iv (Utf8.encode data)) as Htag.
  destruct (gcmSeal key iv (Utf8.encode data)) as [encrypted authTag].
  cbn [fst snd] in *. rewrite bufferFromBase64_base64.
  assert (E1 : subarray (salt ++ iv ++ authTag ++ encrypted) 0 SALT_LENGTH = salt).
  { rewrite <- Hsalt. apply subarray_head. }
  assert (E2 : subarray (salt ++ iv ++ authTag ++ encrypted)
                 SALT_LENGTH (SALT_LENGTH + IV_LENGTH) = iv).
  { rewrite <- Hsalt, <- Hiv. apply subarray_middle. }
  assert (E3 : subarray (salt ++ iv ++ authTag ++ encrypted)
                 (SALT_LENGTH + IV_LENGTH) (SALT_LENGTH + IV_LENGTH + TAG_LENGTH)
               = authTag).
  { rewrite (app_assoc salt iv).
    replace (SALT_LENGTH + IV_LENGTH)%nat with (length (salt ++ iv))
      by (rewrite length_app; lia).
    rewrite <- Htag. apply subarray_middle. }
  assert (E4 : drop (SALT_LENGTH + IV_LENGTH + TAG_LENGTH)
                 (salt ++ iv ++ authTag ++ encrypted) = encrypted).
  { rewrite (app_assoc salt iv), (app_assoc (salt ++ iv) authTag).
    apply drop_app_length'. rewrite !length_app. lia. }
  rewrite E1, E2, E3, E4. fold key. rewrite Hopen. reflexivity.
Qed.

Lemma webDecrypt_webEncrypt (data password : jsstring) (e : Entropy) :
  webDecrypt pbkdf2 gcmOpen atob
    (fst (webEncrypt pbkdf2 gcmSeal base64 data password e)) password
  = Some (Utf8.textDecoderDecode (Utf8.encode data)).
Proof.
  unfold webEncrypt, webDecrypt, btoa, fromCharCodes, subtleEncrypt, subtleDecrypt.
  destruct (randomBytes SALT_LENGTH e) as [salt e1] eqn:Es.
  destruct (randomBytes IV_LENGTH e1) as [iv e2] eqn:Ei.
  assert (Hsalt : length salt = SALT_LENGTH).
  { pose proof (randomBytes_length SALT_LENGTH e) as H. rewrite Es in H. exact H. }
  assert (Hiv : length iv = IV_LENGTH).
  { pose proof (randomBytes_length IV_LENGTH e1) as H. rewrite Ei in H. exact H. }
  set (key := deriveKey pbkdf2 password salt).
  pose proof (gcm_opens key iv (Utf8.encode data)
                (pbkdf2_length _ _ _ _) Hiv) as Hopen.
  pose proof (gcm_tag_length key iv (Utf8.encode data)) as Htag.
  destruct (gcmSeal key iv (Utf8.encode data)) as [ciphertext tag].
  cbn [fst snd] in *.
  rewrite map_byteOf_byteValue, atob_base64, map_byteOf_byteValue.
  assert (E1 : subarray (salt ++ iv ++ ciphertext ++ tag) 0 SALT_LENGTH = salt).
  { rewrite <- Hsalt. apply subarray_head. }
  assert (E2 : subarray (salt ++ iv ++ ciphertext ++ tag)
                 SALT_LENGTH (SALT_LENGTH + IV_LENGTH) = iv).
  { rewrite <- Hsalt, <- Hiv. apply subarray_middle. }
  assert (E3 : drop (SALT_LENGTH + IV_LENGTH) (salt ++ iv ++ ciphertext ++ tag)
               = ciphertext ++ tag).
  { rewrite (app_assoc salt iv). apply drop_app_length'. rewrite length_app. lia. }
  rewrite E1, E2, E3. fold key.
  assert (L : (length (ciphertext ++ tag) <? TAG_LENGTH)%nat = false).
  { apply Nat.ltb_ge. rewrite length_app. lia. }
  rewrite L.
  replace (length (ciphertext ++ tag) - TAG_LENGTH)%nat with (length ciphertext)
    by (rewrite length_app; lia).
  rewrite take_app_length, drop_app_length, Hopen. reflexivity.
Qed.

End RoundTrip.

(** C1, amended: with primitives that satisfy the laws above, for every
    password and every plaintext string whose surrogates are all paired,
    decrypting what [encrypt] produced under the same password returns the
    plaintext exactly in the Node.js implementation, and the plaintext
    without a leading U+FEFF in the Web Crypto implementation (hence the
    plaintext exactly when it does not start with U+FEFF). *)
Theorem cipher_round_trip
  (pbkdf2 : list byte -> list byte -> Z -> nat -> list byte)
  (gcmSeal : list byte -> list byte -> list byte -> list byte * list byte)
  (gcmOpen : list byte -> list byte -> list byte -> list byte -> option (list byte))
  (base64 : list byte -> jsstring)
  (bufferFromBase64 : jsstring -> list byte)
  (atob : jsstring -> option jsstring)
  (pbkdf2_length :
     forall password salt iterations keylen,
       length (pbkdf2 password salt iterations keylen) = keylen)
  (gcm_opens :
     forall key iv data,
       length key = KEY_LENGTH -> length iv = IV_LENGTH ->
       gcmOpen key iv (fst (gcmSeal key iv data)) (snd (gcmSeal key iv data)) = Some data)
  (gcm_tag_length :
     forall key iv data, length (snd (gcmSeal key iv data)) = TAG_LENGTH)
  (bufferFromBase64_base64 : forall bytes, bufferFromBase64 (base64 bytes) = bytes)
  (atob_base64 : forall bytes, atob (base64 bytes) = Some (map byteValue bytes))
  (M P : jsstring) (e : Entropy)
  (Hwf : wellFormed M = true) :
  decrypt pbkdf2 gcmOpen bufferFromBase64
    (fst (encrypt pbkdf2 gcmSeal base64 M P e)) P = Some M
  /\ webDecrypt pbkdf2 gcmOpen atob
       (fst (webEncrypt pbkdf2 gcmSeal base64 M P e)) P = Some (stripBOM M)
  /\ (head M <> Some BOM ->
      webDecrypt pbkdf2 gcmOpen atob
        (fst (webEncrypt pbkdf2 gcmSeal base64 M P e)) P = Some M).
Proof.
  assert (Hweb : webDecrypt pbkdf2 gcmOpen atob
                   (fst (webEncrypt pbkdf2 gcmSeal base64 M P e)) P
                 = Some (stripBOM M)).
  { rewrite (webDecrypt_webEncrypt pbkdf2 gcmSeal gcmOpen base64 atob
               pbkdf2_length gcm_opens gcm_tag_length atob_base64).
    unfold textDecoderDecode. rewrite utf8_round_trip by exact Hwf. reflexivity. }
  split; [| split].
  - rewrite (decrypt_encrypt pbkdf2 gcmSeal gcmOpen base64 bufferFromBase64
               pbkdf2_length gcm_opens gcm_tag_length bufferFromBase64_base64).
    rewrite utf8_round_trip by exact Hwf. reflexivity.
  - exact Hweb.
  - intros Hbom. rewrite Hweb. f_equal. unfold stripBOM.
    destruct M as [| c rest]; [reflexivity |].
    destruct (c =? BOM) eqn:E; [| reflexivity].
    apply Z.eqb_eq in E. subst c. exfalso. apply Hbom. reflexivity.
Qed.

(** Stand-ins for the primitives, small enough to run, that satisfy the
    laws: a key made of the password and salt bytes, a cipher that
    reverses the data and tags it with key and nonce bytes, and the
    Latin-1 reading of bytes for base64. *)
Definition padded (n : nat) (bytes : list byte) : list byte :=
  take n (bytes ++ repeat x00 n).

Definition standInPbkdf2 (password salt : list byte) (iterations : Z) (keylen : nat)
  : list byte :=
  padded keylen (password ++ salt).

Definition standInTag (key iv : list byte) : list byte := padded TAG_LENGTH (key ++ iv).

Definition standInSeal (key iv data : list byte) : list byte * list byte :=
  (rev data, standInTag key iv).

Definition standInOpen (key iv ciphertext tag : list byte) : option (list byte) :=
  if List.list_eq_dec Byte.byte_eq_dec tag (standInTag key iv)
  then Some (rev ciphertext) else None.

Definition standInBase64 (bytes : list byte) : jsstring := map byteValue bytes.

Definition standInBufferFrom (text : jsstring) : list byte := map byteOf text.

Definition standInAtob (text : jsstring) : option jsstring := Some text.

Lemma padded_length (n : nat) (bytes : list byte) : length (padded n bytes) = n.
Proof.
  unfold padded. rewrite length_take, length_app, repeat_length. lia.
Qed.

Lemma standIn_opens (key iv data : list byte) :
  length key = KEY_LENGTH -> length iv = IV_LENGTH ->
  standInOpen key iv (fst (standInSeal key iv data)) (snd (standInSeal key iv data))
  = Some data.
Proof.
  intros _ _. unfold standInOpen, standInSeal. cbn [fst snd].
  destruct (List.list_eq_dec _ _ _) as [_ | K]; [| congruence].
  rewrite rev_involutive. reflexivity.
Qed.

Definition sampleEntropy : Entropy :=
  {| source := fun n => byteOf (Z.of_nat n * 37 + 11); position := 0 |}.

Lemma cipher_round_trip_witness :
  decrypt standInPbkdf2 standInOpen standInBufferFrom
    (fst (encrypt standInPbkdf2 standInSeal standInBase64
            (js "[1,2,3]") (js "correcthorsebattery") sampleEntropy))
    (js "correcthorsebattery") = Some (js "[1,2,3]")
  /\ webDecrypt standInPbkdf2 standInOpen standInAtob
       (fst (webEncrypt standInPbkdf2 standInSeal standInBase64
               (js "[1,2,3]") (js "correcthorsebattery") sampleEntropy))
       (js "correcthorsebattery") = Some (stripBOM (js "[1,2,3]"))
  /\ (head (js "[1,2,3]") <> Some BOM ->
      webDecrypt standInPbkdf2 standInOpen standInAtob
        (fst (webEncrypt standInPbkdf2 standInSeal standInBase64
                (js "[1,2,3]") (js "correcthorsebattery") sampleEntropy))
        (js "correcthorsebattery") = Some (js "[1,2,3]")).
Proof.
  apply (cipher_round_trip standInPbkdf2 standInSeal standInOpen
           standInBase64 standInBufferFrom standInAtob).
  - intros password salt iterations keylen. apply padded_length.
  - apply standIn_opens.
  - intros key iv data. apply padded_length.
  - apply map_byteOf_byteValue.
  - reflexivity.
  - vm_compute. reflexivity.
Defined.

(** C1, as stated, does not hold: a plaintext with an unpaired surrogate
    is encoded as U+FFFD before it is sealed, so it does not come back. *)
Lemma lone_surrogate_does_not_round_trip :
  ~ (forall (pbkdf2 : list byte -> list byte -> Z -> nat -> list byte)
            (gcmSeal : list byte -> list byte -> list byte -> list byte * list byte)
            (gcmOpen : list byte -> list byte -> list byte -> list byte -> option (list byte))
            (base64 : list byte -> jsstring)
            (bufferFromBase64 : jsstring -> list byte),
        (forall password salt iterations keylen,
            length (pbkdf2 password salt iterations keylen) = keylen) ->
        (forall key iv data,
            length key = KEY_LENGTH -> length iv = IV_LENGTH ->
            gcmOpen key iv (fst (gcmSeal key iv data)) (snd (gcmSeal key iv data))
            = Some data) ->
        (forall key iv data, length (snd (gcmSeal key iv data)) = TAG_LENGTH) ->
        (forall bytes, bufferFromBase64 (base64 bytes) = bytes) ->
        forall (M P : jsstring) (e : Entropy),
          decrypt pbkdf2 gcmOpen bufferFromBase64
            (fst (encrypt pbkdf2 gcmSeal base64 M P e)) P = Some M).
Proof.
  intros H.
  specialize (H standInPbkdf2 standInSeal standInOpen standInBase64 standInBufferFrom
                (fun password salt iterations keylen => padded_length keylen _)
                standIn_opens
                (fun key iv data => padded_length TAG_LENGTH _)
                map_byteOf_byteValue
                [55296] (js "correcthorsebattery") sampleEntropy).
  rewrite (decrypt_encrypt standInPbkdf2 standInSeal standInOpen standInBase64
             standInBufferFrom
             (fun password salt iterations keylen => padded_length keylen _)
             standIn_opens
             (fun key iv data => padded_length TAG_LENGTH _)
             map_byteOf_byteValue) in H.
  vm_compute in H. discriminate H.
Qed.

End CipherFacts.

(** ** The keystore *)

Module WalletFacts.

Import Errors Storage Wallet.

Lemma get_fresh (key : jsstring) (d : Disk WalletData) :
  get WalletData (newFileStorage) key d
  = (files d !! key,
     {| index := match indexFile d with
                 | Some keys => fold_left Set_add keys []
                 | None => []
                 end;
        initialized := true |},
     {| files := files d; indexFile := indexFile d;
        calls := calls d ++ [Mkdir; ReadFile IndexFile; ReadFile (KeyFile key)] |}).
Proof.
  unfold get, ensureInitialized, newFileStorage, fsCall. cbn.
  destruct (indexFile d); cbn; rewrite <- !app_assoc; reflexivity.
Qed.

Lemma set_files (this : FileStorage) (key : jsstring) (value : WalletData)
  (d : Disk WalletData) :
  initialized this = true ->
  files (snd (set WalletData this key value d)) = <[key := value]> (files d).
Proof.
  intros Hinit. unfold set, ensureInitialized. rewrite Hinit. cbn.
  destruct (includes (index this) key); reflexivity.
Qed.

Section Unlock.

Variable decrypt : jsstring -> jsstring -> option jsstring.
Variable JsValue : Type.
Variable JSON_parse : jsstring -> option JsValue.
Variable Uint8Array_from : JsValue -> option (list byte).
Variable Keypair_fromSecretKey : list byte -> option Keypair.

(** The decrypted text is the JSON of a usable secret key. *)
Definition parsesAsSecretKey (plaintext : jsstring) : Prop :=
  exists value bytes keypair,
    JSON_parse plaintext = Some value
    /\ Uint8Array_from value = Some bytes
    /\ Keypair_fromSecretKey bytes = Some keypair.

Lemma unlockWallet_try_parse_failure (walletData : WalletData)
  (password plaintext : jsstring) :
  decrypt (encryptedSecretKey walletData) password = Some plaintext ->
  ~ parsesAsSecretKey plaintext ->
  exists thrown,
    unlockWallet_try decrypt JsValue JSON_parse Uint8Array_from
      Keypair_fromSecretKey walletData password = inl thrown
    /\ getKeypair_try decrypt JsValue JSON_parse Uint8Array_from
         Keypair_fromSecretKey walletData password = inl thrown.
Proof.
  intros Hdec Hbad. unfold unlockWallet_try, getKeypair_try. rewrite Hdec.
  destruct (JSON_parse plaintext) as [value |] eqn:E1; [| eauto].
  destruct (Uint8Array_from value) as [bytes |] eqn:E2; [| eauto].
  destruct (Keypair_fromSecretKey bytes) as [keypair |] eqn:E3; [| eauto].
  exfalso. apply Hbad. exists value, bytes, keypair. auto.
Qed.

End Unlock.

(** A keystore whose blob is [encrypt("not json", "hunter22")], run on the
    stand-in primitives: it is authentic under that password, and what it
    holds is not JSON. *)
Definition garbledBlob : jsstring :=
  fst (Crypto.encrypt CipherFacts.standInPbkdf2 CipherFacts.standInSeal
         CipherFacts.standInBase64 (js "not json") (js "hunter22")
         CipherFacts.sampleEntropy).

Definition standInDecrypt : jsstring -> jsstring -> option jsstring :=
  Crypto.decrypt CipherFacts.standInPbkdf2 CipherFacts.standInOpen
    CipherFacts.standInBufferFrom.

Definition garbledWallet : WalletData :=
  {| name := js "Main"; publicKey := js "So11111111111111111111111111111111111111112";
     encryptedSecretKey := garbledBlob; createdAt := 0 |}.

Definition garbledDisk : Disk WalletData :=
  {| files := {[ WALLET_KEY := garbledWallet ]};
     indexFile := Some [WALLET_KEY]; calls := [] |}.

(** [JSON.parse] where it throws; the three below are only ever reached
    with text that is not JSON. *)
Definition rejectingParse (text : jsstring) : option (list Z) := None.

Definition noBytes (value : list Z) : option (list byte) := None.

Definition noKeypair (bytes : list byte) : option Keypair := None.

Example garbledBlob_authenticates :
  standInDecrypt garbledBlob (js "hunter22") = Some (js "not json")
  /\ standInDecrypt garbledBlob (js "hunter23") = None.
Proof. vm_compute. split; reflexivity. Qed.

(** C2, as stated, does not hold: when the cipher authenticates the blob
    and the plaintext then fails to parse, [unlockWallet] throws the very
    [InvalidPasswordError] it throws for a wrong password. *)
Lemma parse_failure_is_reported_as_invalid_password :
  ~ (forall (decrypt : jsstring -> jsstring -> option jsstring)
            (JSON_parse : jsstring -> option (list Z))
            (Uint8Array_from : list Z -> option (list byte))
            (Keypair_fromSecretKey : list byte -> option Keypair)
            (d : Disk WalletData) (walletData : WalletData)
            (password plaintext : jsstring),
        files d !! WALLET_KEY = Some walletData ->
        decrypt (encryptedSecretKey walletData) password = Some plaintext ->
        JSON_parse plaintext = None ->
        fst (unlockWallet decrypt (list Z) JSON_parse Uint8Array_from
               Keypair_fromSecretKey password d)
        <> inl InvalidPasswordError).
Proof.
  intros H.
  apply (H standInDecrypt rejectingParse noBytes noKeypair garbledDisk garbledWallet
           (js "hunter22") (js "not json")).
  - reflexivity.
  - vm_compute. reflexivity.
  - reflexivity.
  - vm_compute. reflexivity.
Qed.

(** C2, amended: [unlockWallet] and [getKeypair] throw [NoWalletError]
    when no wallet is stored, and otherwise throw [InvalidPasswordError]
    both when the cipher rejects the password and when it accepts it but
    the plaintext is not the JSON of a usable secret key; the two cases are
    not told apart, and no other error is thrown. *)
Theorem unlock_errors
  (decrypt : jsstring -> jsstring -> option jsstring)
  (JsValue : Type)
  (JSON_parse : jsstring -> option JsValue)
  (Uint8Array_from : JsValue -> option (list byte))
  (Keypair_fromSecretKey : list byte -> option Keypair)
  (password : jsstring) (d : Disk WalletData) :
  let unlocked := fst (unlockWallet decrypt JsValue JSON_parse Uint8Array_from
                         Keypair_fromSecretKey password d) in
  let keypair := fst (getKeypair decrypt JsValue JSON_parse Uint8Array_from
                        Keypair_fromSecretKey password d) in
  (files d !! WALLET_KEY = None ->
   unlocked = inl NoWalletError /\ keypair = inl NoWalletError)
  /\ (forall walletData,
         files d !! WALLET_KEY = Some walletData ->
         decrypt (encryptedSecretKey walletData) password = None ->
         unlocked = inl InvalidPasswordError /\ keypair = inl InvalidPasswordError)
  /\ (forall walletData plaintext,
         files d !! WALLET_KEY = Some walletData ->
         decrypt (encryptedSecretKey walletData) password = Some plaintext ->
         ~ parsesAsSecretKey JsValue JSON_parse Uint8Array_from
             Keypair_fromSecretKey plaintext ->
         unlocked = inl InvalidPasswordError /\ keypair = inl InvalidPasswordError)
  /\ (forall e, unlocked = inl e \/ keypair = inl e ->
                e = NoWalletError \/ e = InvalidPasswordError).
Proof.
  intros unlocked keypair. subst unlocked keypair.
  unfold unlockWallet, getKeypair. rewrite !get_fresh. cbn [fst].
  split; [| split; [| split]].
  - intros ->. split; reflexivity.
  - intros walletData -> Hdec.
    unfold unlockWallet_try, getKeypair_try. rewrite Hdec. split; reflexivity.
  - intros walletData plaintext -> Hdec Hbad.
    destruct (unlockWallet_try_parse_failure decrypt JsValue JSON_parse
                Uint8Array_from Keypair_fromSecretKey walletData password
                plaintext Hdec Hbad) as [thrown [E1 E2]].
    rewrite E1, E2. split; reflexivity.
  - intros e.
    destruct (files d !! WALLET_KEY) as [walletData |].
    + destruct (unlockWallet_try _ _ _ _ _ _ _), (getKeypair_try _ _ _ _ _ _ _);
        cbn [fst]; intros [K | K]; inversion K; tauto.
    + cbn [fst]. intros [K | K]; inversion K; tauto.
Qed.

(** Creating a wallet on an empty directory, then asking for its address. *)
Definition emptyDisk : Disk WalletData :=
  {| files := ∅; indexFile := None; calls := [] |}.

Definition standInEncrypt (data password : jsstring) : jsstring :=
  fst (Crypto.encrypt CipherFacts.standInPbkdf2 CipherFacts.standInSeal
         CipherFacts.standInBase64 data password CipherFacts.sampleEntropy).

Definition sampleKeypair : Keypair :=
  {| kp_publicKey := mkPublicKey (js "So11111111111111111111111111111111111111112");
     secretKey := [x01; x02; xff] |}.

Example createWallet_then_getAddress :
  let created := createWallet standInEncrypt (js "Main") (js "correcthorsebattery")
                   sampleKeypair 1700000000000 emptyDisk in
  fst created
  = inr {| success := true;
           address := Some (js "So11111111111111111111111111111111111111112");
           cw_name := Some (js "Main"); error := None |}
  /\ fst (getAddress (snd created))
     = inr {| ar_success := true;
              ar_address := Some (js "So11111111111111111111111111111111111111112");
              ar_name := Some (js "Main") |}
  /\ fst (createWallet standInEncrypt (js "Other") (js "correcthorsebattery")
            sampleKeypair 1700000000001 (snd created))
     = inl WalletExistsError
  /\ createWallet standInEncrypt (js "Main") (js "short77")
       sampleKeypair 1700000000000 emptyDisk
     = (inl (WeakPasswordError 8), emptyDisk).
Proof. vm_compute. repeat split; reflexivity. Qed.

Example stringifyBytes_sample : stringifyBytes [x01; x02; xff] = js "[1,2,255]".
Proof. vm_compute. reflexivity. Qed.

Example secretKeyToBase58_sample :
  secretKeyToBase58 [x00; x00; x01; x00] = js "115R".
Proof. vm_compute. reflexivity. Qed.

End WalletFacts.

(** ** Importing a vault by address or share link *)

Module ImportFacts.

Import MultisigFacts VoteFacts ImportVault.

Lemma stripPrefix_Some (prefix s rest : jsstring) :
  stripPrefix prefix s = Some rest <-> s = prefix ++ rest.
Proof.
  revert s. induction prefix as [| p prefix IH]; intros s; cbn.
  - split; congruence.
  - destruct s as [| c s]; [split; discriminate |].
    destruct (p =? c) eqn:E.
    + apply Z.eqb_eq in E. subst c. rewrite IH. split; congruence.
    + apply Z.eqb_neq in E. split; [discriminate | congruence].
Qed.

Lemma takeBase58_spec (n : nat) (s : jsstring) :
  forallb isBase58 (takeBase58 n s) = true
  /\ (length (takeBase58 n s) <= n)%nat
  /\ exists post, s = takeBase58 n s ++ post.
Proof.
  revert s. induction n as [| n IH]; intros s.
  - cbn. repeat split; [lia | exists s; reflexivity].
  - destruct s as [| c s]; cbn.
    + repeat split; [lia | exists []; reflexivity].
    + destruct (isBase58 c) eqn:E; cbn.
      * destruct (IH s) as (H1 & H2 & [post H3]).
        rewrite E, H1. repeat split; [lia |].
        exists post. congruence.
      * repeat split; [lia | exists (c :: s); reflexivity].
Qed.

Lemma takeBase58_covers (n : nat) (a post : jsstring) :
  forallb isBase58 a = true ->
  (Nat.min n (length a) <= length (takeBase58 n (a ++ post)))%nat.
Proof.
  revert a. induction n as [| n IH]; intros a Ha; [cbn; lia |].
  destruct a as [| c a]; [cbn; lia |].
  cbn in Ha. apply andb_true_iff in Ha. destruct Ha as [Hc Ha].
  cbn. rewrite Hc. cbn. specialize (IH a Ha). lia.
Qed.

Lemma isDirectAddress_spec (a : jsstring) :
  isDirectAddress a = true
  <-> forallb isBase58 a = true /\ (32 <= length a <= 44)%nat.
Proof.
  unfold isDirectAddress. rewrite !andb_true_iff, !Nat.leb_le. tauto.
Qed.

Lemma matchHere_Some (s a : jsstring) :
  matchHere s = Some a ->
  isDirectAddress a = true /\ exists post, s = js "/vault/" ++ a ++ post.
Proof.
  unfold matchHere.
  destruct (stripPrefix (js "/vault/") s) as [rest |] eqn:E; [| discriminate].
  apply stripPrefix_Some in E.
  destruct (takeBase58_spec 44 rest) as (H1 & H2 & [post H3]).
  destruct (32 <=? length (takeBase58 44 rest))%nat eqn:L; [| discriminate].
  intros K. inversion K. subst a. apply Nat.leb_le in L.
  split.
  - apply isDirectAddress_spec. auto.
  - exists post. rewrite E. f_equal. exact H3.
Qed.

Lemma matchHere_complete (a post : jsstring) :
  isDirectAddress a = true ->
  is_Some (matchHere (js "/vault/" ++ a ++ post)).
Proof.
  intros Ha. apply isDirectAddress_spec in Ha. destruct Ha as [Hc Hl].
  unfold matchHere.
  assert (E : stripPrefix (js "/vault/") (js "/vault/" ++ a ++ post) = Some (a ++ post))
    by (apply stripPrefix_Some; reflexivity).
  rewrite E.
  pose proof (takeBase58_covers 44 a post Hc) as Hcov.
  destruct (32 <=? length (takeBase58 44 (a ++ post)))%nat eqn:L; [eauto |].
  apply Nat.leb_gt in L. lia.
Qed.

Lemma vaultUrlMatch_Some (s a : jsstring) :
  vaultUrlMatch s = Some a ->
  isDirectAddress a = true
  /\ exists pre post, s = pre ++ js "/vault/" ++ a ++ post.
Proof.
  induction s as [| c s IH]; cbn [vaultUrlMatch].
  - destruct (matchHere []) eqn:E; [| discriminate].
    intros K. inversion K. subst.
    destruct (matchHere_Some _ _ E) as [H1 [post H2]].
    split; [exact H1 | exists [], post; exact H2].
  - destruct (matchHere (c :: s)) eqn:E.
    + intros K. inversion K. subst.
      destruct (matchHere_Some _ _ E) as [H1 [post H2]].
      split; [exact H1 | exists [], post; exact H2].
    + intros K. destruct (IH K) as [H1 [pre [post H2]]].
      split; [exact H1 | exists (c :: pre), post; rewrite H2; reflexivity].
Qed.

Lemma vaultUrlMatch_complete (pre a post : jsstring) :
  isDirectAddress a = true ->
  is_Some (vaultUrlMatch (pre ++ js "/vault/" ++ a ++ post)).
Proof.
  intros Ha. induction pre as [| c pre IH].
  - destruct (matchHere_complete a post Ha) as [g Hg].
    change ([] ++ js "/vault/" ++ a ++ post) with (js "/vault/" ++ a ++ post).
    destruct (js "/vault/" ++ a ++ post) eqn:E; cbn [vaultUrlMatch]; rewrite Hg; eauto.
  - cbn [app vaultUrlMatch].
    destruct (matchHere (c :: pre ++ js "/vault/" ++ a ++ post)); [eauto | exact IH].
Qed.

Lemma vaultUrlMatch_base58 (s : jsstring) :
  forallb isBase58 s = true -> vaultUrlMatch s = None.
Proof.
  induction s as [| c s IH]; intros H; [reflexivity |].
  cbn in H. apply andb_true_iff in H. destruct H as [Hc Hs].
  cbn [vaultUrlMatch].
  assert (E : matchHere (c :: s) = None).
  { unfold matchHere. cbn [js map list_ascii_of_string stripPrefix].
    destruct (codeUnit "/" =? c) eqn:K; [| reflexivity].
    apply Z.eqb_eq in K. subst c. discriminate Hc. }
  rewrite E. apply IH. exact Hs.
Qed.

Lemma extractVaultAddress_Some (input a : jsstring) :
  extractVaultAddress input = Some a ->
  isDirectAddress a = true
  /\ (trim input = a
      \/ exists pre post, trim input = pre ++ js "/vault/" ++ a ++ post).
Proof.
  unfold extractVaultAddress.
  destruct (vaultUrlMatch (trim input)) as [g |] eqn:E.
  - intros K. inversion K. subst g.
    destruct (vaultUrlMatch_Some _ _ E) as [H1 H2]. auto.
  - destruct (isDirectAddress (trim input)) eqn:D; [| discriminate].
    intros K. inversion K. auto.
Qed.

Lemma extractVaultAddress_direct (input : jsstring) :
  isDirectAddress (trim input) = true ->
  extractVaultAddress input = Some (trim input).
Proof.
  intros D. unfold extractVaultAddress.
  rewrite vaultUrlMatch_base58, D; [reflexivity |].
  apply isDirectAddress_spec in D. tauto.
Qed.

Lemma extractVaultAddress_link (input pre a post : jsstring) :
  trim input = pre ++ js "/vault/" ++ a ++ post ->
  isDirectAddress a = true ->
  is_Some (extractVaultAddress input).
Proof.
  intros E D. unfold extractVaultAddress. rewrite E.
  destruct (vaultUrlMatch_complete pre a post D) as [g Hg]. rewrite Hg. eauto.
Qed.

(** The pattern [/vault/] followed by [{32,44}] base58 characters matches
    in [s] where [pre] ends, and [a] is what it captures there: the run is
    as long as it can be. *)
Definition capturedAt (s pre a post : jsstring) : Prop :=
  s = pre ++ js "/vault/" ++ a ++ post
  /\ forallb isBase58 a = true
  /\ (32 <= length a <= 44)%nat
  /\ (length a = 44%nat \/ forall c post', post = c :: post' -> isBase58 c = false).

(** ... and the pattern matches nowhere before. *)
Definition firstCapture (s pre a post : jsstring) : Prop :=
  capturedAt s pre a post
  /\ forall pre' a' post', capturedAt s pre' a' post' -> (length pre <= length pre')%nat.

Lemma takeBase58_greedy (n : nat) (s : jsstring) :
  exists post,
    s = takeBase58 n s ++ post
    /\ (length (takeBase58 n s) = n
        \/ forall c post', post = c :: post' -> isBase58 c = false).
Proof.
  revert s. induction n as [| n IH]; intros s.
  - exists s. split; [reflexivity | left; reflexivity].
  - destruct s as [| c s]; cbn [takeBase58].
    + exists []. split; [reflexivity | right; discriminate].
    + destruct (isBase58 c) eqn:E.
      * destruct (IH s) as (post & Hs & Hstop). exists post. split.
        -- cbn [app]. congruence.
        -- destruct Hstop as [Hlen | Hstop]; [left; cbn [length]; lia | right; exact Hstop].
      * exists (c :: s). split; [reflexivity |]. right.
        intros c' post' K. injection K as <- _. exact E.
Qed.

Lemma takeBase58_capture (n : nat) (a post : jsstring) :
  forallb isBase58 a = true ->
  (length a <= n)%nat ->
  (length a = n \/ forall c post', post = c :: post' -> isBase58 c = false) ->
  takeBase58 n (a ++ post) = a.
Proof.
  revert n. induction a as [| c a IH]; intros n Ha Hlen Hstop.
  - cbn [app]. destruct n as [| n]; [destruct post; reflexivity |].
    destruct Hstop as [K | Hstop]; [discriminate K |].
    destruct post as [| c post]; [reflexivity |].
    cbn [takeBase58]. rewrite (Hstop c post eq_refl). reflexivity.
  - cbn in Ha. apply andb_true_iff in Ha. destruct Ha as [Hc Ha].
    destruct n as [| n]; [cbn in Hlen; lia |].
    cbn [app takeBase58]. rewrite Hc. f_equal.
    apply IH; [exact Ha | cbn in Hlen; lia |].
    destruct Hstop as [K | Hstop]; [left; cbn in K; lia | right; exact Hstop].
Qed.

Lemma matchHere_capture (s a : jsstring) :
  matchHere s = Some a <-> exists post, capturedAt s [] a post.
Proof.
  unfold matchHere, capturedAt. split.
  - destruct (stripPrefix (js "/vault/") s) as [rest |] eqn:E; [| discriminate].
    apply stripPrefix_Some in E.
    destruct (takeBase58_spec 44 rest) as (H1 & H2 & _).
    destruct (takeBase58_greedy 44 rest) as (post & H3 & H4).
    cbv zeta. generalize dependent (takeBase58 44 rest). intros g H1 H2 H3 H4.
    destruct (32 <=? length g)%nat eqn:L; [| discriminate].
    intros K. injection K as <-. apply Nat.leb_le in L.
    exists post. split; [cbn [app]; rewrite E; f_equal; exact H3 |].
    split; [exact H1 |]. split; [lia | exact H4].
  - intros (post & Hs & Ha & Hlen & Hstop). cbn [app] in Hs.
    assert (E : stripPrefix (js "/vault/") s = Some (a ++ post))
      by (apply stripPrefix_Some; exact Hs).
    rewrite E, (takeBase58_capture 44 a post Ha ltac:(lia) Hstop).
    rewrite (proj2 (Nat.leb_le 32 (length a))) by lia. reflexivity.
Qed.

Lemma matchHere_nil : matchHere [] = None.
Proof. reflexivity. Qed.

Lemma capturedAt_cons (c : Z) (s pre a post : jsstring) :
  capturedAt (c :: s) (c :: pre) a post <-> capturedAt s pre a post.
Proof.
  unfold capturedAt. cbn [app]. split; intros (Hs & H); (split; [congruence | exact H]).
Qed.

Lemma capturedAt_head (c c' : Z) (s pre a post : jsstring) :
  capturedAt (c :: s) (c' :: pre) a post -> c' = c.
Proof. intros (Hs & _). cbn [app] in Hs. congruence. Qed.

Lemma vaultUrlMatch_first (s a : jsstring) :
  vaultUrlMatch s = Some a -> exists pre post, firstCapture s pre a post.
Proof.
  induction s as [| c s IH]; cbn [vaultUrlMatch].
  - rewrite matchHere_nil. discriminate.
  - destruct (matchHere (c :: s)) as [g |] eqn:E.
    + intros K. injection K as ->. apply matchHere_capture in E.
      destruct E as [post Hc]. exists [], post. split; [exact Hc |].
      intros pre' a' post' _. cbn. lia.
    + intros K. destruct (IH K) as (pre & post & Hc & Hfirst).
      exists (c :: pre), post.
      split; [apply (proj2 (capturedAt_cons _ _ _ _ _)); exact Hc |].
      intros pre' a' post' Hc'. destruct pre' as [| c' pre'].
      * exfalso. assert (M : matchHere (c :: s) = Some a')
          by (apply matchHere_capture; eauto).
        congruence.
      * pose proof (capturedAt_head _ _ _ _ _ _ Hc') as ->.
        apply (proj1 (capturedAt_cons _ _ _ _ _)) in Hc'.
        specialize (Hfirst _ _ _ Hc'). cbn. lia.
Qed.

Lemma capturedAt_is_Some (s pre a post : jsstring) :
  capturedAt s pre a post -> is_Some (vaultUrlMatch s).
Proof.
  intros (-> & Ha & Hlen & _). apply vaultUrlMatch_complete.
  apply isDirectAddress_spec. auto.
Qed.

Lemma firstCapture_unique (s pre a post pre0 a0 post0 : jsstring) :
  firstCapture s pre a post -> firstCapture s pre0 a0 post0 -> a = a0.
Proof.
  intros [Hc Hfirst] [Hc0 Hfirst0].
  pose proof (Hfirst _ _ _ Hc0) as L1. pose proof (Hfirst0 _ _ _ Hc) as L2.
  assert (Hl : length pre = length pre0) by lia.
  destruct Hc as (Hs & Ha & Hlen & Hstop). destruct Hc0 as (Hs0 & Ha0 & Hlen0 & Hstop0).
  rewrite Hs in Hs0.
  assert (Hpre : pre = pre0 /\ js "/vault/" ++ a ++ post = js "/vault/" ++ a0 ++ post0).
  { apply app_inj_1; [exact Hl | exact Hs0]. }
  destruct Hpre as [_ Hrest]. apply app_inv_head in Hrest.
  rewrite <- (takeBase58_capture 44 a post Ha ltac:(lia) Hstop).
  rewrite <- (takeBase58_capture 44 a0 post0 Ha0 ltac:(lia) Hstop0).
  now rewrite Hrest.
Qed.

Lemma vaultUrlMatch_pinned (s a : jsstring) :
  vaultUrlMatch s = Some a <-> exists pre post, firstCapture s pre a post.
Proof.
  split; [apply vaultUrlMatch_first |].
  intros (pre & post & Hf).
  destruct (capturedAt_is_Some _ _ _ _ (proj1 Hf)) as [a0 E].
  destruct (vaultUrlMatch_first _ _ E) as (pre0 & post0 & Hf0).
  rewrite E. f_equal. symmetry. exact (firstCapture_unique _ _ _ _ _ _ _ Hf Hf0).
Qed.

Lemma vaultUrlMatch_None (s : jsstring) :
  vaultUrlMatch s = None <-> forall pre a post, ~ capturedAt s pre a post.
Proof.
  split.
  - intros E pre a post Hc. destruct (capturedAt_is_Some _ _ _ _ Hc) as [x Hx]. congruence.
  - intros Hno. destruct (vaultUrlMatch s) as [a |] eqn:E; [| reflexivity].
    exfalso. destruct (vaultUrlMatch_first _ _ E) as (pre & post & Hc & _).
    exact (Hno _ _ _ Hc).
Qed.

Lemma extractVaultAddress_pinned (input a : jsstring) :
  extractVaultAddress input = Some a
  <-> (isDirectAddress (trim input) = true /\ a = trim input)
      \/ exists pre post, firstCapture (trim input) pre a post.
Proof.
  unfold extractVaultAddress. split.
  - destruct (vaultUrlMatch (trim input)) as [g |] eqn:E.
    + intros K. injection K as ->. right. apply vaultUrlMatch_pinned. exact E.
    + destruct (isDirectAddress (trim input)) eqn:D; [| discriminate].
      intros K. injection K as <-. left. split; reflexivity.
  - intros [[D ->] | Hf].
    + rewrite vaultUrlMatch_base58, D; [reflexivity |].
      apply isDirectAddress_spec in D. tauto.
    + apply vaultUrlMatch_pinned in Hf. rewrite Hf. reflexivity.
Qed.

Lemma extractVaultAddress_None (input : jsstring) :
  extractVaultAddress input = None
  <-> isDirectAddress (trim input) = false
      /\ forall pre a post, ~ capturedAt (trim input) pre a post.
Proof.
  unfold extractVaultAddress. rewrite <- vaultUrlMatch_None.
  destruct (vaultUrlMatch (trim input)) as [g |].
  - split; [discriminate | intros [_ K]; discriminate K].
  - destruct (isDirectAddress (trim input)); split; try discriminate; auto.
    intros [K _]. discriminate K.
Qed.

(** The address of the stored wallet, when there is one with a non-empty
    address. *)
Definition walletOwner (d : Storage.Disk Wallet.WalletData) (owner : jsstring) : Prop :=
  exists walletData,
    Storage.files d !! Wallet.WALLET_KEY = Some walletData
    /\ Wallet.publicKey walletData = owner /\ owner <> [].

Definition memberAddresses (account : MultisigAccount) : list jsstring :=
  map (fun m => toBase58 (key m)) (acc_members account).

Section Main.

Variable isPublicKey : jsstring -> bool.
Variable ledger : Ledger.

Lemma getMultisigAccount_run (a : jsstring) (log : list Request) :
  getMultisigAccount ledger (mkPublicKey a) log
  = (fst (run (getMultisigAccount ledger (mkPublicKey a))), log ++ [ReadMultisig a]).
Proof. reflexivity. Qed.

Lemma isMember_In (owner a : jsstring) (account : MultisigAccount) (vaultInfo : MultisigVault) :
  fst (run (getMultisigAccount ledger (mkPublicKey a))) = Some vaultInfo ->
  multisigAt ledger a = Some account ->
  Multisig.address vaultInfo = a
  /\ (some (fun m => streq (Multisig.publicKey m) owner) (members vaultInfo) = true
      <-> In owner (memberAddresses account)).
Proof.
  unfold run, getMultisigAccount, bind, ret, Multisig_fromAccountAddress. cbn.
  intros H E. rewrite E in H. inversion H. cbn. split; [reflexivity |].
  unfold some, memberAddresses. rewrite existsb_exists, in_map_iff. split.
  - intros [m [Hm Hs]]. apply in_map_iff in Hm. destruct Hm as [x [<- Hx]].
    cbn in Hs. apply streq_true in Hs. eauto.
  - intros [x [<- Hx]]. eexists. split.
    + apply in_map_iff. exists x. split; [reflexivity | exact Hx].
    + cbn. apply streq_true. reflexivity.
Qed.

Lemma vaultInfo_createKey (a : jsstring) (account : MultisigAccount)
  (vaultInfo : MultisigVault) :
  fst (run (getMultisigAccount ledger (mkPublicKey a))) = Some vaultInfo ->
  multisigAt ledger a = Some account ->
  Multisig.createKey vaultInfo = toBase58 (acc_createKey account).
Proof.
  unfold run, getMultisigAccount, bind, ret, Multisig_fromAccountAddress. cbn.
  intros H E. rewrite E in H. inversion H. reflexivity.
Qed.

Lemma main_with_wallet (input a owner : jsstring) (w : World) :
  input <> [] ->
  extractVaultAddress input = Some a ->
  walletOwner (disk w) owner ->
  exists disk',
    main isPublicKey ledger input w
    = if isPublicKey a then
        match fst (run (getMultisigAccount ledger (mkPublicKey a))) with
        | None =>
            (VAULT_NOT_FOUND a,
             {| disk := disk'; requests := requests w ++ [ReadMultisig a];
                registry := registry w |})
        | Some vaultInfo =>
            if some (fun m => streq (Multisig.publicKey m) owner) (members vaultInfo)
            then
              if some (fun e => streq (MultisigStorage.multisigPda e)
                                      (Multisig.address vaultInfo))
                      (MultisigStorage.getStoredMultisigsAsync owner (registry w))
              then (Success true (Multisig.address vaultInfo),
                    {| disk := disk'; requests := requests w ++ [ReadMultisig a];
                       registry := registry w |})
              else (Success false (Multisig.address vaultInfo),
                    {| disk := disk'; requests := requests w ++ [ReadMultisig a];
                       registry :=
                         MultisigStorage.saveMultisigAddressAsync owner
                           (Multisig.address vaultInfo) (Multisig.createKey vaultInfo)
                           (registry w) |})
            else (NOT_A_MEMBER owner,
                  {| disk := disk'; requests := requests w ++ [ReadMultisig a];
                     registry := registry w |})
        end
      else (IMPORT_FAILED InvalidPublicKeyInput,
            {| disk := disk'; requests := requests w; registry := registry w |}).
Proof.
  intros Hin Hex (walletData & Hfile & Hpk & Hne).
  unfold main. destruct input as [| c0 input0]; [congruence |].
  rewrite Hex. unfold Wallet.getAddress. rewrite WalletFacts.get_fresh, Hfile.
  cbn [Wallet.ar_success Wallet.ar_address]. rewrite Hpk.
  destruct owner as [| c rest]; [congruence |].
  eexists. destruct (isPublicKey a); [| reflexivity].
  cbn [requests disk registry].
  rewrite getMultisigAccount_run.
  destruct (fst (run (getMultisigAccount ledger (mkPublicKey a)))) as [vaultInfo |];
    reflexivity.
Qed.

End Main.

(** A keystore holding the wallet [So111..], an empty registry under
    Node.js and a cluster without any vault. *)
Definition ownerDisk : Storage.Disk Wallet.WalletData :=
  {| Storage.files :=
       {[ Wallet.WALLET_KEY :=
            {| Wallet.name := js "Main";
               Wallet.publicKey := js "So11111111111111111111111111111111111111112";
               Wallet.encryptedSecretKey := js "blob";
               Wallet.createdAt := 0 |} ]};
     Storage.indexFile := Some [Wallet.WALLET_KEY];
     Storage.calls := [] |}.

Definition ownerWorld : World :=
  {| disk := ownerDisk; requests := []; registry := MultisigStorage.fresh false |}.

Definition emptyLedger : Ledger :=
  {| multisigAt := fun _ => None; proposalAt := fun _ => None |}.

(** Thirty-two base58 digits that decode to 23 bytes, not 32. *)
Definition shortKey : jsstring := js "22222222222222222222222222222222".

(** C7, as stated, does not hold: an input from which an address is
    extracted, naming no vault on chain, need not end in the not-found
    error.  When the extracted string is not a public key
    ([new PublicKey] throws), the import ends in the generic failure. *)
Lemma extracted_address_may_fail_generically :
  ~ (forall (ledger : Ledger) (input a owner : jsstring) (w : World),
        input <> [] ->
        extractVaultAddress input = Some a ->
        walletOwner (disk w) owner ->
        multisigAt ledger a = None ->
        fst (main Web3.isPublicKey ledger input w) = VAULT_NOT_FOUND a).
Proof.
  intros H.
  specialize (H emptyLedger shortKey shortKey
                (js "So11111111111111111111111111111111111111112") ownerWorld).
  assert (K : fst (main Web3.isPublicKey emptyLedger shortKey ownerWorld)
              = IMPORT_FAILED InvalidPublicKeyInput) by (vm_compute; reflexivity).
  rewrite H in K.
  - discriminate K.
  - discriminate.
  - vm_compute. reflexivity.
  - eexists. split; [reflexivity |]. split; [reflexivity | discriminate].
  - reflexivity.
Qed.

(** C7, amended: the import takes a raw vault address or a share link.
    What it extracts is pinned: when the trimmed input is a base58 string
    of 32 to 44 characters, that string; otherwise what the pattern
    captures at the first place where it matches, the longest run of at
    most 44 base58 characters after [/vault/]; and nothing when neither
    applies.  An empty input and an input from which nothing is extracted
    are rejected with nothing read, requested or stored.  Once an address
    is extracted: if no wallet is stored the import fails generically, and
    if the stored wallet has no address it reports that there is no wallet,
    in both cases before any request; with a wallet, if the extracted
    string is not a public key the import fails generically, again before
    any request; if no vault is found there it fails with the not-found
    error; if the owner is not among the vault's members it fails with the
    not-a-member error; otherwise it succeeds and the vault is in the
    owner's stored list: appended with its create key, or, if it was listed
    already, reported as such with the registry unchanged.  The vault is
    read once, and no failure changes the registry. *)
Theorem import_by_address_or_link
  (isPublicKey : jsstring -> bool) (ledger : Ledger) (input : jsstring) (w : World) :
  let r := main isPublicKey ledger input w in
  (forall a, extractVaultAddress input = Some a
             <-> (isDirectAddress (trim input) = true /\ a = trim input)
                 \/ exists pre post, firstCapture (trim input) pre a post)
  /\ (extractVaultAddress input = None
      <-> isDirectAddress (trim input) = false
          /\ forall pre a post, ~ capturedAt (trim input) pre a post)
  /\ (input = [] -> r = (INPUT_REQUIRED, w))
  /\ (input <> [] -> extractVaultAddress input = None -> r = (INVALID_INPUT, w))
  /\ (forall a,
         input <> [] ->
         extractVaultAddress input = Some a ->
         (Storage.files (disk w) !! Wallet.WALLET_KEY = None ->
          fst r = IMPORT_FAILED NoWalletThrown
          /\ requests (snd r) = requests w /\ registry (snd r) = registry w)
         /\ (forall walletData,
                Storage.files (disk w) !! Wallet.WALLET_KEY = Some walletData ->
                Wallet.publicKey walletData = [] ->
                fst r = NO_WALLET
                /\ requests (snd r) = requests w /\ registry (snd r) = registry w)
         /\ (forall owner,
                walletOwner (disk w) owner ->
                (isPublicKey a = false ->
                 fst r = IMPORT_FAILED InvalidPublicKeyInput
                 /\ requests (snd r) = requests w /\ registry (snd r) = registry w)
                /\ (isPublicKey a = true -> multisigAt ledger a = None ->
                    fst r = VAULT_NOT_FOUND a
                    /\ requests (snd r) = requests w ++ [ReadMultisig a]
                    /\ registry (snd r) = registry w)
                /\ (forall account,
                       isPublicKey a = true -> multisigAt ledger a = Some account ->
                       ~ In owner (memberAddresses account) ->
                       fst r = NOT_A_MEMBER owner
                       /\ requests (snd r) = requests w ++ [ReadMultisig a]
                       /\ registry (snd r) = registry w)
                /\ (forall account,
                       isPublicKey a = true -> multisigAt ledger a = Some account ->
                       In owner (memberAddresses account) ->
                       let stored :=
                         MultisigStorage.getStoredMultisigsAsync owner (registry w) in
                       requests (snd r) = requests w ++ [ReadMultisig a]
                       /\ In a (map MultisigStorage.multisigPda
                                   (MultisigStorage.getStoredMultisigsAsync owner
                                      (registry (snd r))))
                       /\ (In a (map MultisigStorage.multisigPda stored) ->
                           fst r = Success true a /\ registry (snd r) = registry w)
                       /\ (~ In a (map MultisigStorage.multisigPda stored) ->
                           fst r = Success false a
                           /\ MultisigStorage.getStoredMultisigsAsync owner
                                (registry (snd r))
                              = stored
                                ++ [{| MultisigStorage.multisigPda := a;
                                       MultisigStorage.createKey :=
                                         toBase58 (acc_createKey account) |}])))).
Proof.
  intros r.
  split; [exact (extractVaultAddress_pinned input) |].
  split; [exact (extractVaultAddress_None input) |].
  split; [intros ->; reflexivity |].
  split.
  { intros Hin Hex. subst r. unfold main.
    destruct input as [| c0 input0]; [congruence |]. rewrite Hex. reflexivity. }
  intros a Hin Hex.
  split; [| split].
  { intros Hnone. subst r. unfold main.
    destruct input as [| c0 input0]; [congruence |].
    rewrite Hex. unfold Wallet.getAddress. rewrite WalletFacts.get_fresh, Hnone.
    repeat split. }
  { intros walletData Hfile Hempty. subst r. unfold main.
    destruct input as [| c0 input0]; [congruence |].
    rewrite Hex. unfold Wallet.getAddress. rewrite WalletFacts.get_fresh, Hfile.
    cbn [Wallet.ar_success Wallet.ar_address]. rewrite Hempty. repeat split. }
  intros owner Howner.
  destruct (main_with_wallet isPublicKey ledger input a owner w Hin Hex Howner)
    as [disk' Hmain].
  subst r. rewrite Hmain. clear Hmain.
  assert (Hnone : multisigAt ledger a = None ->
                  fst (run (getMultisigAccount ledger (mkPublicKey a))) = None).
  { unfold run, getMultisigAccount, bind, ret, Multisig_fromAccountAddress. cbn.
    intros ->. reflexivity. }
  assert (Hsome : forall account, multisigAt ledger a = Some account ->
                  exists vaultInfo,
                    fst (run (getMultisigAccount ledger (mkPublicKey a))) = Some vaultInfo).
  { unfold run, getMultisigAccount, bind, ret, Multisig_fromAccountAddress. cbn.
    intros account ->. eauto. }
  split; [| split; [| split]].
  - intros ->. auto.
  - intros -> Habsent. rewrite (Hnone Habsent). auto.
  - intros account -> Hacc Hnot.
    destruct (Hsome account Hacc) as [vaultInfo E]. rewrite E.
    destruct (isMember_In ledger owner a account vaultInfo E Hacc) as [_ Hmem].
    destruct (some _ (members vaultInfo)) eqn:M; [tauto | auto].
  - intros account -> Hacc Hmember stored.
    destruct (Hsome account Hacc) as [vaultInfo E]. rewrite E.
    destruct (isMember_In ledger owner a account vaultInfo E Hacc) as [Haddr Hmem].
    rewrite (vaultInfo_createKey ledger a account vaultInfo E Hacc).
    apply Hmem in Hmember. rewrite Hmember, Haddr.
    pose proof (RegistryFacts.some_refersTo_In a stored) as Hlisted.
    pose proof (RegistryFacts.getWith_saveWith
                  MultisigStorage.loadData MultisigStorage.saveData
                  RegistryFacts.loadData_saveData owner a
                  (toBase58 (acc_createKey account)) (registry w)) as Hsave.
    fold MultisigStorage.getStoredMultisigsAsync in Hsave.
    fold MultisigStorage.saveMultisigAddressAsync in Hsave.
    subst stored.
    set (stored := MultisigStorage.getStoredMultisigsAsync owner (registry w)) in *.
    change (some (fun e => streq (MultisigStorage.multisigPda e) a) stored)
      with (some (RegistryFacts.refersTo a) stored).
    destruct (some (RegistryFacts.refersTo a) stored) eqn:S.
    + cbn [fst snd registry requests]. split; [reflexivity |].
      split; [apply Hlisted; reflexivity |].
      split; [intros _; split; reflexivity |].
      intros Hnot. exfalso. apply Hnot, Hlisted. reflexivity.
    + cbn [fst snd registry requests]. split; [reflexivity |].
      split.
      { apply RegistryFacts.some_refersTo_In.
        apply (RegistryFacts.some_after_saveWith
                 MultisigStorage.loadData MultisigStorage.saveData
                 RegistryFacts.loadData_saveData). }
      split.
      { intros Hyes. apply Hlisted in Hyes. discriminate Hyes. }
      intros _. split; [reflexivity | exact Hsave].
Qed.

(** A vault at [Tokenkeg..] whose members are [So111..] and [1111..]. *)
Definition vaultLedger : Ledger :=
  {| multisigAt := fun a =>
       if streq a (js "TokenkegQfeZyiNwAJbNbGKPFXCWuBvf9Ss623VQ5DA")
       then Some {| acc_createKey := mkPublicKey (js "SQDS4ep65T869zMMBKyuUq6aD6EgTu8psMjkvj52pCf");
                    acc_threshold := 2;
                    acc_members :=
                      [ {| key := mkPublicKey (js "So11111111111111111111111111111111111111112");
                           mask := 7 |};
                        {| key := mkPublicKey (js "11111111111111111111111111111111");
                           mask := 2 |} ];
                    acc_transactionIndex := 3;
                    acc_staleTransactionIndex := 0 |}
       else None;
     proposalAt := fun _ => None |}.

Example extract_from_proposal_link :
  extractVaultAddress
    (js "  https://app.com/vault/TokenkegQfeZyiNwAJbNbGKPFXCWuBvf9Ss623VQ5DA/proposal/3 ")
  = Some (js "TokenkegQfeZyiNwAJbNbGKPFXCWuBvf9Ss623VQ5DA")
  /\ extractVaultAddress (js "TokenkegQfeZyiNwAJbNbGKPFXCWuBvf9Ss623VQ5DA")
     = Some (js "TokenkegQfeZyiNwAJbNbGKPFXCWuBvf9Ss623VQ5DA")
  /\ extractVaultAddress (js "https://app.com/vault/tooShort") = None.
Proof. vm_compute. repeat split; reflexivity. Qed.

Example import_by_link_then_again :
  let link := js "https://app.com/vault/TokenkegQfeZyiNwAJbNbGKPFXCWuBvf9Ss623VQ5DA" in
  let first := main Web3.isPublicKey vaultLedger link ownerWorld in
  let second := main Web3.isPublicKey vaultLedger link (snd first) in
  fst first = Success false (js "TokenkegQfeZyiNwAJbNbGKPFXCWuBvf9Ss623VQ5DA")
  /\ fst second = Success true (js "TokenkegQfeZyiNwAJbNbGKPFXCWuBvf9Ss623VQ5DA")
  /\ MultisigStorage.getStoredMultisigsAsync
       (js "So11111111111111111111111111111111111111112") (registry (snd second))
     = [ {| MultisigStorage.multisigPda := js "TokenkegQfeZyiNwAJbNbGKPFXCWuBvf9Ss623VQ5DA";
            MultisigStorage.createKey := js "SQDS4ep65T869zMMBKyuUq6aD6EgTu8psMjkvj52pCf" |} ]
  /\ fst (main Web3.isPublicKey vaultLedger
            (js "11111111111111111111111111111111") ownerWorld)
     = VAULT_NOT_FOUND (js "11111111111111111111111111111111").
Proof. vm_compute. repeat split; reflexivity. Qed.

End ImportFacts.

(** ** The storage adapter as a map *)

Module StorageFacts.

Import Storage.

Module Q := StorageQueries.

Section WithValues.

Variable T : Type.

Lemma ensureInitialized_files (this : FileStorage) (d : Disk T) :
  files (ensureInitialized T this d).2 = files d.
Proof.
  unfold ensureInitialized. destruct (initialized this); [reflexivity|].
  cbn. destruct (indexFile d); reflexivity.
Qed.

Lemma ensureInitialized_indexFile (this : FileStorage) (d : Disk T) :
  indexFile (ensureInitialized T this d).2 = indexFile d.
Proof.
  unfold ensureInitialized. destruct (initialized this); [reflexivity|].
  cbn. destruct (indexFile d) eqn:E; cbn; now rewrite E.
Qed.

Lemma ensureInitialized_initialized (this : FileStorage) (d : Disk T) :
  initialized (ensureInitialized T this d).1 = true.
Proof.
  unfold ensureInitialized. destruct (initialized this) eqn:E; [exact E|].
  cbn. destruct (indexFile d); reflexivity.
Qed.

Lemma get_reads_file (this : FileStorage) (key : jsstring) (d : Disk T) :
  (get T this key d).1.1 = files d !! key.
Proof.
  unfold get. pose proof (ensureInitialized_files this d) as H.
  destruct (ensureInitialized T this d) as [this' d']. cbn in *. now rewrite H.
Qed.

Lemma files_after_set (this : FileStorage) (key : jsstring) (value : T) (d : Disk T) :
  files (set T this key value d).2 = <[key := value]> (files d).
Proof.
  unfold set. pose proof (ensureInitialized_files this d) as H.
  destruct (ensureInitialized T this d) as [this' d']. cbn in *.
  destruct (includes (index this') key); cbn; now rewrite H.
Qed.

Lemma files_after_remove (this : FileStorage) (key : jsstring) (d : Disk T) :
  files (remove T this key d).2 = delete key (files d).
Proof.
  unfold remove. pose proof (ensureInitialized_files this d) as H.
  destruct (ensureInitialized T this d) as [this' d']. cbn in *.
  destruct (includes (index this') key); cbn; now rewrite H.
Qed.

(** The directory is consistent when the index file lists exactly the keys
    that have a file (no index file: no files). *)
Definition diskOk (d : Disk T) : Prop :=
  match indexFile d with
  | Some keys => forall k, In k keys <-> is_Some (files d !! k)
  | None => files d = ∅
  end.


Lemma fold_Set_add_NoDup (keys s : list jsstring) :
  List.NoDup s -> List.NoDup (fold_left Set_add keys s).
Proof.
  revert s. induction keys as [|k keys IH]; intros s Hs; cbn; [exact Hs|].
  apply IH. now apply CreateVaultFacts.Set_add_NoDup.
Qed.

Lemma Set_add_member (s : list jsstring) (x y : jsstring) :
  In y (Set_add s x) <-> In y s \/ y = x.
Proof.
  unfold Set_add. destruct (includes s x) eqn:E.
  - apply VoteFacts.includes_In in E. split; [tauto | intros [H | ->]; assumption].
  - rewrite in_app_iff. simpl. intuition congruence.
Qed.

Lemma fold_Set_add_In (keys s : list jsstring) (x : jsstring) :
  In x (fold_left Set_add keys s) <-> In x s \/ In x keys.
Proof.
  revert s. induction keys as [|k keys IH]; intros s; cbn; [tauto|].
  rewrite IH, Set_add_member. intuition congruence.
Qed.












(** X4.  After [clear] nothing is stored: every key reads as [null] through
    any object, the object that cleared has no key, and another one starts
    from an empty index. *)
Theorem clear_empties (this reader : FileStorage) (d : Disk T) (key : jsstring) :
  let state := Q.clear T this d in
  (get T reader key state.2).1.1 = None
  /\ (Q.has T state.1 key state.2).1.1 = false
  /\ (Q.list T state.1 state.2).1.1 = []
  /\ (Q.list T newFileStorage state.2).1.1 = []
  /\ diskOk state.2.
Proof.
  pose proof (ensureInitialized_initialized this d) as Hinit.
  unfold Q.clear. destruct (ensureInitialized T this d) as [this' d']. cbn in Hinit.
  cbn. rewrite get_reads_file. cbn.
  unfold Q.has, Q.list, ensureInitialized. cbn. rewrite Hinit. cbn.
  repeat split.
Qed.

End WithValues.

Section FilePaths.

Variable base64url : list byte -> jsstring.
Hypothesis base64url_injective : forall a b, base64url a = base64url b -> a = b.



End FilePaths.




(** A directory holding two values, and the calls replayed on it. *)
Definition twoFiles : Disk Z :=
  {| files := <[js "a" := 1]> (<[js "b" := 2]> ∅);
     indexFile := Some [js "a"; js "b"];
     calls := [] |}.

Definition sampleCalls : list (Q.Op Z) :=
  [Q.OpRemove Z (js "a"); Q.OpSet Z (js "c") 3; Q.OpHas Z (js "b")].




Example storage_replay :
  let state :=
    fold_left (Q.perform Z) sampleCalls (newFileStorage, twoFiles) in
  (Q.list Z state.1 state.2).1.1 = [js "b"; js "c"]
  /\ indexFile state.2 = Some [js "b"; js "c"].
Proof. split; reflexivity. Qed.

End StorageFacts.

(** ** The wallet scripts *)

Module WalletCliFacts.

Import Errors Storage Wallet WalletCli.

Lemma truthy_true (s : jsstring) : truthy s = true <-> s <> [].
Proof. destruct s; cbn; split; congruence. Qed.

Lemma checkStatus_run (d : Disk WalletData) :
  files (checkStatus d).2 = files d
  /\ (checkStatus d).1
     = match files d !! WALLET_KEY with
       | Some walletData =>
           {| exists_ := true; ws_name := Some (name walletData);
              ws_publicKey := Some (publicKey walletData);
              ws_createdAt := Some (createdAt walletData) |}
       | None =>
           {| exists_ := false; ws_name := None; ws_publicKey := None;
              ws_createdAt := None |}
       end.
Proof.
  unfold checkStatus. rewrite WalletFacts.get_fresh.
  destruct (files d !! WALLET_KEY); split; reflexivity.
Qed.

Lemma deleteWallet_run (d : Disk WalletData) :
  match files d !! WALLET_KEY with
  | Some _ =>
      (deleteWallet d).1 = inr true
      /\ files (deleteWallet d).2 = delete WALLET_KEY (files d)
  | None =>
      (deleteWallet d).1 = inl NoWalletError /\ files (deleteWallet d).2 = files d
  end.
Proof.
  unfold deleteWallet. rewrite WalletFacts.get_fresh.
  destruct (files d !! WALLET_KEY); [|split; reflexivity].
  match goal with
  | |- context [remove WalletData ?st ?k ?dd] =>
      pose proof (StorageFacts.files_after_remove WalletData st k dd) as H;
      destruct (remove WalletData st k dd) as [st' d']
  end.
  split; [reflexivity | exact H].
Qed.

Lemma getAddress_run (d : Disk WalletData) :
  files (getAddress d).2 = files d
  /\ (getAddress d).1
     = match files d !! WALLET_KEY with
       | Some walletData =>
           inr {| ar_success := true; ar_address := Some (publicKey walletData);
                  ar_name := Some (name walletData) |}
       | None => inl NoWalletError
       end.
Proof.
  unfold getAddress. rewrite WalletFacts.get_fresh.
  destruct (files d !! WALLET_KEY); split; reflexivity.
Qed.

(** The parsers set a flag only when it occurs among the arguments. *)
Lemma parseCreateArgs_force (args : list jsstring) :
  (forall acc, force (parseCreateArgs args acc) = true ->
               force acc = true \/ In (js "--force") args)
  /\ (forall a acc, force (parseCreateArgs (a :: args) acc) = true ->
                    force acc = true \/ In (js "--force") (a :: args)).
Proof.
  induction args as [|v rest [IH1 IH2]].
  - split; [cbn; tauto|]. intros a acc. cbn [parseCreateArgs].
    destruct (streq a (js "--force")) eqn:E; [|tauto].
    apply MultisigFacts.streq_true in E. subst a. intros _. right. now left.
  - split; [exact (IH2 v)|]. intros a acc. cbn [parseCreateArgs].
    destruct (streq a (js "--name") && truthy v).
    { intros H. apply IH1 in H. cbn [force] in H. destruct H as [H|H]; [now left|].
      right. right. now right. }
    destruct (streq a (js "--password") && truthy v).
    { intros H. apply IH1 in H. cbn [force] in H. destruct H as [H|H]; [now left|].
      right. right. now right. }
    destruct (streq a (js "--force")) eqn:E.
    { apply MultisigFacts.streq_true in E. subst a. intros _. right. now left. }
    intros H. apply IH2 in H. destruct H as [H|H]; [now left | right; now right].
Qed.

Lemma parseUnlockArgs_showSecret (args : list jsstring) :
  (forall acc, showSecret (parseUnlockArgs args acc) = true ->
               showSecret acc = true \/ In (js "--show-secret") args)
  /\ (forall a acc, showSecret (parseUnlockArgs (a :: args) acc) = true ->
                    showSecret acc = true \/ In (js "--show-secret") (a :: args)).
Proof.
  induction args as [|v rest [IH1 IH2]].
  - split; [cbn; tauto|]. intros a acc. cbn [parseUnlockArgs].
    destruct (streq a (js "--show-secret")) eqn:E; [|tauto].
    apply MultisigFacts.streq_true in E. subst a. intros _. right. now left.
  - split; [exact (IH2 v)|]. intros a acc. cbn [parseUnlockArgs].
    destruct (streq a (js "--password") && truthy v).
    { intros H. apply IH1 in H. cbn [showSecret] in H. destruct H as [H|H]; [now left|].
      right. right. now right. }
    destruct (streq a (js "--show-secret")) eqn:E.
    { apply MultisigFacts.streq_true in E. subst a. intros _. right. now left. }
    intros H. apply IH2 in H. destruct H as [H|H]; [now left | right; now right].
Qed.

Section Create.

Variable encrypt : jsstring -> jsstring -> jsstring.

(** X5.  Unless [--force] is among its arguments, the create script leaves
    a stored wallet as it is, whatever else it is given: it stops with the
    missing-arguments message or with the [WALLET_EXISTS] warning that
    names the stored wallet. *)
Theorem create_without_force_keeps_wallet (args : list jsstring) (keypair : Keypair)
  (now : Z) (d : Disk WalletData) (stored : WalletData)
  (Hforce : ~ In (js "--force") args)
  (Hstored : files d !! WALLET_KEY = Some stored) :
  let r := createMain encrypt args keypair now d in
  files r.2 = files d
  /\ (r.1 = MissingArguments
      \/ r.1 = WALLET_EXISTS (Some (publicKey stored)) (Some (name stored))).
Proof.
  cbn zeta. unfold createMain.
  assert (Hf : force (createParseArgs args) = false).
  { destruct (force (createParseArgs args)) eqn:E; [|reflexivity].
    apply (proj1 (parseCreateArgs_force args)) in E. cbn [force] in E.
    destruct E; [discriminate | contradiction]. }
  destruct (negb (truthy (arg_name (createParseArgs args)))
            || negb (truthy (arg_password (createParseArgs args)))).
  { split; [reflexivity | now left]. }
  destruct (checkStatus_run d) as [Hfiles Hstatus].
  destruct (checkStatus d) as [existing d1]. cbn [fst snd] in *.
  rewrite Hstored in Hstatus. subst existing. cbn [exists_ ws_publicKey ws_name].
  rewrite Hf. cbn. split; [exact Hfiles | now right].
Qed.

(** X6.  With [--force] the stored wallet is deleted before the new
    password is looked at: a password of fewer than 8 code units ends in
    [WeakPasswordError] with no wallet left, and an acceptable one leaves
    the new wallet in place of the old. *)
Theorem create_with_force_replaces_or_loses_wallet (args : list jsstring)
  (name password : jsstring) (keypair : Keypair) (now : Z)
  (d : Disk WalletData) (stored : WalletData)
  (Hargs : createParseArgs args
           = {| arg_name := name; arg_password := password; force := true |})
  (Hname : name <> []) (Hpassword : password <> [])
  (Hstored : files d !! WALLET_KEY = Some stored) :
  let r := createMain encrypt args keypair now d in
  if Z.of_nat (length password) <? 8 then
    r.1 = CreateFailed (WeakPasswordError 8)
    /\ files r.2 = delete WALLET_KEY (files d)
  else
    r.1 = Created (Some (toBase58 (kp_publicKey keypair))) (Some name)
    /\ files r.2
       = <[WALLET_KEY :=
             {| Wallet.name := name;
                publicKey := toBase58 (kp_publicKey keypair);
                encryptedSecretKey := encrypt (stringifyBytes (secretKey keypair)) password;
                createdAt := now |}]> (files d).
Proof.
  cbn zeta. unfold createMain. rewrite Hargs. cbn [arg_name arg_password force].
  apply truthy_true in Hname, Hpassword. rewrite Hname, Hpassword. cbn [negb orb].
  destruct (checkStatus_run d) as [Hfiles Hstatus].
  destruct (checkStatus d) as [existing d1]. cbn [fst snd] in *.
  rewrite Hstored in Hstatus. subst existing. cbn [exists_ negb].
  pose proof (deleteWallet_run d1) as Hdel. rewrite Hfiles, Hstored in Hdel.
  destruct (deleteWallet d1) as [deleted d2]. cbn [fst snd] in Hdel.
  destruct Hdel as [-> Hfiles2].
  unfold createWallet, MIN_PASSWORD_LENGTH.
  destruct (Z.of_nat (length password) <? 8); [split; [reflexivity | exact Hfiles2]|].
  rewrite WalletFacts.get_fresh. rewrite Hfiles2, lookup_delete_eq.
  match goal with
  | |- context [set WalletData ?st ?k ?v ?dd] =>
      pose proof (StorageFacts.files_after_set WalletData st k v dd) as Hset;
      destruct (set WalletData st k v dd) as [st' d3]
  end.
  cbn [fst snd] in *. split; [reflexivity|].
  rewrite Hset. cbn [files]. apply insert_delete_eq.
Qed.

End Create.

Section Unlock.

Variable encrypt : jsstring -> jsstring -> jsstring.
Variable decrypt : jsstring -> jsstring -> option jsstring.
Variable JsValue : Type.
Variable JSON_parse : jsstring -> option JsValue.
Variable Uint8Array_from : JsValue -> option (list byte).
Variable Keypair_fromSecretKey : list byte -> option Keypair.

Lemma unlockWallet_files (password : jsstring) (d : Disk WalletData) :
  files (unlockWallet decrypt JsValue JSON_parse Uint8Array_from
           Keypair_fromSecretKey password d).2 = files d.
Proof.
  unfold unlockWallet. rewrite WalletFacts.get_fresh.
  destruct (files d !! WALLET_KEY); [|reflexivity].
  destruct (unlockWallet_try _ _ _ _ _ _ _); reflexivity.
Qed.

Lemma unlockWallet_indexFile (password : jsstring) (d : Disk WalletData) :
  indexFile (unlockWallet decrypt JsValue JSON_parse Uint8Array_from
               Keypair_fromSecretKey password d).2 = indexFile d.
Proof.
  unfold unlockWallet. rewrite WalletFacts.get_fresh.
  destruct (files d !! WALLET_KEY); [|reflexivity].
  destruct (unlockWallet_try _ _ _ _ _ _ _); reflexivity.
Qed.

(** X7.  Whatever its arguments, the unlock script changes no stored file,
    neither a key file nor the index; and it prints the secret key, in
    either form, only when [--show-secret] is among its arguments. *)
Theorem unlock_shows_secret_only_on_request (args : list jsstring)
  (d : Disk WalletData) :
  let r := unlockMain decrypt JsValue JSON_parse Uint8Array_from
             Keypair_fromSecretKey args d in
  files r.2 = files d
  /\ indexFile r.2 = indexFile d
  /\ (~ In (js "--show-secret") args ->
      forall output, r.1 = Unlocked JsValue output ->
        out_secretKey JsValue output = None
        /\ out_secretKeyArray JsValue output = None
        /\ out_warning JsValue output = false).
Proof.
  cbn zeta. unfold unlockMain.
  destruct (negb (truthy (unlock_password (unlockParseArgs args)))).
  { split; [reflexivity |]. split; [reflexivity |]. intros _ output H. discriminate. }
  pose proof (unlockWallet_files (unlock_password (unlockParseArgs args)) d) as Hfiles.
  pose proof (unlockWallet_indexFile (unlock_password (unlockParseArgs args)) d) as Hindex.
  destruct (unlockWallet _ _ _ _ _ _ _) as [[e|result] d1]; cbn [fst snd] in *.
  { split; [exact Hfiles |]. split; [exact Hindex |]. intros _ output H. discriminate. }
  split; [exact Hfiles |]. split; [exact Hindex |].
  intros Hflag output H. injection H as <-.
  assert (Hs : showSecret (unlockParseArgs args) = false).
  { destruct (showSecret (unlockParseArgs args)) eqn:E; [|reflexivity].
    apply (proj1 (parseUnlockArgs_showSecret args)) in E. cbn [showSecret] in E.
    destruct E; [discriminate | contradiction]. }
  rewrite Hs. cbn. repeat split.
Qed.

(** X9.  A wallet created under a password of at least 8 code units is the
    wallet the other functions find: with the same password [unlockWallet]
    and [getKeypair] return the key pair it was created from, and
    [getAddress] and [checkStatus] its address and name - provided the
    cipher opens what it sealed and the platform parses the secret key's
    JSON back into its bytes. *)
Theorem created_wallet_unlocks (name password : jsstring) (keypair : Keypair)
  (now : Z) (d : Disk WalletData) (parsed : JsValue)
  (Hpassword : 8 <= Z.of_nat (length password))
  (Hnone : files d !! WALLET_KEY = None)
  (Hcipher : decrypt (encrypt (stringifyBytes (secretKey keypair)) password) password
             = Some (stringifyBytes (secretKey keypair)))
  (Hparse : JSON_parse (stringifyBytes (secretKey keypair)) = Some parsed)
  (Hbytes : Uint8Array_from parsed = Some (secretKey keypair))
  (Hkeypair : Keypair_fromSecretKey (secretKey keypair) = Some keypair) :
  let d1 := (createWallet encrypt name password keypair now d).2 in
  (unlockWallet decrypt JsValue JSON_parse Uint8Array_from Keypair_fromSecretKey
     password d1).1
  = inr {| uw_success := true;
           uw_publicKey := toBase58 (kp_publicKey keypair);
           uw_secretKey := secretKeyToBase58 (secretKey keypair);
           secretKeyArray := parsed;
           uw_name := name |}
  /\ (getKeypair decrypt JsValue JSON_parse Uint8Array_from Keypair_fromSecretKey
        password d1).1 = inr keypair
  /\ (getAddress d1).1
     = inr {| ar_success := true;
              ar_address := Some (toBase58 (kp_publicKey keypair));
              ar_name := Some name |}
  /\ exists_ (checkStatus d1).1 = true.
Proof.
  cbn zeta.
  assert (Hfile : files (createWallet encrypt name password keypair now d).2 !! WALLET_KEY
                  = Some {| Wallet.name := name;
                            publicKey := toBase58 (kp_publicKey keypair);
                            encryptedSecretKey :=
                              encrypt (stringifyBytes (secretKey keypair)) password;
                            createdAt := now |}).
  { unfold createWallet, MIN_PASSWORD_LENGTH.
    apply Z.ltb_ge in Hpassword. rewrite Hpassword, WalletFacts.get_fresh, Hnone.
    match goal with
    | |- context [set WalletData ?st ?k ?v ?dd] =>
        pose proof (StorageFacts.files_after_set WalletData st k v dd) as Hset;
        destruct (set WalletData st k v dd) as [st' d3]
    end.
    cbn [fst snd] in *. rewrite Hset. apply lookup_insert_eq. }
  set (d1 := (createWallet encrypt name password keypair now d).2) in *.
  repeat split.
  - unfold unlockWallet. rewrite WalletFacts.get_fresh, Hfile.
    unfold unlockWallet_try. cbn [encryptedSecretKey Wallet.name].
    rewrite Hcipher, Hparse, Hbytes, Hkeypair. reflexivity.
  - unfold getKeypair. rewrite WalletFacts.get_fresh, Hfile.
    unfold getKeypair_try. cbn [encryptedSecretKey].
    rewrite Hcipher, Hparse, Hbytes, Hkeypair. reflexivity.
  - rewrite (proj2 (getAddress_run d1)), Hfile. reflexivity.
  - rewrite (proj2 (checkStatus_run d1)), Hfile. reflexivity.
Qed.

(** X10.  Once [deleteWallet] has run, whether it deleted a wallet or
    threw [NoWalletError], no function finds a wallet, and [createWallet]
    accepts any password of at least 8 code units. *)
Theorem no_wallet_after_delete (password name : jsstring) (keypair : Keypair)
  (now : Z) (d : Disk WalletData) :
  let d1 := (deleteWallet d).2 in
  (getAddress d1).1 = inl NoWalletError
  /\ (unlockWallet decrypt JsValue JSON_parse Uint8Array_from Keypair_fromSecretKey
        password d1).1 = inl NoWalletError
  /\ (getKeypair decrypt JsValue JSON_parse Uint8Array_from Keypair_fromSecretKey
        password d1).1 = inl NoWalletError
  /\ exists_ (checkStatus d1).1 = false
  /\ (deleteWallet d1).1 = inl NoWalletError
  /\ (8 <= Z.of_nat (length password) ->
      (createWallet encrypt name password keypair now d1).1
      = inr {| success := true;
               address := Some (toBase58 (kp_publicKey keypair));
               cw_name := Some name; error := None |}).
Proof.
  cbn zeta.
  assert (Hnone : files (deleteWallet d).2 !! WALLET_KEY = None).
  { pose proof (deleteWallet_run d) as H.
    destruct (files d !! WALLET_KEY) eqn:E; destruct H as [_ ->].
    - apply lookup_delete_eq.
    - exact E. }
  set (d1 := (deleteWallet d).2) in *.
  repeat split.
  - rewrite (proj2 (getAddress_run d1)), Hnone. reflexivity.
  - unfold unlockWallet. rewrite WalletFacts.get_fresh, Hnone. reflexivity.
  - unfold getKeypair. rewrite WalletFacts.get_fresh, Hnone. reflexivity.
  - rewrite (proj2 (checkStatus_run d1)), Hnone. reflexivity.
  - pose proof (deleteWallet_run d1) as H. rewrite Hnone in H. apply H.
  - intros Hpassword. unfold createWallet, MIN_PASSWORD_LENGTH.
    apply Z.ltb_ge in Hpassword. rewrite Hpassword, WalletFacts.get_fresh, Hnone.
    destruct (set _ _ _ _ _). reflexivity.
Qed.

End Unlock.

(** X8.  The delete script touches nothing, not even reading the
    directory, unless [--confirm] is among its arguments; with it, a stored
    wallet is removed and reported by address and name, and an empty
    directory gives [NoWalletError]. *)
Theorem delete_requires_confirm (args : list jsstring) (d : Disk WalletData) :
  (~ In (js "--confirm") args -> deleteMain args d = (ConfirmRequired, d))
  /\ (In (js "--confirm") args ->
      match files d !! WALLET_KEY with
      | Some stored =>
          (deleteMain args d).1
          = Deleted (Some (publicKey stored)) (Some (name stored))
          /\ files (deleteMain args d).2 = delete WALLET_KEY (files d)
      | None =>
          (deleteMain args d).1 = DeleteFailed NoWalletError
          /\ files (deleteMain args d).2 = files d
      end).
Proof.
  unfold deleteMain. split; intros H.
  - apply VoteFacts.includes_not_In in H. rewrite H. reflexivity.
  - apply VoteFacts.includes_In in H. rewrite H. cbn [negb].
    destruct (getAddress_run d) as [Hfiles Hresult].
    destruct (getAddress d) as [addressInfo d1]. cbn [fst snd] in *.
    pose proof (deleteWallet_run d1) as Hdel. rewrite Hfiles in Hdel.
    destruct (files d !! WALLET_KEY) as [stored|]; subst addressInfo.
    + destruct (deleteWallet d1) as [deleted d2]. cbn [fst snd] in *.
      destruct Hdel as [-> Hfiles2]. split; [reflexivity | exact Hfiles2].
    + split; [reflexivity | exact Hfiles].
Qed.

(** A stored wallet on the stand-in cipher, and platform functions that
    read its secret key back. *)
Definition mainDisk : Disk WalletData :=
  (createWallet WalletFacts.standInEncrypt (js "Main") (js "correcthorsebattery")
     WalletFacts.sampleKeypair 1700000000000 WalletFacts.emptyDisk).2.

Definition mainWallet : WalletData :=
  {| name := js "Main";
     publicKey := js "So11111111111111111111111111111111111111112";
     encryptedSecretKey :=
       WalletFacts.standInEncrypt (stringifyBytes (secretKey WalletFacts.sampleKeypair))
         (js "correcthorsebattery");
     createdAt := 1700000000000 |}.

(** The numbers of a JSON array of non-negative integers written without
    spaces. *)
Fixpoint parseItems (s : jsstring) (cur : option Z) (acc : list Z) : option (list Z) :=
  match s with
  | [] => None
  | c :: s' =>
      if (48 <=? c) && (c <=? 57) then
        parseItems s' (Some (match cur with
                             | Some n => n * 10 + (c - 48)
                             | None => c - 48
                             end)) acc
      else if c =? 44 then
        match cur with
        | Some n => parseItems s' None (acc ++ [n])
        | None => None
        end
      else if c =? 93 then
        match cur, s' with
        | Some n, [] => Some (acc ++ [n])
        | _, _ => None
        end
      else None
  end.

Definition parseNumbers (text : jsstring) : option (list Z) :=
  match text with
  | 91 :: s => parseItems s None []
  | _ => None
  end.

Definition bytesOfNumbers (value : list Z) : option (list byte) :=
  Some (map byteOf value).

Definition sampleFromSecretKey (bytes : list byte) : option Keypair :=
  if List.list_eq_dec Byte.byte_eq_dec bytes (secretKey WalletFacts.sampleKeypair)
  then Some WalletFacts.sampleKeypair else None.

Lemma create_without_force_keeps_wallet_witness :
  let args := [js "--name"; js "Second"; js "--password"; js "anotherpassword"] in
  let r := createMain WalletFacts.standInEncrypt args WalletFacts.sampleKeypair
             1700000000001 mainDisk in
  files r.2 = files mainDisk
  /\ (r.1 = MissingArguments
      \/ r.1 = WALLET_EXISTS (Some (publicKey mainWallet)) (Some (name mainWallet))).
Proof.
  apply (create_without_force_keeps_wallet WalletFacts.standInEncrypt
           [js "--name"; js "Second"; js "--password"; js "anotherpassword"]
           WalletFacts.sampleKeypair 1700000000001 mainDisk mainWallet).
  - vm_compute. intuition discriminate.
  - vm_compute. reflexivity.
Defined.

Lemma create_with_force_replaces_or_loses_wallet_witness :
  let args := [js "--force"; js "--name"; js "Second"; js "--password"; js "short"] in
  let r := createMain WalletFacts.standInEncrypt args WalletFacts.sampleKeypair
             1700000000001 mainDisk in
  r.1 = CreateFailed (WeakPasswordError 8)
  /\ files r.2 = delete WALLET_KEY (files mainDisk).
Proof.
  apply (create_with_force_replaces_or_loses_wallet WalletFacts.standInEncrypt
           [js "--force"; js "--name"; js "Second"; js "--password"; js "short"]
           (js "Second") (js "short") WalletFacts.sampleKeypair 1700000000001
           mainDisk mainWallet).
  - vm_compute. reflexivity.
  - discriminate.
  - discriminate.
  - vm_compute. reflexivity.
Defined.

Lemma unlock_shows_secret_only_on_request_witness :
  let r := unlockMain WalletFacts.standInDecrypt (list Z) parseNumbers bytesOfNumbers
             sampleFromSecretKey [js "--password"; js "correcthorsebattery"] mainDisk in
  files r.2 = files mainDisk
  /\ indexFile r.2 = indexFile mainDisk
  /\ (~ In (js "--show-secret") [js "--password"; js "correcthorsebattery"] ->
      forall output, r.1 = Unlocked (list Z) output ->
        out_secretKey (list Z) output = None
        /\ out_secretKeyArray (list Z) output = None
        /\ out_warning (list Z) output = false).
Proof.
  exact (unlock_shows_secret_only_on_request WalletFacts.standInDecrypt (list Z)
           parseNumbers bytesOfNumbers sampleFromSecretKey
           [js "--password"; js "correcthorsebattery"] mainDisk).
Defined.

Lemma created_wallet_unlocks_witness :
  let d1 := (createWallet WalletFacts.standInEncrypt (js "Main")
               (js "correcthorsebattery") WalletFacts.sampleKeypair 1700000000000
               WalletFacts.emptyDisk).2 in
  (unlockWallet WalletFacts.standInDecrypt (list Z) parseNumbers bytesOfNumbers
     sampleFromSecretKey (js "correcthorsebattery") d1).1
  = inr {| uw_success := true;
           uw_publicKey := toBase58 (kp_publicKey WalletFacts.sampleKeypair);
           uw_secretKey := secretKeyToBase58 (secretKey WalletFacts.sampleKeypair);
           secretKeyArray := [1; 2; 255];
           uw_name := js "Main" |}
  /\ (getKeypair WalletFacts.standInDecrypt (list Z) parseNumbers bytesOfNumbers
        sampleFromSecretKey (js "correcthorsebattery") d1).1
     = inr WalletFacts.sampleKeypair
  /\ (getAddress d1).1
     = inr {| ar_success := true;
              ar_address := Some (toBase58 (kp_publicKey WalletFacts.sampleKeypair));
              ar_name := Some (js "Main") |}
  /\ exists_ (checkStatus d1).1 = true.
Proof.
  apply (created_wallet_unlocks WalletFacts.standInEncrypt WalletFacts.standInDecrypt
           (list Z) parseNumbers bytesOfNumbers sampleFromSecretKey
           (js "Main") (js "correcthorsebattery") WalletFacts.sampleKeypair
           1700000000000 WalletFacts.emptyDisk [1; 2; 255]).
  - vm_compute. discriminate.
  - reflexivity.
  - vm_compute. reflexivity.
  - vm_compute. reflexivity.
  - vm_compute. reflexivity.
  - vm_compute. reflexivity.
Defined.

Example unlock_with_show_secret :
  (unlockMain WalletFacts.standInDecrypt (list Z) parseNumbers bytesOfNumbers
     sampleFromSecretKey
     [js "--show-secret"; js "--password"; js "correcthorsebattery"] mainDisk).1
  = Unlocked (list Z)
      {| out_name := js "Main";
         out_publicKey := js "So11111111111111111111111111111111111111112";
         out_publicKeyShort := js "So1111...111112";
         out_secretKey := Some (js "LiA");
         out_secretKeyArray := Some [1; 2; 255];
         out_warning := true |}.
Proof. vm_compute. reflexivity. Qed.

End WalletCliFacts.

(** ** Creating the keystore *)

Module KeystoreCreationFacts.

Import Errors Storage Wallet.

Lemma digit_read (d : Z) (s : jsstring) (cur : option Z) (acc : list Z) :
  0 <= d <= 9 ->
  WalletCliFacts.parseItems (digit d :: s) cur acc
  = WalletCliFacts.parseItems s
      (Some (match cur with Some n => n * 10 + d | None => d end)) acc.
Proof.
  intros Hd. cbn [WalletCliFacts.parseItems]. unfold digit.
  rewrite (proj2 (Z.leb_le 48 (48 + d))) by lia.
  rewrite (proj2 (Z.leb_le (48 + d) 57)) by lia. cbn [andb].
  replace (48 + d - 48) with d by lia. reflexivity.
Qed.

Lemma decimal_read (n : Z) (s : jsstring) (acc : list Z) :
  0 <= n < 256 ->
  WalletCliFacts.parseItems (decimal n ++ s) None acc
  = WalletCliFacts.parseItems s (Some n) acc.
Proof.
  intros Hn. unfold decimal.
  pose proof (Z.div_mod n 10 ltac:(lia)) as H10.
  pose proof (Z.mod_pos_bound n 10 ltac:(lia)) as M10.
  pose proof (Z.div_mod (n / 10) 10 ltac:(lia)) as H100.
  pose proof (Z.mod_pos_bound (n / 10) 10 ltac:(lia)) as M100.
  assert (E100 : n / 100 = n / 10 / 10) by (rewrite Z.div_div by lia; reflexivity).
  destruct (n <? 10) eqn:E1; [| destruct (n <? 100) eqn:E2].
  - apply Z.ltb_lt in E1. cbn [app]. rewrite digit_read by lia. reflexivity.
  - apply Z.ltb_ge in E1. apply Z.ltb_lt in E2. cbn [app].
    rewrite !digit_read by lia. do 2 f_equal. lia.
  - apply Z.ltb_ge in E1, E2. cbn [app].
    rewrite !digit_read by lia. do 2 f_equal. lia.
Qed.

Lemma decimal_head (n : Z) :
  0 <= n < 256 -> exists c rest, decimal n = c :: rest /\ 48 <= c <= 57.
Proof.
  intros Hn. unfold decimal, digit.
  pose proof (Z.div_mod n 10 ltac:(lia)) as H10.
  pose proof (Z.mod_pos_bound n 10 ltac:(lia)) as M10.
  pose proof (Z.div_mod n 100 ltac:(lia)) as H100.
  pose proof (Z.mod_pos_bound n 100 ltac:(lia)) as M100.
  destruct (n <? 10) eqn:E1; [| destruct (n <? 100) eqn:E2];
    eexists; eexists; (split; [reflexivity |]).
  - apply Z.ltb_lt in E1. lia.
  - apply Z.ltb_lt in E2. lia.
  - lia.
Qed.

Lemma items_read (b : byte) (bytes : list byte) (acc : list Z) :
  WalletCliFacts.parseItems
    (joinComma (map (fun b => decimal (byteValue b)) (b :: bytes)) ++ [93]) None acc
  = Some (acc ++ map byteValue (b :: bytes)).
Proof.
  revert b acc. induction bytes as [| b' bytes IH]; intros b acc.
  - cbn [map joinComma]. rewrite decimal_read by apply CipherFacts.byteValue_range.
    reflexivity.
  - change (joinComma (map (fun b => decimal (byteValue b)) (b :: b' :: bytes)))
      with (decimal (byteValue b)
            ++ [44] ++ joinComma (map (fun b => decimal (byteValue b)) (b' :: bytes))).
    rewrite <- !app_assoc.
    rewrite decimal_read by apply CipherFacts.byteValue_range.
    cbn [app]. change (WalletCliFacts.parseItems (44 :: ?s) (Some ?n) ?a)
      with (WalletCliFacts.parseItems s None (a ++ [n])).
    rewrite IH, <- app_assoc. reflexivity.
Qed.

Lemma stringifyBytes_read (b : byte) (bytes : list byte) :
  WalletCliFacts.parseNumbers (stringifyBytes (b :: bytes))
  = Some (map byteValue (b :: bytes)).
Proof.
  unfold stringifyBytes. change (js "[") with [91]. change (js "]") with [93].
  cbn [app WalletCliFacts.parseNumbers]. apply items_read.
Qed.

Lemma stringifyBytes_injective (a b : list byte) :
  stringifyBytes a = stringifyBytes b -> a = b.
Proof.
  assert (Hempty : forall (x : byte) (l : list byte),
             stringifyBytes [] <> stringifyBytes (x :: l)).
  { intros x l. unfold stringifyBytes. change (js "[") with [91]. change (js "]") with [93].
    cbn [map]. destruct l as [| y l].
    - cbn [joinComma app].
      destruct (decimal_head (byteValue x) (CipherFacts.byteValue_range x))
        as (c & rest & -> & Hc).
      cbn. intros K. injection K as K _. lia.
    - change (joinComma (decimal (byteValue x)
                         :: map (fun b => decimal (byteValue b)) (y :: l)))
        with (decimal (byteValue x)
              ++ js "," ++ joinComma (map (fun b => decimal (byteValue b)) (y :: l))).
      destruct (decimal_head (byteValue x) (CipherFacts.byteValue_range x))
        as (c & rest & -> & Hc).
      cbn. intros K. injection K as K _. lia. }
  intros E. destruct a as [| x a], b as [| y b].
  - reflexivity.
  - exfalso. exact (Hempty _ _ E).
  - exfalso. exact (Hempty _ _ (eq_sym E)).
  - pose proof (stringifyBytes_read x a) as Ha. rewrite E, stringifyBytes_read in Ha.
    assert (Hm : map byteValue (x :: a) = map byteValue (y :: b)) by congruence.
    rewrite <- (CipherFacts.map_byteOf_byteValue (x :: a)),
            <- (CipherFacts.map_byteOf_byteValue (y :: b)).
    now rewrite Hm.
Qed.

(** C9: [createWallet] refuses a password of fewer than 8 code units with
    [WeakPasswordError] and leaves the storage directory untouched - not a
    single file-system call is made; with an acceptable password it
    refuses with [WalletExistsError] when a wallet is stored and changes no
    file; otherwise it stores the name, the public address, the encrypted
    secret key and the creation time under the wallet key and returns the
    public address and the name.  What is encrypted, under the password
    given, is the JSON array of the secret key's bytes: read as an array of
    numbers it gives these bytes back, no other key has the same text, and
    for the bytes 0, 7, 42, 255 it is [[0,7,42,255]].  What is returned
    does not depend on the secret key. *)
Theorem createWallet_contract
  (encrypt : jsstring -> jsstring -> jsstring)
  (name password : jsstring) (keypair : Keypair) (now : Z)
  (d : Disk WalletData) :
  let r := createWallet encrypt name password keypair now d in
  let secretKeyJson := stringifyBytes (secretKey keypair) in
  (Z.of_nat (length password) < 8 ->
   r = (inl (WeakPasswordError 8), d))
  /\ (8 <= Z.of_nat (length password) ->
      is_Some (files d !! WALLET_KEY) ->
      fst r = inl WalletExistsError
      /\ files (snd r) = files d /\ indexFile (snd r) = indexFile d)
  /\ (8 <= Z.of_nat (length password) ->
      files d !! WALLET_KEY = None ->
      fst r = inr {| success := true;
                     address := Some (toBase58 (kp_publicKey keypair));
                     cw_name := Some name;
                     error := None |}
      /\ files (snd r)
         = <[WALLET_KEY :=
               {| Wallet.name := name;
                  publicKey := toBase58 (kp_publicKey keypair);
                  encryptedSecretKey := encrypt secretKeyJson password;
                  createdAt := now |}]> (files d))
  /\ (secretKey keypair <> [] ->
      WalletCliFacts.parseNumbers secretKeyJson
      = Some (map byteValue (secretKey keypair)))
  /\ (secretKey keypair = [] -> secretKeyJson = js "[]")
  /\ (forall other : list byte,
         stringifyBytes other = secretKeyJson -> other = secretKey keypair)
  /\ stringifyBytes [x00; x07; x2a; xff] = js "[0,7,42,255]"
  /\ (forall otherSecret : list byte,
         fst (createWallet encrypt name password
                {| kp_publicKey := kp_publicKey keypair; secretKey := otherSecret |}
                now d)
         = fst r).
Proof.
  intros r secretKeyJson. subst r secretKeyJson.
  unfold createWallet, MIN_PASSWORD_LENGTH.
  split; [| split; [| split; [| split; [| split; [| split; [| split]]]]]].
  - intros Hshort. apply Z.ltb_lt in Hshort. rewrite Hshort. reflexivity.
  - intros H [x Hx]. apply Z.ltb_ge in H. rewrite H, WalletFacts.get_fresh, Hx.
    repeat split.
  - intros H Hnone. apply Z.ltb_ge in H. rewrite H, WalletFacts.get_fresh, Hnone.
    split.
    + destruct (set _ _ _ _ _). reflexivity.
    + match goal with
      | |- context [set WalletData ?st ?k ?v ?dd] =>
          pose proof (WalletFacts.set_files st k v dd eq_refl) as Hset;
          destruct (set WalletData st k v dd) as [st' d']
      end.
      exact Hset.
  - destruct (secretKey keypair) as [| b bytes]; [congruence |].
    intros _. apply stringifyBytes_read.
  - intros ->. reflexivity.
  - intros other. apply stringifyBytes_injective.
  - vm_compute. reflexivity.
  - intros otherSecret.
    destruct (Z.of_nat (length password) <? 8); [reflexivity |].
    rewrite WalletFacts.get_fresh. destruct (files d !! WALLET_KEY); [reflexivity |].
    cbn [kp_publicKey secretKey].
    do 2 match goal with
         | |- context [set WalletData ?st ?k ?v ?dd] =>
             destruct (set WalletData st k v dd)
         end.
    reflexivity.
Qed.

(** The text that is encrypted for a key of four bytes, and what a reader
    of JSON arrays makes of it. *)
Example secretKeyJson_sample :
  stringifyBytes [x00; x07; x2a; xff] = js "[0,7,42,255]"
  /\ WalletCliFacts.parseNumbers (js "[0,7,42,255]") = Some [0; 7; 42; 255].
Proof. split; vm_compute; reflexivity. Qed.

End KeystoreCreationFacts.


(** ** The exported secret key is its base58 encoding *)

Module Base58Facts.

Import Wallet Web3.

Lemma value58_app (s t : jsstring) (acc : Z) :
  value58 acc (s ++ t)
  = match value58 acc s with
    | Some v => value58 v t
    | None => None
    end.
Proof.
  revert acc. induction s as [|c s IH]; intros acc; cbn [app value58].
  - destruct (value58 acc t); reflexivity.
  - destruct (digit58 c); [apply IH | reflexivity].
Qed.

Lemma digit58_nth (m : Z) :
  0 <= m < 58 -> digit58 (nth (Z.to_nat m) ALPHABET 0) = Some m.
Proof.
  intros Hm.
  assert (H : forallb (fun k => match digit58 (nth k ALPHABET 0) with
                                | Some d => d =? Z.of_nat k
                                | None => false
                                end) (seq 0 58) = true) by (vm_compute; reflexivity).
  rewrite forallb_forall in H. specialize (H (Z.to_nat m)).
  rewrite in_seq in H. specialize (H ltac:(lia)).
  destruct (digit58 (nth (Z.to_nat m) ALPHABET 0)); [|discriminate].
  apply Z.eqb_eq in H. f_equal. lia.
Qed.

Lemma nth_ALPHABET_not_one (m : Z) :
  0 < m < 58 -> nth (Z.to_nat m) ALPHABET 0 <> 49.
Proof.
  intros Hm.
  assert (H : forallb (fun k => negb (nth (S k) ALPHABET 0 =? 49)) (seq 0 57) = true)
    by (vm_compute; reflexivity).
  rewrite forallb_forall in H. specialize (H (Z.to_nat m - 1)%nat).
  rewrite in_seq in H. specialize (H ltac:(lia)).
  replace (S (Z.to_nat m - 1)) with (Z.to_nat m) in H by lia.
  apply negb_true_iff, Z.eqb_neq in H. exact H.
Qed.

(** The [while] loop writes the base-58 digits of [num] in front of
    [result], the most significant first and none of them a leading zero. *)
Lemma base58Digits_spec (fuel : nat) (num : Z) (result : jsstring) :
  0 <= num < 58 ^ Z.of_nat fuel ->
  exists digits,
    base58Digits fuel num result = digits ++ result
    /\ value58 0 digits = Some num
    /\ (num = 0 -> digits = [])
    /\ (0 < num -> exists c rest, digits = c :: rest /\ c <> 49).
Proof.
  revert num result. induction fuel as [|fuel IH]; intros num result Hnum.
  - exists []. cbn in Hnum.
    split; [reflexivity|]. split; [cbn; f_equal; lia|].
    split; [reflexivity | lia].
  - cbn [base58Digits]. destruct (0 <? num) eqn:Hpos.
    + apply Z.ltb_lt in Hpos.
      assert (Hdiv : 0 <= num / 58 < 58 ^ Z.of_nat fuel).
      { split; [apply Z.div_pos; lia|].
        apply Z.div_lt_upper_bound; [lia|].
        rewrite Nat2Z.inj_succ, Z.pow_succ_r in Hnum by lia. lia. }
      assert (Hmod : 0 <= num mod 58 < 58) by (apply Z.mod_pos_bound; lia).
      destruct (IH (num / 58) (nth (Z.to_nat (num mod 58)) ALPHABET 0 :: result) Hdiv)
        as (digits & Heq & Hval & Hzero & Hhead).
      exists (digits ++ [nth (Z.to_nat (num mod 58)) ALPHABET 0]).
      repeat split.
      * rewrite Heq, <- app_assoc. reflexivity.
      * rewrite value58_app, Hval. cbn [value58]. rewrite digit58_nth by exact Hmod.
        f_equal. pose proof (Z.div_mod num 58). lia.
      * lia.
      * intros _. destruct (Z.eq_dec (num / 58) 0) as [E|E].
        -- rewrite (Hzero E). eexists _, []. split; [reflexivity|].
           apply nth_ALPHABET_not_one. pose proof (Z.div_mod num 58). lia.
        -- destruct Hhead as (c & rest & -> & Hc); [lia|].
           eexists c, _. split; [reflexivity | exact Hc].
    + apply Z.ltb_ge in Hpos. exists [].
      split; [reflexivity|]. split; [cbn; f_equal; lia|].
      split; [reflexivity | lia].
Qed.

(** The number of zero bytes a key starts with. *)
Fixpoint leadingZeros (secretKey : list byte) : nat :=
  match secretKey with
  | b :: rest => if byteValue b =? 0 then S (leadingZeros rest) else O
  | [] => O
  end.

Lemma leadingZeroBytes_spec (secretKey : list byte) (result : jsstring) :
  leadingZeroBytes secretKey result = repeat 49 (leadingZeros secretKey) ++ result.
Proof.
  revert result. induction secretKey as [|b rest IH]; intros result; cbn; [reflexivity|].
  destruct (byteValue b =? 0); [|reflexivity].
  rewrite IH. change (49 :: result) with ([49] ++ result).
  rewrite app_assoc, <- repeat_cons. reflexivity.
Qed.

Lemma value58_ones (k : nat) (s : jsstring) :
  value58 0 (repeat 49 k ++ s) = value58 0 s.
Proof. induction k as [|k IH]; [reflexivity | exact IH]. Qed.

Lemma leadingOnes_ones (k : nat) (s : jsstring) :
  leadingOnes (repeat 49 k ++ s) = Z.of_nat k + leadingOnes s.
Proof.
  induction k as [|k IH]; [cbn; lia|].
  cbn [repeat app leadingOnes]. cbn. rewrite IH. lia.
Qed.

Lemma bigInt_fold (secretKey : list byte) (acc : Z) :
  fold_left (fun num b => num * 256 + byteValue b) secretKey acc
  = acc * 256 ^ Z.of_nat (length secretKey) + bigIntOfBytes secretKey
  /\ 0 <= bigIntOfBytes secretKey < 256 ^ Z.of_nat (length secretKey).
Proof.
  unfold bigIntOfBytes. revert acc.
  induction secretKey as [|b rest IH]; intros acc.
  - cbn. lia.
  - cbn [fold_left length]. rewrite Nat2Z.inj_succ, Z.pow_succ_r by lia.
    destruct (IH (acc * 256 + byteValue b)) as [-> Hrange].
    destruct (IH (0 * 256 + byteValue b)) as [-> _].
    pose proof (CipherFacts.byteValue_range b).
    split; [ring | nia].
Qed.

Lemma bigIntOfBytes_cons (b : byte) (rest : list byte) :
  bigIntOfBytes (b :: rest)
  = byteValue b * 256 ^ Z.of_nat (length rest) + bigIntOfBytes rest.
Proof.
  unfold bigIntOfBytes at 1. cbn [fold_left].
  now rewrite (proj1 (bigInt_fold rest _)).
Qed.

Lemma byteLength_bigIntOfBytes (secretKey : list byte) :
  byteLength (bigIntOfBytes secretKey)
  = Z.of_nat (length secretKey) - Z.of_nat (leadingZeros secretKey).
Proof.
  induction secretKey as [|b rest IH]; [reflexivity|].
  rewrite bigIntOfBytes_cons. cbn [leadingZeros length].
  pose proof (CipherFacts.byteValue_range b) as Hb.
  destruct (bigInt_fold rest 0) as [_ Hrest].
  destruct (byteValue b =? 0) eqn:E.
  - apply Z.eqb_eq in E. rewrite E, Z.mul_0_l, Z.add_0_l, IH. lia.
  - apply Z.eqb_neq in E.
    set (m := Z.of_nat (length rest)) in *.
    set (num := byteValue b * 256 ^ m + bigIntOfBytes rest).
    assert (Hm : 0 <= m) by (subst m; lia).
    assert (Hpow : 256 ^ m = 2 ^ (8 * m)).
    { change 256 with (2 ^ 8). rewrite <- Z.pow_mul_r by lia. reflexivity. }
    assert (Hlow : 2 ^ (8 * m) <= num) by (subst num; nia).
    assert (Hhigh : num < 2 ^ (8 * m + 8)).
    { rewrite Z.pow_add_r by lia. change (2 ^ 8) with 256. subst num. nia. }
    assert (Hnum : 0 < num) by (pose proof (Z.pow_pos_nonneg 2 (8 * m)); lia).
    apply Z.log2_le_pow2 in Hlow; [|exact Hnum].
    apply Z.log2_lt_pow2 in Hhigh; [|exact Hnum].
    unfold byteLength. destruct (num =? 0) eqn:E0; [apply Z.eqb_eq in E0; lia|].
    assert (Hdiv : Z.log2 num / 8 = m).
    { symmetry. apply Z.div_unique with (r := Z.log2 num - 8 * m); lia. }
    rewrite Hdiv. lia.
Qed.

Lemma secretKeyToBase58_shape (secretKey : list byte) :
  exists digits,
    secretKeyToBase58 secretKey = repeat 49 (leadingZeros secretKey) ++ digits
    /\ value58 0 digits = Some (bigIntOfBytes secretKey)
    /\ leadingOnes digits = 0.
Proof.
  unfold secretKeyToBase58.
  destruct (bigInt_fold secretKey 0) as [_ Hrange].
  set (num := bigIntOfBytes secretKey) in *.
  assert (Hfuel : 0 <= num < 58 ^ Z.of_nat (S (Z.to_nat (Z.log2 num)))).
  { split; [lia|]. rewrite Nat2Z.inj_succ, Z2Nat.id by apply Z.log2_nonneg.
    destruct (Z.eq_dec num 0) as [->|Hne]; [cbn; lia|].
    pose proof (Z.log2_spec num ltac:(lia)) as [_ Hlt].
    eapply Z.lt_le_trans; [exact Hlt|].
    apply Z.pow_le_mono_l. pose proof (Z.log2_nonneg num). lia. }
  destruct (base58Digits_spec _ num [] Hfuel) as (digits & Heq & Hval & Hzero & Hhead).
  rewrite app_nil_r in Heq. exists digits.
  rewrite leadingZeroBytes_spec, Heq. repeat split; [exact Hval|].
  destruct (Z.eq_dec num 0) as [E|E].
  - now rewrite (Hzero E).
  - destruct Hhead as (c & rest & -> & Hc); [lia|].
    cbn [leadingOnes]. apply Z.eqb_neq in Hc. now rewrite Hc.
Qed.

Lemma bigIntOfBytes_injective (a b : list byte) :
  length a = length b -> bigIntOfBytes a = bigIntOfBytes b -> a = b.
Proof.
  revert b. induction a as [|x a IH]; intros [|y b] Hlen Hval; try discriminate;
    [reflexivity|].
  injection Hlen as Hlen. rewrite !bigIntOfBytes_cons, <- Hlen in Hval.
  destruct (bigInt_fold a 0) as [_ Ha]. destruct (bigInt_fold b 0) as [_ Hb].
  rewrite <- Hlen in Hb.
  pose proof (CipherFacts.byteValue_range x). pose proof (CipherFacts.byteValue_range y).
  assert (Hxy : byteValue x = byteValue y) by nia.
  f_equal.
  - rewrite <- (CipherFacts.byteOf_byteValue x), <- (CipherFacts.byteOf_byteValue y).
    now rewrite Hxy.
  - apply IH; [exact Hlen | nia].
Qed.

(** X11.  The string [secretKeyToBase58] returns is the base58 encoding of
    the key: read back as base58 it has the key's value and, with one zero
    byte for each leading [1], the key's length - so two different keys are
    never exported as the same string. *)
Theorem secretKeyToBase58_decodes (secretKey : list byte) :
  value58 0 (secretKeyToBase58 secretKey) = Some (bigIntOfBytes secretKey)
  /\ decodedLength (secretKeyToBase58 secretKey) = Some (Z.of_nat (length secretKey))
  /\ forall other,
       secretKeyToBase58 other = secretKeyToBase58 secretKey -> other = secretKey.
Proof.
  assert (H : forall sk,
             value58 0 (secretKeyToBase58 sk) = Some (bigIntOfBytes sk)
             /\ decodedLength (secretKeyToBase58 sk) = Some (Z.of_nat (length sk))).
  { intros sk. destruct (secretKeyToBase58_shape sk) as (digits & Heq & Hval & Hones).
    assert (Hv : value58 0 (secretKeyToBase58 sk) = Some (bigIntOfBytes sk))
      by now rewrite Heq, value58_ones.
    split; [exact Hv|]. unfold decodedLength. rewrite Hv. f_equal.
    rewrite Heq, leadingOnes_ones, Hones, byteLength_bigIntOfBytes.
    assert (leadingZeros sk <= length sk)%nat.
    { clear. induction sk as [|b rest IH]; cbn; [lia|].
      destruct (byteValue b =? 0); lia. }
    lia. }
  destruct (H secretKey) as [Hv Hl]. repeat split; [exact Hv | exact Hl|].
  intros other Heq. destruct (H other) as [Hv' Hl']. rewrite Heq in Hv', Hl'.
  rewrite Hv in Hv'. rewrite Hl in Hl'.
  injection Hv' as Hv'. injection Hl' as Hl'.
  apply bigIntOfBytes_injective; [lia | congruence].
Qed.

End Base58Facts.

(** ** Share links are importable *)

Module ShareLinkFacts.

Import ImportVault ShareLinks.

(** [s.includes(p)] on strings. *)
Fixpoint occursIn (p s : jsstring) : bool :=
  match stripPrefix p s with
  | Some _ => true
  | None =>
      match s with
      | [] => false
      | _ :: s' => occursIn p s'
      end
  end.

Lemma occursIn_tail (p : jsstring) (c : Z) (s : jsstring) :
  occursIn p (c :: s) = false ->
  stripPrefix p (c :: s) = None /\ occursIn p s = false.
Proof.
  cbn [occursIn]. destruct (stripPrefix p (c :: s)); [discriminate | auto].
Qed.

Lemma occursIn_trimStart (p s : jsstring) :
  p <> [] -> occursIn p s = false -> occursIn p (trimStart s) = false.
Proof.
  intros Hp. induction s as [|c s IH]; intros H; [exact H|].
  cbn [trimStart]. destruct (isWhiteSpace c); [|exact H].
  apply IH. now apply occursIn_tail in H.
Qed.

Lemma trimStart_app (u v : jsstring) (c : Z) :
  isWhiteSpace c = false -> trimStart (u ++ c :: v) = trimStart u ++ c :: v.
Proof.
  intros Hc. induction u as [|x u IH]; cbn [app trimStart].
  - now rewrite Hc.
  - destruct (isWhiteSpace x); [exact IH | reflexivity].
Qed.

Lemma trimEnd_app (s t : jsstring) (c : Z) :
  isWhiteSpace c = false -> trimEnd (s ++ c :: t) = s ++ c :: trimEnd t.
Proof.
  intros Hc. unfold trimEnd.
  rewrite rev_app_distr. cbn [rev]. rewrite <- app_assoc. cbn [app].
  rewrite trimStart_app by exact Hc.
  rewrite rev_app_distr. cbn [rev]. rewrite rev_involutive, <- app_assoc. reflexivity.
Qed.

Lemma isBase58_not_space (c : Z) : isBase58 c = true -> isWhiteSpace c = false.
Proof.
  unfold isBase58, isWhiteSpace. intros H.
  repeat (apply orb_true_iff in H; destruct H as [H|H]);
    apply andb_true_iff in H; destruct H as [H1 H2];
    apply Z.leb_le in H1, H2;
    repeat (apply orb_false_iff; split);
    try (apply Z.eqb_neq; lia);
    apply andb_false_iff; left; apply Z.leb_gt; lia.
Qed.

Lemma takeBase58_exact (n : nat) (a post : jsstring) :
  forallb isBase58 a = true -> (length a <= n)%nat ->
  (forall c rest, post = c :: rest -> isBase58 c = false) ->
  takeBase58 n (a ++ post) = a.
Proof.
  revert n. induction a as [|c a IH]; intros n Ha Hn Hpost.
  - cbn [app]. destruct n, post as [|c rest]; cbn; try reflexivity.
    now rewrite (Hpost c rest eq_refl).
  - cbn in Ha. apply andb_true_iff in Ha. destruct Ha as [Hc Ha].
    destruct n; [cbn in Hn; lia|]. cbn [app takeBase58]. rewrite Hc. f_equal.
    apply IH; [exact Ha | cbn in Hn; lia | exact Hpost].
Qed.

Lemma matchHere_exact (a post : jsstring) :
  isDirectAddress a = true ->
  (forall c rest, post = c :: rest -> isBase58 c = false) ->
  matchHere (js "/vault/" ++ a ++ post) = Some a.
Proof.
  intros Ha Hpost. apply ImportFacts.isDirectAddress_spec in Ha. destruct Ha as [Hc Hl].
  unfold matchHere.
  assert (E : stripPrefix (js "/vault/") (js "/vault/" ++ a ++ post) = Some (a ++ post))
    by (apply ImportFacts.stripPrefix_Some; reflexivity).
  rewrite E, takeBase58_exact by (try assumption; lia).
  destruct (32 <=? length a)%nat eqn:L; [reflexivity|].
  apply Nat.leb_gt in L. lia.
Qed.

Lemma stripPrefix_long (p s t : jsstring) :
  (length p <= length s)%nat -> stripPrefix p s = None -> stripPrefix p (s ++ t) = None.
Proof.
  revert s. induction p as [|x p IH]; intros s Hl H; [discriminate|].
  destruct s as [|c s]; [cbn in Hl; lia|]. cbn [app stripPrefix] in *.
  destruct (x =? c); [|reflexivity]. apply IH; [cbn in Hl; lia | exact H].
Qed.

Lemma vaultUrlMatch_here (s group : jsstring) :
  matchHere s = Some group -> vaultUrlMatch s = Some group.
Proof. intros H. destruct s; cbn [vaultUrlMatch]; now rewrite H. Qed.

(** Inside the base URL the pattern finds nothing: a match would need
    [/vault/] within it, or would start at a trailing [/vault] and then
    meet the [l] of the next [vault], which is not a base58 character. *)
Lemma matchHere_in_base (c : Z) (b a post : jsstring) :
  stripPrefix (js "/vault/") (c :: b) = None ->
  matchHere ((c :: b) ++ js "/vault/" ++ a ++ post) = None.
Proof.
  intros H. unfold matchHere.
  destruct b as [|c1 [|c2 [|c3 [|c4 [|c5 [|c6 b]]]]]].
  7: { rewrite stripPrefix_long; [reflexivity | cbn; lia | exact H]. }
  all: change (js "/vault/") with [47; 118; 97; 117; 108; 116; 47];
    cbn [app stripPrefix];
    repeat match goal with
           | |- context [?x =? ?y] =>
               lazymatch y with
               | Zpos _ => fail
               | _ => destruct (x =? y) eqn:?; [|reflexivity]
               end
           end;
    try reflexivity.
Qed.

Lemma vaultUrlMatch_after_base (b a post : jsstring) :
  occursIn (js "/vault/") b = false ->
  isDirectAddress a = true ->
  (forall c rest, post = c :: rest -> isBase58 c = false) ->
  vaultUrlMatch (b ++ js "/vault/" ++ a ++ post) = Some a.
Proof.
  intros Hb Ha Hpost. induction b as [|c b IH].
  - apply vaultUrlMatch_here, matchHere_exact; assumption.
  - apply occursIn_tail in Hb. destruct Hb as [Hstrip Hb].
    change ((c :: b) ++ js "/vault/" ++ a ++ post)
      with (c :: (b ++ js "/vault/" ++ a ++ post)).
    cbn [vaultUrlMatch].
    change (c :: (b ++ js "/vault/" ++ a ++ post))
      with ((c :: b) ++ js "/vault/" ++ a ++ post).
    rewrite matchHere_in_base by exact Hstrip. apply IH, Hb.
Qed.

Lemma trim_link (baseUrl a tail : jsstring) :
  isDirectAddress a = true ->
  trim (baseUrl ++ js "/vault/" ++ a ++ tail)
  = trimStart baseUrl ++ js "/vault/" ++ a ++ trimEnd tail.
Proof.
  intros Ha. apply ImportFacts.isDirectAddress_spec in Ha. destruct Ha as [Hc Hl].
  destruct (exists_last (l := a)) as (a' & c & ->).
  { intros ->. cbn in Hl. lia. }
  rewrite forallb_app in Hc. apply andb_true_iff in Hc. destruct Hc as [_ Hc].
  cbn in Hc. rewrite andb_true_r in Hc. apply isBase58_not_space in Hc.
  unfold trim.
  change (js "/vault/") with ([47; 118; 97; 117; 108; 116] ++ [47]).
  rewrite <- !app_assoc. cbn [app].
  change (baseUrl ++ 47 :: 118 :: 97 :: 117 :: 108 :: 116 :: 47 :: a' ++ c :: tail)
    with (baseUrl ++ 47 :: ([118; 97; 117; 108; 116; 47] ++ a' ++ c :: tail)).
  rewrite trimStart_app by reflexivity.
  replace (trimStart baseUrl ++ 47 :: [118; 97; 117; 108; 116; 47] ++ a' ++ c :: tail)
    with ((trimStart baseUrl ++ 47 :: [118; 97; 117; 108; 116; 47] ++ a') ++ c :: tail)
    by (rewrite <- !app_assoc; reflexivity).
  rewrite trimEnd_app by exact Hc.
  rewrite <- !app_assoc. reflexivity.
Qed.

Section Links.

Variable Index : Type.
Variable toString : Index -> jsstring.

(** X12.  A share link leads back to its vault: [extractVaultAddress]
    returns the vault address from the links [getVaultShareLink] and
    [getProposalShareLink] build from it, whatever the proposal index, as
    long as the address has 32 to 44 base58 characters and the base URL
    does not contain [/vault/] itself. *)
Theorem share_links_are_importable (multisigPda baseUrl : jsstring)
  (proposalIndex : Index)
  (Haddress : isDirectAddress multisigPda = true)
  (Hbase : occursIn (js "/vault/") baseUrl = false) :
  extractVaultAddress (getVaultShareLink multisigPda baseUrl) = Some multisigPda
  /\ extractVaultAddress
       (getProposalShareLink Index toString multisigPda proposalIndex baseUrl)
     = Some multisigPda.
Proof.
  assert (Hstart : occursIn (js "/vault/") (trimStart baseUrl) = false)
    by (apply occursIn_trimStart; [discriminate | exact Hbase]).
  unfold extractVaultAddress, getVaultShareLink, getProposalShareLink. split.
  - rewrite <- (app_nil_r multisigPda) at 1. rewrite trim_link by exact Haddress.
    change (trimEnd []) with (@nil Z).
    rewrite vaultUrlMatch_after_base; [reflexivity | exact Hstart | exact Haddress |].
    intros c rest H. discriminate.
  - rewrite trim_link by exact Haddress.
    change (js "/proposal/") with (47 :: js "proposal/"). cbn [app].
    pose proof (trimEnd_app [] (js "proposal/" ++ toString proposalIndex) 47 eq_refl)
      as Htail.
    cbn [app] in Htail. rewrite Htail.
    rewrite vaultUrlMatch_after_base; [reflexivity | exact Hstart | exact Haddress |].
    intros c rest H. injection H as <- _. reflexivity.
Qed.

End Links.

(** Decimal digits, as [toString] writes a non-negative index. *)
Fixpoint decimalDigits (fuel : nat) (n : Z) (acc : jsstring) : jsstring :=
  match fuel with
  | O => acc
  | S fuel' =>
      if n <? 10 then (48 + n) :: acc
      else decimalDigits fuel' (n / 10) ((48 + n mod 10) :: acc)
  end.

Definition decimalString (n : Z) : jsstring :=
  decimalDigits (S (Z.to_nat (Z.log2 n))) n [].

Lemma share_links_are_importable_witness :
  extractVaultAddress
    (getVaultShareLink CreateVaultFacts.wrappedSol (js "  http://localhost:5173"))
  = Some CreateVaultFacts.wrappedSol
  /\ extractVaultAddress
       (getProposalShareLink Z decimalString CreateVaultFacts.wrappedSol 17
          (js "  http://localhost:5173"))
     = Some CreateVaultFacts.wrappedSol.
Proof.
  apply (share_links_are_importable Z decimalString CreateVaultFacts.wrappedSol
           (js "  http://localhost:5173") 17); reflexivity.
Defined.

Example proposal_link_sample :
  getProposalShareLink Z decimalString CreateVaultFacts.wrappedSol 17
    (js "https://vaults.example/app")
  = js "https://vaults.example/app/vault/So11111111111111111111111111111111111111112/proposal/17".
Proof. vm_compute. reflexivity. Qed.

(** A base URL that itself contains a vault path is what the hypothesis
    excludes: the link then imports the base URL's vault. *)
Example link_under_a_vault_path :
  extractVaultAddress
    (getVaultShareLink CreateVaultFacts.wrappedSol
       (js "https://x.example/vault/TokenkegQfeZyiNwAJbNbGKPFXCWuBvf9Ss623VQ5DA"))
  = Some CreateVaultFacts.tokenProgram.
Proof. vm_compute. reflexivity. Qed.

End ShareLinkFacts.

(** ** The vault registry: removal, and one owner's list among the others *)

Module RegistryRemovalFacts.

Import MultisigStorage.

(** X13.  For an owner address [o] (a base58 string of 32 to 44
    characters): removing a vault from the owner's list leaves no entry
    for it and keeps the owner's other entries in their order; saving the
    vault again then puts it last. *)
Theorem remove_forgets_vault (o v k : jsstring) (w : World)
  (Howner : ImportVault.isDirectAddress o = true) :
  let removed := removeStoredMultisigAsync o v w in
  let others :=
    List.filter (fun m : StoredMultisig => negb (streq (multisigPda m) v))
      (getStoredMultisigsAsync o w) in
  getStoredMultisigsAsync o removed = others
  /\ entriesFor v (getStoredMultisigsAsync o removed) = 0%nat
  /\ getStoredMultisigsAsync o (saveMultisigAddressAsync o v k removed)
     = others ++ [{| multisigPda := v; createKey := k |}].
Proof.
  cbn zeta.
  assert (Hget : getStoredMultisigsAsync o (removeStoredMultisigAsync o v w)
                 = List.filter (fun m : StoredMultisig => negb (streq (multisigPda m) v))
                     (getStoredMultisigsAsync o w)).
  { unfold getStoredMultisigsAsync, removeStoredMultisigAsync, getWith, removeWith.
    destruct (loadData w !! o) as [stored|] eqn:E.
    - rewrite RegistryFacts.loadData_saveData, lookup_insert_eq. reflexivity.
    - rewrite E. reflexivity. }
  assert (Hnone : forall stored : list StoredMultisig,
             some (fun m : StoredMultisig => streq (multisigPda m) v)
               (List.filter (fun m : StoredMultisig => negb (streq (multisigPda m) v)) stored)
             = false).
  { intros stored. unfold some. apply not_true_iff_false. intros H.
    apply existsb_exists in H. destruct H as (m & Hin & Hm).
    apply filter_In in Hin. destruct Hin as [_ Hneg]. rewrite Hm in Hneg. discriminate. }
  split; [exact Hget|]. split.
  - rewrite Hget. unfold entriesFor. clear Hget Hnone.
    induction (getStoredMultisigsAsync o w) as [|m stored IH]; [reflexivity|].
    cbn [List.filter]. destruct (streq (multisigPda m) v) eqn:E; cbn [negb]; [exact IH|].
    cbn [List.filter]. rewrite E. exact IH.
  - set (removed := removeStoredMultisigAsync o v w) in *.
    unfold getStoredMultisigsAsync, getWith in Hget.
    unfold getStoredMultisigsAsync, saveMultisigAddressAsync, getWith, saveWith.
    destruct (loadData removed !! o) as [stored|] eqn:E; cbn [default] in Hget.
    + rewrite E. cbn [default]. rewrite Hget, Hnone.
      rewrite RegistryFacts.loadData_saveData, lookup_insert_eq. reflexivity.
    + rewrite lookup_insert_eq. cbn [default some existsb id].
      rewrite RegistryFacts.loadData_saveData, lookup_insert_eq, <- Hget. reflexivity.
Qed.

(** The list of the wallet [So111..] holding two vaults, of which the
    first is removed and saved again. *)
Definition twoVaultsWorld : World :=
  saveMultisigAddressAsync (js "So11111111111111111111111111111111111111112")
    (js "11111111111111111111111111111111") (js "KeyB")
    (saveMultisigAddressAsync (js "So11111111111111111111111111111111111111112")
       (js "TokenkegQfeZyiNwAJbNbGKPFXCWuBvf9Ss623VQ5DA") (js "KeyA") (fresh false)).

Lemma remove_forgets_vault_witness :
  let o := js "So11111111111111111111111111111111111111112" in
  let v := js "TokenkegQfeZyiNwAJbNbGKPFXCWuBvf9Ss623VQ5DA" in
  let removed := removeStoredMultisigAsync o v twoVaultsWorld in
  let others :=
    List.filter (fun m : StoredMultisig => negb (streq (multisigPda m) v))
      (getStoredMultisigsAsync o twoVaultsWorld) in
  others = [{| multisigPda := js "11111111111111111111111111111111";
               createKey := js "KeyB" |}]
  /\ getStoredMultisigsAsync o removed = others
  /\ entriesFor v (getStoredMultisigsAsync o removed) = 0%nat
  /\ getStoredMultisigsAsync o (saveMultisigAddressAsync o v (js "KeyC") removed)
     = others ++ [{| multisigPda := v; createKey := js "KeyC" |}].
Proof.
  split; [vm_compute; reflexivity |].
  apply (remove_forgets_vault (js "So11111111111111111111111111111111111111112")
           (js "TokenkegQfeZyiNwAJbNbGKPFXCWuBvf9Ss623VQ5DA") (js "KeyC") twoVaultsWorld).
  vm_compute. reflexivity.
Defined.

Definition ownerOf (c : Call) : jsstring :=
  match c with
  | CallSaveAsync o _ _ => o
  | CallRemoveAsync o _ => o
  | CallSave o _ _ => o
  | CallRemove o _ => o
  end.

Lemma perform_other_owner (o : jsstring) (c : Call) (w : World) :
  ownerOf c <> o ->
  loadData (perform w c) !! o = loadData w !! o
  /\ loadDataSync (perform w c) !! o = loadDataSync w !! o.
Proof.
  intros Hne.
  destruct c as [o' v k|o' v|o' v k|o' v]; cbn [ownerOf] in Hne; cbn [perform];
    unfold saveMultisigAddressAsync, removeStoredMultisigAsync, saveMultisigAddress,
      removeStoredMultisig, saveWith, removeWith;
    repeat match goal with
           | |- context [match ?m !! o' with _ => _ end] => destruct (m !! o')
           | |- context [if some ?p ?l then _ else _] => destruct (some p l)
           end;
    try (split; reflexivity);
    unfold loadData, loadDataSync, saveData, saveDataSync;
    destruct (isBrowser w) eqn:Eb; cbn [isBrowser localStorage file]; rewrite ?Eb;
    try (split; reflexivity);
    split; rewrite ?lookup_insert_ne by exact Hne; reflexivity.
Qed.

(** X14.  Whatever is saved or removed for other owners, through either
    API, an owner's list of vaults stays as it was. *)
Theorem other_owners_calls_leave_list (o : jsstring) (history : list Call) (w : World)
  (Hothers : Forall (fun c => ownerOf c <> o) history) :
  getStoredMultisigsAsync o (fold_left perform history w) = getStoredMultisigsAsync o w
  /\ getStoredMultisigs o (fold_left perform history w) = getStoredMultisigs o w.
Proof.
  unfold getStoredMultisigsAsync, getStoredMultisigs, getWith.
  revert w. induction Hothers as [|c history Hc _ IH]; intros w; [split; reflexivity|].
  cbn [fold_left]. destruct (IH (perform w c)) as [-> ->].
  destruct (perform_other_owner o c w Hc) as [-> ->]. split; reflexivity.
Qed.

Definition alice : jsstring := js "Alice".
Definition bob : jsstring := js "Bob".

Definition aliceWorld : World :=
  saveMultisigAddressAsync alice (js "VaultA") (js "KeyA") (fresh true).

Lemma other_owners_calls_leave_list_witness :
  let history :=
    [CallSaveAsync bob (js "VaultA") (js "KeyB"); CallRemove bob (js "VaultA");
     CallSave bob (js "VaultB") (js "KeyB")] in
  getStoredMultisigsAsync alice (fold_left perform history aliceWorld)
  = getStoredMultisigsAsync alice aliceWorld
  /\ getStoredMultisigs alice (fold_left perform history aliceWorld)
     = getStoredMultisigs alice aliceWorld.
Proof.
  apply (other_owners_calls_leave_list alice
           [CallSaveAsync bob (js "VaultA") (js "KeyB"); CallRemove bob (js "VaultA");
            CallSave bob (js "VaultB") (js "KeyB")] aliceWorld).
  repeat constructor; discriminate.
Defined.

End RegistryRemovalFacts.

(** ** Discovery of the vaults of a member *)

Module DiscoveryFacts.

Import Discovery.

(** What an account contributes to the result. *)
Definition vaultOf (memberPublicKey : PublicKey) (entry : ProgramAccount)
  : option MultisigVault :=
  head (checkAccount memberPublicKey [] entry).

(** The accounts looked at: those of 178 bytes when there is one,
    otherwise all of them. *)
Definition examined (cluster : Cluster) : list ProgramAccount :=
  let sized := List.filter (fun a => dataLength a =? 178) (accounts cluster) in
  if (0 <? length sized)%nat then sized else accounts cluster.

Lemma checkAccount_app (memberPublicKey : PublicKey) (vaults : list MultisigVault)
  (entry : ProgramAccount) :
  checkAccount memberPublicKey vaults entry
  = vaults ++ match vaultOf memberPublicKey entry with
              | Some vault => [vault]
              | None => []
              end.
Proof.
  unfold vaultOf, checkAccount.
  destruct (fromAccountInfo entry) as [multisigAccount|]; [|now rewrite app_nil_r].
  destruct (some _ (acc_members multisigAccount)); [reflexivity | now rewrite app_nil_r].
Qed.

Lemma fold_checkAccount (memberPublicKey : PublicKey) (entries : list ProgramAccount)
  (vaults : list MultisigVault) :
  fold_left (checkAccount memberPublicKey) entries vaults
  = vaults ++ omap (vaultOf memberPublicKey) entries.
Proof.
  revert vaults. induction entries as [|entry entries IH]; intros vaults; cbn [fold_left].
  - cbn. now rewrite app_nil_r.
  - rewrite IH, checkAccount_app, <- app_assoc. f_equal.
    cbn [omap list_omap]. destruct (vaultOf memberPublicKey entry); reflexivity.
Qed.

Lemma vaultOf_Some (memberPublicKey : PublicKey) (entry : ProgramAccount)
  (vault : MultisigVault) :
  vaultOf memberPublicKey entry = Some vault ->
  address vault = toBase58 (pubkey entry)
  /\ In (toBase58 memberPublicKey) (map publicKey (members vault))
  /\ exists multisigAccount,
       fromAccountInfo entry = Some multisigAccount
       /\ threshold vault = acc_threshold multisigAccount
       /\ map publicKey (members vault)
          = map (fun m => toBase58 (key m)) (acc_members multisigAccount).
Proof.
  unfold vaultOf, checkAccount.
  destruct (fromAccountInfo entry) as [multisigAccount|]; [|discriminate].
  destruct (some _ (acc_members multisigAccount)) eqn:E; [|discriminate].
  cbn. intros H. injection H as <-. cbn.
  assert (Hmap : map publicKey
                   (map (fun m =>
                           {| publicKey := toBase58 (key m);
                              permissions :=
                                {| initiate := Permissions_has (mask m) Permission_Initiate;
                                   vote := Permissions_has (mask m) Permission_Vote;
                                   execute := Permissions_has (mask m) Permission_Execute |} |})
                        (acc_members multisigAccount))
                 = map (fun m => toBase58 (key m)) (acc_members multisigAccount)).
  { rewrite map_map. reflexivity. }
  split; [reflexivity|]. split.
  - rewrite Hmap. unfold some in E. apply existsb_exists in E.
    destruct E as (m & Hin & Hm). apply MultisigFacts.streq_true in Hm.
    rewrite <- Hm. apply in_map_iff. exists m. split; [reflexivity | exact Hin].
  - exists multisigAccount. repeat split. exact Hmap.
Qed.

Lemma vaultOf_member (memberPublicKey : PublicKey) (entry : ProgramAccount)
  (multisigAccount : MultisigAccount) :
  fromAccountInfo entry = Some multisigAccount ->
  In (toBase58 memberPublicKey)
     (map (fun m => toBase58 (key m)) (acc_members multisigAccount)) ->
  is_Some (vaultOf memberPublicKey entry).
Proof.
  intros Hparse Hin. unfold vaultOf, checkAccount. rewrite Hparse.
  assert (E : some (fun m => streq (toBase58 (key m)) (toBase58 memberPublicKey))
                (acc_members multisigAccount) = true).
  { apply in_map_iff in Hin. destruct Hin as (m & Hm & Hin).
    unfold some. apply existsb_exists. exists m. split; [exact Hin|].
    now apply MultisigFacts.streq_true. }
  rewrite E. cbn. eauto.
Qed.

(** X15.  [discoverMultisigsForMember] returns, in the order of the scan,
    one vault for every examined account that parses as a multisig and
    lists the key among its members, and nothing else; the examined
    accounts are those of 178 bytes when there is one and all of the
    program's accounts otherwise.  Each returned vault carries the address
    of its account and lists the key; when a request fails the result is
    empty. *)
Theorem discovery_finds_member_vaults (cluster : Cluster) (memberPublicKey : PublicKey) :
  let found := discoverMultisigsForMember cluster memberPublicKey in
  (filteredRequestFails cluster = true -> found = [])
  /\ (filteredRequestFails cluster = false ->
      (unfilteredRequestFails cluster = false
       \/ exists entry, In entry (accounts cluster) /\ dataLength entry = 178) ->
      found = omap (vaultOf memberPublicKey) (examined cluster))
  /\ (forall vault, In vault found ->
        In (toBase58 memberPublicKey) (map publicKey (members vault))
        /\ exists entry multisigAccount,
             In entry (accounts cluster)
             /\ fromAccountInfo entry = Some multisigAccount
             /\ address vault = toBase58 (pubkey entry)
             /\ threshold vault = acc_threshold multisigAccount)
  /\ (filteredRequestFails cluster = false ->
      (unfilteredRequestFails cluster = false
       \/ exists entry, In entry (accounts cluster) /\ dataLength entry = 178) ->
      forall entry multisigAccount,
        In entry (examined cluster) ->
        fromAccountInfo entry = Some multisigAccount ->
        In (toBase58 memberPublicKey)
           (map (fun m => toBase58 (key m)) (acc_members multisigAccount)) ->
        exists vault, In vault found /\ address vault = toBase58 (pubkey entry)).
Proof.
  cbn zeta.
  assert (Hshape :
    discoverMultisigsForMember cluster memberPublicKey = []
    \/ discoverMultisigsForMember cluster memberPublicKey
       = omap (vaultOf memberPublicKey) (examined cluster)).
  { unfold discoverMultisigsForMember, getProgramAccounts, examined.
    destruct (filteredRequestFails cluster); [now left|].
    destruct (0 <? length _)%nat.
    - right. apply (fold_checkAccount memberPublicKey _ []).
    - destruct (unfilteredRequestFails cluster); [now left|].
      right. apply (fold_checkAccount memberPublicKey _ []). }
  assert (Hup_shape :
    filteredRequestFails cluster = false ->
    (unfilteredRequestFails cluster = false
     \/ exists entry, In entry (accounts cluster) /\ dataLength entry = 178) ->
    discoverMultisigsForMember cluster memberPublicKey
    = omap (vaultOf memberPublicKey) (examined cluster)).
  { intros Hup Hsecond.
    unfold discoverMultisigsForMember, getProgramAccounts, examined. rewrite Hup.
    destruct (0 <? length _)%nat eqn:Hsized.
    + apply (fold_checkAccount memberPublicKey _ []).
    + destruct Hsecond as [-> | (entry & Hin & Hsize)].
      * apply (fold_checkAccount memberPublicKey _ []).
      * exfalso. apply Nat.ltb_ge in Hsized.
        assert (Hf : In entry (List.filter (fun a => dataLength a =? 178)
                                 (accounts cluster))).
        { apply filter_In. split; [exact Hin | now apply Z.eqb_eq]. }
        destruct (List.filter _ (accounts cluster)); [destruct Hf | cbn in Hsized; lia]. }
  split; [|split; [exact Hup_shape|split]].
  - intros Hfail. unfold discoverMultisigsForMember, getProgramAccounts.
    now rewrite Hfail.
  - intros vault Hin. destruct Hshape as [E|E]; rewrite E in Hin; [destruct Hin|].
    apply list_elem_of_In, list_elem_of_omap in Hin.
    destruct Hin as (entry & Hentry & Hvault). apply list_elem_of_In in Hentry.
    destruct (vaultOf_Some _ _ _ Hvault) as (Haddr & Hmember & m & Hparse & Hthr & _).
    split; [exact Hmember|]. exists entry, m. repeat split; try assumption.
    unfold examined in Hentry. destruct (0 <? length _)%nat; [|exact Hentry].
    apply filter_In in Hentry. tauto.
  - intros Hup Hsecond entry multisigAccount Hin Hparse Hmember.
    rewrite (Hup_shape Hup Hsecond).
    destruct (vaultOf_member memberPublicKey entry multisigAccount Hparse Hmember)
      as [vault Hvault].
    exists vault. split.
    + apply list_elem_of_In, list_elem_of_omap. exists entry.
      split; [now apply list_elem_of_In | exact Hvault].
    + now destruct (vaultOf_Some _ _ _ Hvault) as [-> _].
Qed.

(** A 178-byte account of another kind hides the member's vault, whose
    account is longer: the scan without the size filter is not made. *)
Definition memberKey : PublicKey := mkPublicKey (js "Member1").

Definition hiddenVault : ProgramAccount :=
  {| pubkey := mkPublicKey (js "Vault1"); dataLength := 242;
     fromAccountInfo :=
       Some {| acc_createKey := mkPublicKey (js "Create1"); acc_threshold := 1;
               acc_members := [{| key := memberKey; mask := 7 |}];
               acc_transactionIndex := 0; acc_staleTransactionIndex := 0 |} |}.

Definition otherAccount : ProgramAccount :=
  {| pubkey := mkPublicKey (js "Other1"); dataLength := 178; fromAccountInfo := None |}.

Example discovery_sample :
  map address
    (discoverMultisigsForMember
       {| accounts := [hiddenVault]; filteredRequestFails := false;
          unfilteredRequestFails := false |} memberKey)
  = [js "Vault1"]
  /\ discoverMultisigsForMember
       {| accounts := [otherAccount; hiddenVault]; filteredRequestFails := false;
          unfilteredRequestFails := false |} memberKey
     = [].
Proof. split; vm_compute; reflexivity. Qed.

End DiscoveryFacts.

(** ** The vault form of the built-in wallet *)

Module CreateVaultFormFacts.

Import CreateVault.

Lemma reachable_keeps (keypairAddress : jsstring) (f : Form) :
  Reachable keypairAddress f -> members f <> [] /\ 1 <= threshold f.
Proof.
  intros Hreach. induction Hreach as [|f f' _ [Hm Ht] Hstep].
  - split; [discriminate | cbn; lia].
  - destruct Hstep as [|index Hi|index field Hi|parsed|value]; cbn.
    + split; [|exact Ht]. destruct (members f); discriminate.
    + unfold removeMember. destruct (1 <? length (members f))%nat eqn:E;
        [|split; assumption].
      apply Nat.ltb_lt in E. cbn [members threshold].
      assert (Hlen : length (delete index (members f)) = (length (members f) - 1)%nat).
      { clear -Hi. revert index Hi. induction (members f) as [|m l IH]; intros index Hi;
          [cbn in Hi; lia|].
        destruct index; cbn; [lia|]. cbn in Hi. rewrite IH by lia.
        destruct l; [cbn in Hi; lia | cbn; lia]. }
      split.
      * intros Hnil. rewrite Hnil in Hlen. cbn in Hlen. lia.
      * rewrite Hlen. destruct (_ <? threshold f); lia.
    + split; [|exact Ht]. intros Hnil.
      apply (f_equal length) in Hnil. rewrite length_alter in Hnil.
      destruct (members f); [now apply Hm | discriminate].
    + split; [exact Hm | lia].
    + split; assumption.
Qed.

(** X16.  However the form is edited - members added, removed and
    changed, any threshold typed - it keeps at least one member and a
    threshold of at least 1, and removing a member lowers a threshold that
    exceeds the remaining number of members to that number. *)
Theorem form_keeps_member_and_threshold (keypairAddress : jsstring) (f : Form)
  (Hreach : Reachable keypairAddress f) :
  members f <> [] /\ 1 <= threshold f
  /\ forall index,
       (1 < length (members f))%nat ->
       threshold (removeMember index f) <= Z.of_nat (length (members (removeMember index f)))
       \/ threshold (removeMember index f) = threshold f.
Proof.
  destruct (reachable_keeps keypairAddress f Hreach) as [Hm Ht].
  repeat split; [exact Hm | exact Ht|].
  intros index Hlen. unfold removeMember.
  apply Nat.ltb_lt in Hlen. rewrite Hlen. cbn [members threshold].
  destruct (_ <? threshold f) eqn:E; [left; lia | now right].
Qed.

Section Validation.

Variable isPublicKey : jsstring -> bool.
Variable loadWallet : jsstring -> LoadResult.

Definition memberOk (m : Member) : Prop :=
  address m <> [] /\ isPublicKey (address m) = true
  /\ (initiate m = true \/ vote m = true \/ execute m = true).

Lemma validateMembers_None (i : nat) (ms : list Member) :
  validateMembers isPublicKey i ms = None <-> Forall memberOk ms.
Proof.
  revert i. induction ms as [|m ms IH]; intros i; cbn [validateMembers].
  - split; [constructor | reflexivity].
  - unfold memberOk at 1. rewrite Forall_cons_iff, <- (IH (S i)).
    destruct (address m) as [|c a] eqn:Ea.
    { split; [discriminate | intros [[H _] _]; contradiction]. }
    destruct (isPublicKey (c :: a)); cbn [negb].
    2: { split; [discriminate | intros [(_ & H & _) _]; discriminate]. }
    destruct (initiate m), (vote m), (execute m); cbn [negb andb];
      first
        [ solve [split; [discriminate
                        | intros [(_ & _ & [H|[H|H]]) _]; discriminate]]
        | solve [split;
                 [intros H; split; [split; [discriminate | split; [reflexivity | auto]]
                                   | exact H]
                 | intros [_ H]; exact H]] ].
Qed.

Lemma Set_size_NoDup (l : list jsstring) :
  length (fold_left Set_add l []) = length l <-> List.NoDup l.
Proof.
  split.
  - intros Hlen.
    apply (@NoDup_incl_NoDup _ (fold_left Set_add l [])).
    + apply StorageFacts.fold_Set_add_NoDup. constructor.
    + lia.
    + intros x Hx. apply StorageFacts.fold_Set_add_In in Hx.
      destruct Hx as [[]|Hx]. exact Hx.
  - intros Hnd.
    assert (H : forall s, List.NoDup (s ++ l) ->
                          fold_left Set_add l s = s ++ l).
    { clear Hnd. induction l as [|x l IH]; intros s Hs; cbn [fold_left].
      - now rewrite app_nil_r.
      - assert (Hx : includes s x = false).
        { apply VoteFacts.includes_not_In. intros Hin.
          apply NoDup_remove_2 in Hs. apply Hs, in_or_app. now left. }
        unfold Set_add at 2. rewrite Hx.
        rewrite IH; rewrite <- app_assoc; [reflexivity | exact Hs]. }
    rewrite (H [] Hnd). reflexivity.
Qed.

Lemma permissionsOf_mask (m : Member) :
  permissionsOf m
  = ExternalCreateVault.createPermissions (initiate m) (vote m) (execute m)
  /\ Permissions_has (permissionsOf m) Permission_Initiate = initiate m
  /\ Permissions_has (permissionsOf m) Permission_Vote = vote m
  /\ Permissions_has (permissionsOf m) Permission_Execute = execute m.
Proof.
  unfold permissionsOf. destruct (initiate m), (vote m), (execute m); vm_compute; auto.
Qed.

(** X17.  When the form goes on to create the vault, what it submits is a
    sound configuration: one entry per member of the form, in order, with
    pairwise different valid addresses and at least one permission each;
    the permission mask holds exactly the ticked boxes; the threshold is
    the form's, at least 1 and at most the number of submitted members
    that may vote; and the key pair is the one the password unlocks. *)
Theorem handleCreate_submits_sound_vault (keypairAddress : jsstring) (f : Form)
  (kp : Wallet.Keypair) (membersList : list (PublicKey * Z)) (t : Z)
  (Hreach : Reachable keypairAddress f)
  (Hsubmit : handleCreate isPublicKey loadWallet f = createMultisigVault kp membersList t) :
  t = threshold f
  /\ 1 <= t <= Z.of_nat (length (List.filter
                                   (fun km => Permissions_has km.2 Permission_Vote)
                                   membersList))
  /\ map (fun km => toBase58 km.1) membersList = map address (members f)
  /\ List.NoDup (map (fun km => toBase58 km.1) membersList)
  /\ Forall (fun km => isPublicKey (toBase58 km.1) = true /\ 1 <= km.2 <= 7) membersList
  /\ map snd membersList
     = map (fun m => ExternalCreateVault.createPermissions (initiate m) (vote m) (execute m))
         (members f)
  /\ password f <> [] /\ loadWallet (password f) = Loaded kp.
Proof.
  destruct (reachable_keeps keypairAddress f Hreach) as [_ Hone].
  unfold handleCreate in Hsubmit.
  destruct (validateMembers isPublicKey 0 (members f)) eqn:Hvalid; [discriminate|].
  apply validateMembers_None in Hvalid.
  destruct (length (fold_left Set_add (map address (members f)) [])
            =? length (map address (members f)))%nat eqn:Hset; [|discriminate].
  apply Nat.eqb_eq, Set_size_NoDup in Hset. cbn [negb] in Hsubmit.
  destruct (votersCount (members f) <? threshold f) eqn:Hthr; [discriminate|].
  apply Z.ltb_ge in Hthr.
  destruct (password f) as [|c pw] eqn:Hpw; [discriminate|].
  destruct (loadWallet (c :: pw)) eqn:Hload; try discriminate.
  injection Hsubmit as -> <- <-.
  assert (Haddr : map (fun km : PublicKey * Z => toBase58 km.1)
                    (map (fun m => (mkPublicKey (address m), permissionsOf m)) (members f))
                  = map address (members f)).
  { rewrite map_map. reflexivity. }
  assert (Hvoters :
    length (List.filter (fun km : PublicKey * Z => Permissions_has km.2 Permission_Vote)
              (map (fun m => (mkPublicKey (address m), permissionsOf m)) (members f)))
    = length (List.filter vote (members f))).
  { clear. induction (members f) as [|m ms IH]; [reflexivity|].
    cbn [map List.filter snd].
    destruct (permissionsOf_mask m) as (_ & _ & -> & _).
    destruct (vote m); cbn [length]; now rewrite IH. }
  repeat split.
  - exact Hone.
  - rewrite Hvoters. exact Hthr.
  - exact Haddr.
  - rewrite Haddr. exact Hset.
  - apply Forall_map. eapply Forall_impl; [exact Hvalid|].
    intros m (_ & Hkey & Hperm). cbn [fst snd toBase58]. split; [exact Hkey|].
    unfold permissionsOf.
    destruct (initiate m), (vote m), (execute m); vm_compute;
      try (split; discriminate).
    destruct Hperm as [H|[H|H]]; discriminate.
  - rewrite map_map. apply map_ext. intros m. apply permissionsOf_mask.
  - discriminate.
Qed.

End Validation.

Definition twoMemberForm : Form :=
  onPasswordChange (js "correcthorsebattery")
    (onThresholdChange (Int 2)
       (updateMember 1 (Execute false)
          (updateMember 1 (Address CreateVaultFacts.tokenProgram)
             (addMember (initialForm CreateVaultFacts.wrappedSol))))).

Lemma twoMemberForm_reachable : Reachable CreateVaultFacts.wrappedSol twoMemberForm.
Proof.
  unfold twoMemberForm.
  eapply reach_step; [|apply step_password].
  eapply reach_step; [|apply step_threshold].
  eapply reach_step; [|apply step_updateMember; cbn; lia].
  eapply reach_step; [|apply step_updateMember; cbn; lia].
  eapply reach_step; [|apply step_addMember].
  apply reach_initial.
Defined.

Lemma form_keeps_member_and_threshold_witness :
  members twoMemberForm <> [] /\ 1 <= threshold twoMemberForm
  /\ forall index,
       (1 < length (members twoMemberForm))%nat ->
       threshold (removeMember index twoMemberForm)
       <= Z.of_nat (length (members (removeMember index twoMemberForm)))
       \/ threshold (removeMember index twoMemberForm) = threshold twoMemberForm.
Proof.
  exact (form_keeps_member_and_threshold CreateVaultFacts.wrappedSol twoMemberForm
           twoMemberForm_reachable).
Defined.

Definition alwaysLoads (password : jsstring) : LoadResult :=
  Loaded WalletFacts.sampleKeypair.

Lemma handleCreate_submits_sound_vault_witness :
  let membersList :=
    [(mkPublicKey CreateVaultFacts.wrappedSol, 7);
     (mkPublicKey CreateVaultFacts.tokenProgram, 3)] in
  2 = threshold twoMemberForm
  /\ 1 <= 2 <= Z.of_nat (length (List.filter
                                   (fun km => Permissions_has km.2 Permission_Vote)
                                   membersList))
  /\ map (fun km => toBase58 km.1) membersList = map address (members twoMemberForm)
  /\ List.NoDup (map (fun km => toBase58 km.1) membersList)
  /\ Forall (fun km => Web3.isPublicKey (toBase58 km.1) = true /\ 1 <= km.2 <= 7)
       membersList
  /\ map snd membersList
     = map (fun m => ExternalCreateVault.createPermissions (initiate m) (vote m) (execute m))
         (members twoMemberForm)
  /\ password twoMemberForm <> []
  /\ alwaysLoads (password twoMemberForm) = Loaded WalletFacts.sampleKeypair.
Proof.
  apply (handleCreate_submits_sound_vault Web3.isPublicKey alwaysLoads
           CreateVaultFacts.wrappedSol twoMemberForm WalletFacts.sampleKeypair
           [(mkPublicKey CreateVaultFacts.wrappedSol, 7);
            (mkPublicKey CreateVaultFacts.tokenProgram, 3)] 2
           twoMemberForm_reachable).
  vm_compute. reflexivity.
Defined.

(** Removing the second member again lowers the threshold with it. *)
Example remove_lowers_threshold :
  threshold (removeMember 1 twoMemberForm) = 1
  /\ handleCreate Web3.isPublicKey alwaysLoads
       (onThresholdChange (Int 3) twoMemberForm)
     = setError (ThresholdExceedsVoters 3 2).
Proof. split; vm_compute; reflexivity. Qed.

End CreateVaultFormFacts.

(** ** Executing a proposal *)

Module ExecuteFacts.

Import VaultDetail ProposalRow.

Section Row.

Variable userPubKey : jsstring.
Variable vault : option MultisigVault.

(** X18.  On a proposal row the Execute button is shown exactly when the
    proposal is approved, the vault is loaded and its first member entry
    for the user has the Execute permission.  It is never shown together
    with the vote buttons or the "You voted" label, which belong to active
    proposals; and a user who is not a member of the vault gets no button. *)
Theorem execute_button_guard (proposal : ProposalInfo) :
  (executeButton userPubKey vault proposal = true
   <-> status proposal = Approved
       /\ exists v m,
            vault = Some v
            /\ find (fun m => streq (publicKey m) userPubKey) (members v) = Some m
            /\ execute (permissions m) = true)
  /\ (executeButton userPubKey vault proposal = true ->
      canVote userPubKey vault proposal = false
      /\ votedLabel userPubKey proposal = None)
  /\ (canVote userPubKey vault proposal = true -> votedLabel userPubKey proposal = None)
  /\ ((forall v, vault = Some v -> ~ In userPubKey (map publicKey (members v))) ->
      executeButton userPubKey vault proposal = false
      /\ canVote userPubKey vault proposal = false).
Proof.
  unfold executeButton, canVote, votedLabel, canExecute, userPermissions.
  split; [split|split; [|split]].
  - intros H. apply andb_true_iff in H. destruct H as [Hs Hp]. split.
    + destruct (status proposal); try discriminate. reflexivity.
    + destruct vault as [v|]; [|destruct (status proposal); discriminate].
      destruct (find _ (members v)) as [m|] eqn:E; [|discriminate].
      exists v, m. auto.
  - intros (Hs & v & m & -> & Hfind & He). rewrite Hs, Hfind. exact He.
  - intros H. apply andb_true_iff in H. destruct H as [Hs _].
    destruct (status proposal); try discriminate; split; reflexivity.
  - destruct (status proposal); try discriminate.
    intros H. apply andb_true_iff in H. destruct H as [Hv _].
    apply negb_true_iff in Hv. now rewrite Hv.
  - intros H.
    assert (E : match vault with
                | Some v =>
                    match find (fun m => streq (publicKey m) userPubKey) (members v) with
                    | Some m => Some (permissions m)
                    | None => None
                    end
                | None => None
                end = None).
    { destruct vault as [v|]; [|reflexivity]. specialize (H v eq_refl).
      destruct (find _ (members v)) as [m|] eqn:E; [|reflexivity].
      apply find_some in E. destruct E as [Hin Hm]. apply MultisigFacts.streq_true in Hm.
      exfalso. apply H. rewrite <- Hm. now apply in_map. }
    rewrite E. split; [apply andb_false_r|].
    destruct (status proposal); rewrite ?andb_false_r; reflexivity.
Qed.

End Row.

Section Script.

Import ExecuteProposal.

Variable parseInt : jsstring -> jsnumber.
Variable isPublicKey : jsstring -> bool.
Variable decrypt : jsstring -> jsstring -> option jsstring.
Variable JsValue : Type.
Variable JSON_parse : jsstring -> option JsValue.
Variable Uint8Array_from : JsValue -> option (list byte).
Variable Keypair_fromSecretKey : list byte -> option Wallet.Keypair.
Variable getTransactionPda : PublicKey -> Z -> PublicKey.
Variable getProposalPda : PublicKey -> Z -> PublicKey.
Variable ledger : Ledger.

Lemma determineStatus_Approved (kind : jsstring) :
  determineStatus kind = Approved <-> kind = js "Approved".
Proof.
  split; [|intros ->; vm_compute; reflexivity].
  unfold determineStatus.
  destruct (streq kind (js "Active")); [discriminate|].
  destruct (streq kind (js "Approved")) eqn:E; [now apply MultisigFacts.streq_true in E|].
  destruct (streq kind (js "Rejected")); [discriminate|].
  destruct (streq kind (js "Executed")); [discriminate|].
  destruct (streq kind (js "Cancelled")); discriminate.
Qed.

(** X19.  The execute script calls [executeVaultTransaction] only with a
    key pair unlocked from the stored wallet, a valid vault address and a
    non-zero proposal index whose proposal account the cluster reports as
    [Approved]; before that it has sent one request, for that proposal
    account, and none for the vault's members, and it has changed no
    stored file. *)
Theorem execute_submits_only_approved (args : list jsstring) (w w' : World)
  (keypair : Wallet.Keypair) (multisigPda : PublicKey) (index : Z)
  (Hsubmit : main parseInt isPublicKey decrypt JsValue JSON_parse Uint8Array_from
               Keypair_fromSecretKey getTransactionPda getProposalPda ledger args w
             = (executeVaultTransaction keypair multisigPda index, w')) :
  index <> 0
  /\ isPublicKey (toBase58 multisigPda) = true
  /\ (exists password,
        password <> []
        /\ (Wallet.getKeypair decrypt JsValue JSON_parse Uint8Array_from
              Keypair_fromSecretKey password (disk w)).1 = inr keypair)
  /\ (exists proposal,
        proposalAt ledger (toBase58 (getProposalPda multisigPda index)) = Some proposal
        /\ status__kind proposal = js "Approved")
  /\ requests w'
     = requests w ++ [ReadProposal (toBase58 (getProposalPda multisigPda index))]
  /\ Storage.files (disk w') = Storage.files (disk w).
Proof.
  unfold main in Hsubmit.
  set (parsed := parseArgs parseInt args _) in Hsubmit.
  destruct (proposalIndex parsed) as [|i]; [discriminate|].
  destruct (WalletCli.truthy (arg_vault parsed)) eqn:Hv; [|discriminate].
  destruct (falsy (Int i)) eqn:Hi; [discriminate|].
  destruct (WalletCli.truthy (arg_password parsed)) eqn:Hp; [|discriminate].
  cbn [negb orb] in Hsubmit.
  assert (Hfiles : Storage.files
                     (Wallet.getKeypair decrypt JsValue JSON_parse Uint8Array_from
                        Keypair_fromSecretKey (arg_password parsed) (disk w)).2
                   = Storage.files (disk w)).
  { unfold Wallet.getKeypair. rewrite WalletFacts.get_fresh.
    destruct (Storage.files (disk w) !! Wallet.WALLET_KEY); [|reflexivity].
    destruct (Wallet.getKeypair_try _ _ _ _ _ _ _); reflexivity. }
  destruct (Wallet.getKeypair _ _ _ _ _ _ _) as [[e|kp] d1] eqn:Hkp; [discriminate|].
  destruct (isPublicKey (arg_vault parsed)) eqn:Hkey; [|discriminate].
  unfold getProposalStatus, bind, ret, Proposal_fromAccountAddress in Hsubmit.
  cbn [requests] in Hsubmit.
  destruct (proposalAt ledger _) as [proposal|] eqn:Hprop; [|discriminate].
  cbn [status] in Hsubmit.
  destruct (determineStatus (status__kind proposal)) eqn:Hstatus; try discriminate.
  injection Hsubmit as <- <- <- <-.
  apply determineStatus_Approved in Hstatus.
  cbn [toBase58 disk requests]. repeat split.
  - cbn in Hi. now apply Z.eqb_neq in Hi.
  - exact Hkey.
  - exists (arg_password parsed). split; [now apply WalletCliFacts.truthy_true|].
    now rewrite Hkp.
  - exists proposal. split; [exact Hprop | exact Hstatus].
  - cbn [snd] in Hfiles. exact Hfiles.
Qed.

End Script.

(** [parseInt(s, 10)]: blanks, a sign, then the longest run of digits. *)
Fixpoint digitsPrefix (s : jsstring) (acc : option Z) : option Z :=
  match s with
  | c :: s' =>
      if (48 <=? c) && (c <=? 57)
      then digitsPrefix s' (Some (10 * default 0 acc + (c - 48)))
      else acc
  | [] => acc
  end.

Definition parseInt10 (s : jsstring) : jsnumber :=
  match trimStart s with
  | 45 :: rest =>
      match digitsPrefix rest None with
      | Some n => Int (- n)
      | None => NaN
      end
  | 43 :: rest =>
      match digitsPrefix rest None with
      | Some n => Int n
      | None => NaN
      end
  | rest =>
      match digitsPrefix rest None with
      | Some n => Int n
      | None => NaN
      end
  end.

Definition approvedLedger : Ledger :=
  {| multisigAt := fun _ => None;
     proposalAt := fun _ =>
       Some {| status__kind := js "Approved";
               approved := [mkPublicKey (js "Member1")]; rejected := [] |} |}.

Definition executeArgs : list jsstring :=
  [js "--vault"; CreateVaultFacts.wrappedSol; js "--proposal"; js "3";
   js "--password"; js "correcthorsebattery"].

Definition unlockedWorld : ExecuteProposal.World :=
  {| ExecuteProposal.disk := WalletCliFacts.mainDisk; ExecuteProposal.requests := [] |}.

Lemma execute_submits_only_approved_witness :
  let proposalPda :=
    MultisigFacts.samplePdaOf "proposal" (mkPublicKey CreateVaultFacts.wrappedSol) 3 in
  3 <> 0
  /\ Web3.isPublicKey CreateVaultFacts.wrappedSol = true
  /\ (exists password,
        password <> []
        /\ (Wallet.getKeypair WalletFacts.standInDecrypt (list Z)
              WalletCliFacts.parseNumbers WalletCliFacts.bytesOfNumbers
              WalletCliFacts.sampleFromSecretKey password WalletCliFacts.mainDisk).1
           = inr WalletFacts.sampleKeypair)
  /\ (exists proposal,
        proposalAt approvedLedger (toBase58 proposalPda) = Some proposal
        /\ status__kind proposal = js "Approved")
  /\ ExecuteProposal.requests
       (ExecuteProposal.main parseInt10 Web3.isPublicKey WalletFacts.standInDecrypt
          (list Z) WalletCliFacts.parseNumbers WalletCliFacts.bytesOfNumbers
          WalletCliFacts.sampleFromSecretKey (MultisigFacts.samplePdaOf "transaction")
          (MultisigFacts.samplePdaOf "proposal") approvedLedger executeArgs
          unlockedWorld).2
     = [ReadProposal (toBase58 proposalPda)]
  /\ Storage.files
       (ExecuteProposal.disk
          (ExecuteProposal.main parseInt10 Web3.isPublicKey WalletFacts.standInDecrypt
             (list Z) WalletCliFacts.parseNumbers WalletCliFacts.bytesOfNumbers
             WalletCliFacts.sampleFromSecretKey (MultisigFacts.samplePdaOf "transaction")
             (MultisigFacts.samplePdaOf "proposal") approvedLedger executeArgs
             unlockedWorld).2)
     = Storage.files WalletCliFacts.mainDisk.
Proof.
  apply (execute_submits_only_approved parseInt10 Web3.isPublicKey
           WalletFacts.standInDecrypt (list Z) WalletCliFacts.parseNumbers
           WalletCliFacts.bytesOfNumbers WalletCliFacts.sampleFromSecretKey
           (MultisigFacts.samplePdaOf "transaction") (MultisigFacts.samplePdaOf "proposal")
           approvedLedger executeArgs unlockedWorld _ WalletFacts.sampleKeypair
           (mkPublicKey CreateVaultFacts.wrappedSol) 3).
  vm_compute. reflexivity.
Defined.

(** An active proposal is refused, with the number of approvals so far. *)
Example execute_refuses_active :
  (ExecuteProposal.main parseInt10 Web3.isPublicKey WalletFacts.standInDecrypt
     (list Z) WalletCliFacts.parseNumbers WalletCliFacts.bytesOfNumbers
     WalletCliFacts.sampleFromSecretKey (MultisigFacts.samplePdaOf "transaction")
     (MultisigFacts.samplePdaOf "proposal")
     {| multisigAt := fun _ => None;
        proposalAt := fun _ =>
          Some {| status__kind := js "Active";
                  approved := [mkPublicKey (js "Member1")]; rejected := [] |} |}
     executeArgs unlockedWorld).1
  = ExecuteProposal.PROPOSAL_NOT_APPROVED Active 1.
Proof. vm_compute. reflexivity. Qed.

End ExecuteFacts.

(** ** The vault list of the built-in wallet *)

Module MyVaultsFacts.

Import MyVaults.

Section Proposals.

Variable getTransactionPda : PublicKey -> Z -> PublicKey.
Variable getProposalPda : PublicKey -> Z -> PublicKey.
Variable ledger : Ledger.

Lemma getProposals_result (multisigPda : PublicKey) :
  (run (getProposals getTransactionPda getProposalPda ledger multisigPda)).1
  = match multisigAt ledger (toBase58 multisigPda) with
    | Some account =>
        let n := acc_transactionIndex account in
        rev (omap (MultisigFacts.proposalInfoAt getTransactionPda getProposalPda
                     ledger multisigPda)
               (seqZ (Z.max 1 (n - 19))
                  (Z.of_nat (Z.to_nat (n - Z.max 1 (n - 19) + 1)))))
    | None => []
    end.
Proof.
  unfold run, getProposals, bind at 1, getMultisigAccount, bind at 1,
    Multisig_fromAccountAddress, ret at 1.
  destruct (multisigAt ledger (toBase58 multisigPda)) as [account|]; [|reflexivity].
  cbn [transactionIndex Number app]. unfold Number, bind.
  rewrite MultisigFacts.getProposals_loop_run. reflexivity.
Qed.

Lemma omap_length_le {A B} (f : A -> option B) (l : list A) :
  (length (omap f l) <= length l)%nat.
Proof.
  induction l as [|x l IH]; [reflexivity|]. cbn [omap list_omap].
  fold (omap f l). destruct (f x); cbn [length]; lia.
Qed.

Lemma getProposals_length (multisigPda : PublicKey) :
  (length (run (getProposals getTransactionPda getProposalPda ledger multisigPda)).1
   <= 20)%nat.
Proof.
  rewrite getProposals_result.
  destruct (multisigAt ledger (toBase58 multisigPda)) as [account|]; [|cbn; lia].
  cbn zeta. rewrite length_rev.
  etransitivity; [apply omap_length_le|]. rewrite length_seqZ. lia.
Qed.

End Proposals.

Section WithCluster.

Variable isPublicKey : jsstring -> bool.
Variable getTransactionPda : PublicKey -> Z -> PublicKey.
Variable getProposalPda : PublicKey -> Z -> PublicKey.
Variable ledger : Ledger.
Variable Balance : Type.
Variable getVaultBalance : PublicKey -> option Balance.
Variable userPubKey : jsstring.

(** Which proposals count as pending in the vault list. *)
Definition isPending (p : ProposalInfo) : bool :=
  match status p with
  | Active | Approved => true
  | _ => false
  end.

(** X20.  Whatever the cluster answers to the account read ([ledger]) and,
    independently, to the reads of [getProposals] ([proposalsLedger]): the
    vault list shows at most 20 pending proposals for a vault.  An item
    marked as failed carries no account, no balance and no pending
    proposal.  An item not marked as failed is for a valid address, carries
    the account as [getMultisigAccount] read it, and its count is the
    number of proposals returned by [getProposals] whose status is [Active]
    or [Approved]; that count is 0 when the vault is not there for
    [getProposals]. *)
Theorem pending_proposals_bounded (proposalsLedger : Ledger) (multisigPda : jsstring) :
  let item :=
    fetchVaultDetails isPublicKey getTransactionPda getProposalPda ledger
      Balance getVaultBalance proposalsLedger multisigPda in
  (pendingProposals Balance item <= 20)%nat
  /\ (error Balance item = true ->
      account Balance item = None /\ balance Balance item = None
      /\ pendingProposals Balance item = 0%nat)
  /\ (error Balance item = false ->
      isPublicKey multisigPda = true
      /\ account Balance item
         = (run (getMultisigAccount ledger (mkPublicKey multisigPda))).1
      /\ pendingProposals Balance item
         = length (List.filter isPending
                     (run (getProposals getTransactionPda getProposalPda
                             proposalsLedger (mkPublicKey multisigPda))).1))
  /\ (multisigAt proposalsLedger multisigPda = None ->
      pendingProposals Balance item = 0%nat).
Proof.
  cbn zeta. unfold fetchVaultDetails, failedItem.
  destruct (isPublicKey multisigPda); [|cbn; repeat split; try lia; discriminate].
  destruct (getVaultBalance (mkPublicKey multisigPda));
    [|cbn; repeat split; try lia; discriminate].
  cbn [pendingProposals account balance error].
  pose proof (getProposals_length getTransactionPda getProposalPda proposalsLedger
                (mkPublicKey multisigPda)) as Hlen.
  pose proof (getProposals_result getTransactionPda getProposalPda proposalsLedger
                (mkPublicKey multisigPda)) as Hres.
  split; [|split; [|split]].
  - etransitivity; [apply filter_length_le | exact Hlen].
  - discriminate.
  - intros _. split; [reflexivity |]. split; reflexivity.
  - intros Hnone. cbn [toBase58] in Hres. rewrite Hres, Hnone. reflexivity.
Qed.

Definition memberOf (account : MultisigAccount) : Prop :=
  In userPubKey (map (fun m => toBase58 (key m)) (acc_members account)).

Lemma getMultisigAccount_result (a : jsstring) (log : list Request) :
  getMultisigAccount ledger (mkPublicKey a) log
  = ((run (getMultisigAccount ledger (mkPublicKey a))).1, log ++ [ReadMultisig a]).
Proof. reflexivity. Qed.

Lemma isMember_memberOf (a : jsstring) (vault : MultisigVault) :
  (run (getMultisigAccount ledger (mkPublicKey a))).1 = Some vault ->
  exists account,
    multisigAt ledger a = Some account
    /\ (some (fun m => streq (publicKey m) userPubKey) (members vault) = true
        <-> memberOf account).
Proof.
  unfold run, getMultisigAccount, bind, ret, Multisig_fromAccountAddress. cbn.
  destruct (multisigAt ledger a) as [account|]; [|discriminate].
  intros H. injection H as <-. exists account. split; [reflexivity|]. cbn.
  unfold some, memberOf. rewrite existsb_exists, in_map_iff. split.
  - intros [m [Hm Hs]]. apply in_map_iff in Hm. destruct Hm as [x [<- Hx]].
    cbn in Hs. apply MultisigFacts.streq_true in Hs. eauto.
  - intros [x [<- Hx]]. eexists. split.
    + apply in_map_iff. exists x. split; [reflexivity | exact Hx].
    + cbn. now apply MultisigFacts.streq_true.
Qed.

Lemma handleImport_imported (importAddress a : jsstring) (vault : MultisigVault)
  (w : World) :
  trim importAddress <> [] ->
  ImportVault.extractVaultAddress importAddress = Some a ->
  isPublicKey a = true ->
  (run (getMultisigAccount ledger (mkPublicKey a))).1 = Some vault ->
  some (fun m => streq (publicKey m) userPubKey) (members vault) = true ->
  handleImport isPublicKey ledger userPubKey importAddress w
  = (Imported a,
     {| requests := requests w ++ [ReadMultisig a];
        registry :=
          MultisigStorage.saveMultisigAddress userPubKey a (createKey vault)
            (registry w) |}).
Proof.
  intros Htrim Hextract Hkey Hvault Hsome. unfold handleImport.
  destruct (trim importAddress); [contradiction|].
  rewrite Hextract, Hkey, getMultisigAccount_result, Hvault, Hsome. reflexivity.
Qed.

(** X21.  In the browser the import form stores a vault only when the
    text holds an address or link, the address is valid, its account is
    found on the cluster and lists the user as a member; the vault is then
    in the user's list, and importing the same text again changes nothing.
    In every other case the registry stays as it was. *)
Theorem web_import_stores_member_vaults (importAddress : jsstring) (w : World)
  (Hbrowser : MultisigStorage.isBrowser (registry w) = true) :
  let r := handleImport isPublicKey ledger userPubKey importAddress w in
  match r.1 with
  | Imported a =>
      ImportVault.extractVaultAddress importAddress = Some a
      /\ isPublicKey a = true
      /\ (exists account, multisigAt ledger a = Some account /\ memberOf account)
      /\ some (RegistryFacts.refersTo a)
           (MultisigStorage.getStoredMultisigs userPubKey (registry r.2)) = true
      /\ registry (handleImport isPublicKey ledger userPubKey importAddress r.2).2
         = registry r.2
  | setImportError _ => registry r.2 = registry w
  end.
Proof.
  cbn zeta.
  destruct (trim importAddress) as [|c t] eqn:Htrim;
    [unfold handleImport; rewrite Htrim; reflexivity|].
  assert (Hne : trim importAddress <> []) by (rewrite Htrim; discriminate).
  destruct (ImportVault.extractVaultAddress importAddress) as [a|] eqn:Hextract;
    [|unfold handleImport; rewrite Htrim, Hextract; reflexivity].
  destruct (isPublicKey a) eqn:Hkey;
    [|unfold handleImport; rewrite Htrim, Hextract, Hkey; reflexivity].
  destruct (run (getMultisigAccount ledger (mkPublicKey a))).1 as [vault|] eqn:Hvault;
    [|unfold handleImport;
      rewrite Htrim, Hextract, Hkey, getMultisigAccount_result, Hvault; reflexivity].
  destruct (some (fun m => streq (publicKey m) userPubKey) (members vault)) eqn:Hsome;
    [|unfold handleImport;
      rewrite Htrim, Hextract, Hkey, getMultisigAccount_result, Hvault, Hsome;
      reflexivity].
  rewrite (handleImport_imported importAddress a vault w Hne Hextract Hkey Hvault Hsome).
  cbn [fst snd registry].
  rewrite (handleImport_imported importAddress a vault _ Hne Hextract Hkey Hvault Hsome).
  cbn [fst snd registry].
  destruct (isMember_memberOf a vault Hvault) as (account & Haccount & Hmember).
  split; [first [reflexivity | exact Hextract]|].
  split; [first [reflexivity | exact Hkey]|].
  split; [exists account; split; [exact Haccount | now apply Hmember]|].
  destruct (RegistryFacts.sync_in_browser userPubKey a (createKey vault) (registry w)
              Hbrowser) as [Hsave Hget].
  assert (Hbrowser' :
    MultisigStorage.isBrowser
      (MultisigStorage.saveMultisigAddress userPubKey a (createKey vault) (registry w))
    = true).
  { rewrite Hsave. unfold MultisigStorage.saveMultisigAddressAsync.
    rewrite RegistryFacts.saveWith_unfold.
    destruct (some (RegistryFacts.refersTo a) _); [exact Hbrowser|].
    unfold MultisigStorage.saveData. rewrite Hbrowser. reflexivity. }
  destruct (RegistryFacts.sync_in_browser userPubKey a (createKey vault) _ Hbrowser')
    as [Hsave' Hget'].
  split.
  - rewrite Hget', Hsave. unfold MultisigStorage.getStoredMultisigsAsync,
      MultisigStorage.saveMultisigAddressAsync.
    apply RegistryFacts.some_after_saveWith. apply RegistryFacts.loadData_saveData.
  - rewrite Hsave', Hsave. unfold MultisigStorage.saveMultisigAddressAsync.
    apply RegistryFacts.saveWith_idempotent. apply RegistryFacts.loadData_saveData.
Qed.

End WithCluster.

Definition browserWorld : World :=
  {| requests := []; registry := MultisigStorage.fresh true |}.

Definition vaultLink : jsstring :=
  js "https://app.com/vault/TokenkegQfeZyiNwAJbNbGKPFXCWuBvf9Ss623VQ5DA".

Lemma web_import_stores_member_vaults_witness :
  let r := handleImport Web3.isPublicKey ImportFacts.vaultLedger
             CreateVaultFacts.wrappedSol vaultLink browserWorld in
  match r.1 with
  | Imported a =>
      ImportVault.extractVaultAddress vaultLink = Some a
      /\ Web3.isPublicKey a = true
      /\ (exists account,
            multisigAt ImportFacts.vaultLedger a = Some account
            /\ memberOf CreateVaultFacts.wrappedSol account)
      /\ some (RegistryFacts.refersTo a)
           (MultisigStorage.getStoredMultisigs CreateVaultFacts.wrappedSol
              (registry r.2)) = true
      /\ registry (handleImport Web3.isPublicKey ImportFacts.vaultLedger
                     CreateVaultFacts.wrappedSol vaultLink r.2).2
         = registry r.2
  | setImportError _ => registry r.2 = registry browserWorld
  end.
Proof.
  exact (web_import_stores_member_vaults Web3.isPublicKey ImportFacts.vaultLedger
           CreateVaultFacts.wrappedSol vaultLink browserWorld eq_refl).
Defined.

Example web_import_sample :
  let r := handleImport Web3.isPublicKey ImportFacts.vaultLedger
             CreateVaultFacts.wrappedSol vaultLink browserWorld in
  r.1 = Imported CreateVaultFacts.tokenProgram
  /\ (handleImport Web3.isPublicKey ImportFacts.vaultLedger
        (js "Stranger") vaultLink browserWorld).1
     = setImportError NotAMember
  /\ MultisigStorage.getStoredMultisigs CreateVaultFacts.wrappedSol
       (handleRemove Z CreateVaultFacts.wrappedSol CreateVaultFacts.tokenProgram
          ([], registry r.2)).2
     = [].
Proof. vm_compute. repeat split; reflexivity. Qed.

(** The account read and the reads of [getProposals] being independent,
    an item can carry no account and yet count pending proposals: here the
    account read finds nothing while [getProposals] sees the vault
    [Vault1] with the fifteen proposals that can be fetched in the window,
    all of them Active. *)
Example pending_proposals_without_account :
  let item :=
    fetchVaultDetails (fun _ => true) (MultisigFacts.samplePdaOf "transaction")
      (MultisigFacts.samplePdaOf "proposal") ImportFacts.emptyLedger
      Z (fun _ => Some 0) MultisigFacts.sampleLedger (js "Vault1") in
  account Z item = None /\ error Z item = false
  /\ pendingProposals Z item = 15%nat.
Proof. vm_compute. repeat split; reflexivity. Qed.

End MyVaultsFacts.

(** ** Every valid address passes the import pattern *)

Module AddressFacts.

Import Web3 ImportVault.

Lemma indexFrom_Some (l : jsstring) (i c d : Z) :
  indexFrom i c l = Some d -> In c l /\ i <= d < i + Z.of_nat (length l).
Proof.
  revert i. induction l as [|x l IH]; intros i; cbn [indexFrom]; [discriminate|].
  destruct (x =? c) eqn:E.
  - apply Z.eqb_eq in E. intros H. injection H as <-. subst x.
    split; [now left | cbn [length]; lia].
  - intros H. apply IH in H. destruct H as [Hin Hd].
    split; [now right | cbn [length]; lia].
Qed.

Lemma digit58_Some (c d : Z) :
  digit58 c = Some d -> isBase58 c = true /\ 0 <= d < 58 /\ (d = 0 -> c = 49).
Proof.
  intros H. pose proof H as H0. unfold digit58 in H. apply indexFrom_Some in H.
  destruct H as [Hin Hd].
  assert (Hall : forallb isBase58 ALPHABET = true) by (vm_compute; reflexivity).
  rewrite forallb_forall in Hall. split; [now apply Hall|].
  split; [exact Hd|]. intros ->.
  unfold digit58 in H0. change ALPHABET with (49 :: tl ALPHABET) in H0.
  cbn [indexFrom] in H0. destruct (49 =? c) eqn:E; [now apply Z.eqb_eq in E|].
  apply indexFrom_Some in H0. lia.
Qed.

Lemma value58_bounds (s : jsstring) (acc n : Z) :
  0 <= acc -> value58 acc s = Some n ->
  forallb isBase58 s = true
  /\ acc * 58 ^ Z.of_nat (length s) <= n < (acc + 1) * 58 ^ Z.of_nat (length s).
Proof.
  revert acc. induction s as [|c s IH]; intros acc Hacc; cbn [value58].
  - intros H. injection H as <-. cbn. lia.
  - destruct (digit58 c) as [d|] eqn:Hd; [|discriminate].
    apply digit58_Some in Hd. destruct Hd as (Hc & Hd & _).
    intros H. apply IH in H; [|lia]. destruct H as [Hs Hn].
    split; [cbn; now rewrite Hc, Hs|].
    cbn [length]. rewrite Nat2Z.inj_succ, Z.pow_succ_r by lia.
    pose proof (Z.pow_pos_nonneg 58 (Z.of_nat (length s)) ltac:(lia) ltac:(lia)).
    nia.
Qed.

(** A base58 string is a run of [1]s followed by digits that do not
    start with [1]. *)
Lemma leadingOnes_split (s : jsstring) :
  exists t,
    s = repeat 49 (Z.to_nat (leadingOnes s)) ++ t
    /\ 0 <= leadingOnes s
    /\ value58 0 s = value58 0 t
    /\ (t = [] \/ exists c t', t = c :: t' /\ c <> 49).
Proof.
  induction s as [|c s (t & Hs & Hk & Hv & Ht)]; cbn [leadingOnes].
  - exists []. cbn. repeat split; [lia | now left].
  - destruct (c =? 49) eqn:E.
    + apply Z.eqb_eq in E. subst c. exists t.
      replace (Z.to_nat (1 + leadingOnes s)) with (S (Z.to_nat (leadingOnes s))) by lia.
      cbn [repeat app]. repeat split; [now rewrite <- Hs | lia | exact Hv | exact Ht].
    + apply Z.eqb_neq in E. exists (c :: s). cbn. repeat split; [lia|].
      right. eauto.
Qed.

Lemma byteLength_bounds (n b : Z) :
  0 < n -> byteLength n = b -> 1 <= b /\ 256 ^ (b - 1) <= n < 256 ^ b.
Proof.
  intros Hn Hb. unfold byteLength in Hb.
  destruct (n =? 0) eqn:E; [apply Z.eqb_eq in E; lia|].
  pose proof (Z.log2_nonneg n) as Hl.
  pose proof (Z.log2_spec n Hn) as [Hlow Hhigh].
  pose proof (Z.div_mod (Z.log2 n) 8 ltac:(lia)) as Hdm.
  pose proof (Z.mod_pos_bound (Z.log2 n) 8 ltac:(lia)) as Hm.
  assert (Hq : 0 <= Z.log2 n / 8) by (apply Z.div_pos; lia).
  split; [lia|].
  change 256 with (2 ^ 8). rewrite <- !Z.pow_mul_r by lia. split.
  - eapply Z.le_trans; [|exact Hlow]. apply Z.pow_le_mono_r; lia.
  - eapply Z.lt_le_trans; [exact Hhigh|]. apply Z.pow_le_mono_r; lia.
Qed.

Lemma isPublicKey_length (s : jsstring) :
  isPublicKey s = true ->
  forallb isBase58 s = true /\ (32 <= length s <= 44)%nat.
Proof.
  unfold isPublicKey, decodedLength, PUBLIC_KEY_LENGTH.
  destruct (value58 0 s) as [n|] eqn:Hval; [|discriminate].
  intros H. apply Z.eqb_eq in H.
  destruct (value58_bounds s 0 n ltac:(lia) Hval) as [Hall _].
  split; [exact Hall|].
  destruct (leadingOnes_split s) as (t & Hs & Hk & Hv & Ht).
  rewrite Hv in Hval. destruct (value58_bounds t 0 n ltac:(lia) Hval) as [_ Hn].
  assert (Hlen : Z.of_nat (length s) = leadingOnes s + Z.of_nat (length t)).
  { rewrite Hs at 1. rewrite length_app, repeat_length. lia. }
  destruct Ht as [-> | (c & t' & -> & Hc)].
  - cbn in Hval. injection Hval as <-. cbn in H, Hlen. lia.
  - cbn [value58] in Hval. destruct (digit58 c) as [d|] eqn:Hd; [|discriminate].
    apply digit58_Some in Hd. destruct Hd as (_ & Hd & Hzero).
    assert (Hd1 : 1 <= d) by (destruct (Z.eq_dec d 0) as [E|E]; [now apply Hzero in E | lia]).
    apply value58_bounds in Hval; [|lia]. destruct Hval as [_ Hlow].
    set (m := Z.of_nat (length t')) in *.
    assert (Hm : 0 <= m) by (subst m; lia).
    assert (Hpow : 0 < 58 ^ m) by (apply Z.pow_pos_nonneg; lia).
    assert (Hn1 : 58 ^ m <= n) by nia.
    assert (Hn2 : n < 58 ^ (m + 1)) by (rewrite Z.pow_add_r by lia; nia).
    destruct (byteLength_bounds n (byteLength n) ltac:(lia) eq_refl) as [Hb [Hb1 Hb2]].
    set (b := byteLength n) in *.
    cbn [length] in Hlen. fold m in Hlen.
    assert (Hlower : b - 1 <= m).
    { destruct (Z_lt_le_dec m (b - 1)) as [Hlt|]; [|lia]. exfalso.
      assert (58 ^ (m + 1) <= 58 ^ (b - 1)) by (apply Z.pow_le_mono_r; lia).
      assert (58 ^ (b - 1) <= 256 ^ (b - 1)) by (apply Z.pow_le_mono_l; lia).
      lia. }
    assert (Hupper : m <= 43 - leadingOnes s).
    { destruct (Z_lt_le_dec (43 - leadingOnes s) m) as [Hlt|]; [|lia]. exfalso.
      assert (Hcheck : forallb (fun k => 256 ^ (32 - Z.of_nat k) <=? 58 ^ (44 - Z.of_nat k))
                         (seq 0 32) = true) by (vm_compute; reflexivity).
      rewrite forallb_forall in Hcheck.
      specialize (Hcheck (Z.to_nat (leadingOnes s))).
      rewrite in_seq in Hcheck. specialize (Hcheck ltac:(lia)).
      rewrite Z2Nat.id in Hcheck by lia. apply Z.leb_le in Hcheck.
      assert (58 ^ (44 - leadingOnes s) <= 58 ^ m) by (apply Z.pow_le_mono_r; lia).
      replace (32 - leadingOnes s) with b in Hcheck by lia.
      lia. }
    lia.
Qed.

Lemma trimStart_base58 (s : jsstring) : forallb isBase58 s = true -> trimStart s = s.
Proof.
  destruct s as [|c s]; [reflexivity|]. cbn. intros H.
  apply andb_true_iff in H. destruct H as [Hc _].
  now rewrite (ShareLinkFacts.isBase58_not_space c Hc).
Qed.

Lemma trim_base58 (s : jsstring) : forallb isBase58 s = true -> trim s = s.
Proof.
  intros H. unfold trim, trimEnd. rewrite (trimStart_base58 s H).
  rewrite trimStart_base58; [apply rev_involutive|].
  rewrite forallb_forall in *. intros c Hc. apply H. now apply in_rev.
Qed.

(** X22.  Every string that [new PublicKey] accepts has 32 to 44 base58
    characters, so the import pattern accepts it as a direct address and
    [extractVaultAddress] returns it unchanged: a valid vault address is
    never refused as badly formatted. *)
Theorem valid_address_is_extracted (a : jsstring) (Hvalid : isPublicKey a = true) :
  isDirectAddress a = true /\ extractVaultAddress a = Some a.
Proof.
  destruct (isPublicKey_length a Hvalid) as [Hall Hlen].
  assert (Hdirect : isDirectAddress a = true)
    by (apply ImportFacts.isDirectAddress_spec; split; assumption).
  split; [exact Hdirect|].
  rewrite <- (trim_base58 a Hall) at 2.
  apply ImportFacts.extractVaultAddress_direct. now rewrite trim_base58.
Qed.

Lemma valid_address_is_extracted_witness :
  isDirectAddress CreateVaultFacts.tokenProgram = true
  /\ extractVaultAddress CreateVaultFacts.tokenProgram = Some CreateVaultFacts.tokenProgram.
Proof.
  apply (valid_address_is_extracted CreateVaultFacts.tokenProgram).
  vm_compute. reflexivity.
Defined.

End AddressFacts.

(** ** The RPC endpoint *)

Module RpcConfigFacts.

Import RpcConfig.

Lemma getCliRpcUrl_Some (args : list jsstring) (url : jsstring) :
  getCliRpcUrl args = Some url ->
  url <> [] /\ exists before after, args = before ++ js "--rpc-url" :: url :: after.
Proof.
  induction args as [|a rest IH]; [discriminate|]. cbn [getCliRpcUrl].
  destruct rest as [|v rest']; [discriminate|].
  destruct (streq a (js "--rpc-url") && WalletCli.truthy v) eqn:E.
  - apply andb_true_iff in E. destruct E as [Ha Hv].
    apply MultisigFacts.streq_true in Ha. apply WalletCliFacts.truthy_true in Hv.
    intros H. injection H as <-. subst a. split; [exact Hv|]. now exists [], rest'.
  - intros H. apply IH in H. destruct H as (Hne & before & after & ->).
    split; [exact Hne|]. now exists (a :: before), after.
Qed.

Lemma getCliRpcUrl_None (args : list jsstring) :
  ~ In (js "--rpc-url") args -> getCliRpcUrl args = None.
Proof.
  induction args as [|a rest IH]; [reflexivity|]. intros Hnot. cbn [getCliRpcUrl].
  destruct rest as [|v rest']; [reflexivity|].
  assert (E : streq a (js "--rpc-url") = false).
  { apply MultisigFacts.streq_false. intros ->. apply Hnot. now left. }
  rewrite E. cbn [andb]. apply IH. intros Hin. apply Hnot. now right.
Qed.

(** [--rpc-url] stands at position [i] of the arguments followed by a
    non-empty value. *)
Definition flagAt (args : list jsstring) (i : nat) : Prop :=
  args !! i = Some (js "--rpc-url")
  /\ exists v, args !! S i = Some v /\ v <> [].

Lemma getCliRpcUrl_first (args : list jsstring) (i : nat) (url : jsstring) :
  args !! i = Some (js "--rpc-url") ->
  args !! S i = Some url ->
  url <> [] ->
  (forall j, (j < i)%nat -> ~ flagAt args j) ->
  getCliRpcUrl args = Some url.
Proof.
  revert i. induction args as [|a rest IH]; intros i Hflag Hval Hne Hfirst;
    [discriminate|].
  cbn [getCliRpcUrl]. destruct i as [|i].
  - cbn in Hflag. injection Hflag as ->. cbn in Hval.
    destruct rest as [|v rest']; [discriminate|]. cbn in Hval. injection Hval as ->.
    rewrite (proj2 (MultisigFacts.streq_true _ _) eq_refl).
    rewrite (proj2 (WalletCliFacts.truthy_true url) Hne). reflexivity.
  - cbn in Hflag, Hval. destruct rest as [|v rest']; [discriminate|].
    destruct (streq a (js "--rpc-url") && WalletCli.truthy v) eqn:E.
    + exfalso. apply andb_true_iff in E. destruct E as [Ha Hv].
      apply MultisigFacts.streq_true in Ha. apply WalletCliFacts.truthy_true in Hv.
      apply (Hfirst 0%nat); [lia|]. split; [rewrite Ha; reflexivity|].
      exists v. split; [reflexivity | exact Hv].
    + apply (IH i Hflag Hval Hne). intros j Hj [Hf (w & Hw & Hwne)].
      apply (Hfirst (S j)); [lia|]. split; [exact Hf|]. exists w. split; assumption.
Qed.

Lemma getCliRpcUrl_nowhere (args : list jsstring) :
  (forall j, ~ flagAt args j) -> getCliRpcUrl args = None.
Proof.
  induction args as [|a rest IH]; intros Hno; [reflexivity|].
  cbn [getCliRpcUrl]. destruct rest as [|v rest']; [reflexivity|].
  destruct (streq a (js "--rpc-url") && WalletCli.truthy v) eqn:E.
  - exfalso. apply andb_true_iff in E. destruct E as [Ha Hv].
    apply MultisigFacts.streq_true in Ha. apply WalletCliFacts.truthy_true in Hv.
    apply (Hno 0%nat). split; [rewrite Ha; reflexivity|].
    exists v. split; [reflexivity | exact Hv].
  - apply IH. intros j [Hf (w & Hw & Hwne)].
    apply (Hno (S j)). split; [exact Hf|]. exists w. split; assumption.
Qed.

(** X23.  [getRpcUrl] never returns the empty string.  A non-empty
    override set with [setRpcUrl] wins over everything, and an empty one
    counts as none.  Without an override, the argument that follows the
    first [--rpc-url] followed by a non-empty argument is used, whatever
    the environment; and when no [--rpc-url] is followed by a non-empty
    argument (in particular when the flag does not occur), the environment
    variable is used if it is set and non-empty, and the public mainnet
    endpoint otherwise. *)
Theorem getRpcUrl_priority (c : Config) :
  getRpcUrl c <> []
  /\ (forall url, url <> [] -> getRpcUrl (setRpcUrl url c) = url)
  /\ (rpcUrlOverride c = None \/ rpcUrlOverride c = Some [] ->
      (forall i url,
          argv c !! i = Some (js "--rpc-url") ->
          argv c !! S i = Some url ->
          url <> [] ->
          (forall j, (j < i)%nat -> ~ flagAt (argv c) j) ->
          getRpcUrl c = url)
      /\ ((forall j, ~ flagAt (argv c) j) ->
          getRpcUrl c
          = match SOLANA_RPC_URL c with
            | Some [] | None => DEFAULT_RPC_URL
            | Some url => url
            end)
      /\ (~ In (js "--rpc-url") (argv c) -> forall j, ~ flagAt (argv c) j))
  /\ getRpcUrl (setRpcUrl [] c)
     = getRpcUrl {| rpcUrlOverride := None; argv := argv c;
                    SOLANA_RPC_URL := SOLANA_RPC_URL c |}.
Proof.
  split; [|split; [|split]].
  - unfold getRpcUrl, orElse.
    destruct (rpcUrlOverride c) as [[|ch url]|]; try discriminate;
      destruct (getCliRpcUrl (argv c)) as [[|ch' url']|]; try discriminate;
      destruct (SOLANA_RPC_URL c) as [[|ch'' url'']|]; discriminate.
  - intros [|ch url] Hne; [contradiction | reflexivity].
  - intros Hover. assert (Hfall : getRpcUrl c
                                 = match getCliRpcUrl (argv c) with
                                   | Some (ch :: cliUrl) => ch :: cliUrl
                                   | _ => orElse (SOLANA_RPC_URL c) DEFAULT_RPC_URL
                                   end).
    { unfold getRpcUrl. destruct Hover as [-> | ->]; reflexivity. }
    split; [|split].
    + intros i url Hflag Hval Hne Hfirst.
      rewrite Hfall, (getCliRpcUrl_first _ i url Hflag Hval Hne Hfirst).
      destruct url; [contradiction | reflexivity].
    + intros Hno. rewrite Hfall, (getCliRpcUrl_nowhere _ Hno). unfold orElse.
      destruct (SOLANA_RPC_URL c) as [[|ch url]|]; reflexivity.
    + intros Hnot j [Hf _]. apply Hnot.
      apply (nth_error_In _ j). rewrite <- Hf. clear.
      revert j. induction (argv c) as [|a rest IH]; intros [|j]; cbn; auto.
  - reflexivity.
Qed.

Example getRpcUrl_sample :
  getRpcUrl {| rpcUrlOverride := None;
               argv := [js "node"; js "script"; js "--rpc-url"; js "";
                        js "--rpc-url"; js "https://rpc.example"];
               SOLANA_RPC_URL := Some (js "https://env.example") |}
  = js "https://rpc.example"
  /\ getRpcUrl {| rpcUrlOverride := None; argv := [js "node"; js "--rpc-url"];
                  SOLANA_RPC_URL := Some [] |}
     = DEFAULT_RPC_URL.
Proof. split; vm_compute; reflexivity. Qed.

End RpcConfigFacts.

(** ** The browser keystore *)

Module WebWalletFacts.

Import WebWallet.

Section WithPlatform.

Variable encrypt : jsstring -> jsstring -> jsstring.
Variable decrypt : jsstring -> jsstring -> option jsstring.
Variable JSON_stringify : WalletData -> jsstring.
Variable JsValue : Type.
Variable JSON_parse : jsstring -> option JsValue.
Variable secretKeyBytes : JsValue -> option (list byte).
Variable Keypair_fromSecretKey : list byte -> option Wallet.Keypair.

(** X24.  In the browser a saved wallet replaces whatever was stored, and
    [loadWallet] with the same password gives back the key pair that was
    saved - the secret key surviving its passage through an array of
    numbers - provided the cipher opens what it sealed with a non-empty
    blob and the platform parses the JSON it wrote.  After [deleteWallet]
    there is no wallet and [loadWallet] returns [null]. *)
Theorem web_wallet_round_trip (keypair : Wallet.Keypair) (password : jsstring)
  (item : Item) (parsed : JsValue)
  (Hblob : encrypt (JSON_stringify (keypairToWalletData keypair)) password <> [])
  (Hcipher : decrypt (encrypt (JSON_stringify (keypairToWalletData keypair)) password)
               password
             = Some (JSON_stringify (keypairToWalletData keypair)))
  (Hparse : JSON_parse (JSON_stringify (keypairToWalletData keypair)) = Some parsed)
  (Hbytes : secretKeyBytes parsed
            = Some (map byteOf (secretKey (keypairToWalletData keypair))))
  (Hkeypair : Keypair_fromSecretKey (Wallet.secretKey keypair) = Some keypair) :
  let saved := saveWallet encrypt JSON_stringify keypair password item in
  loadWallet decrypt JsValue JSON_parse secretKeyBytes Keypair_fromSecretKey password saved
  = CreateVault.Loaded keypair
  /\ saved = saveWallet encrypt JSON_stringify keypair password None
  /\ walletExists saved = true
  /\ walletExists (deleteWallet saved) = false
  /\ loadWallet decrypt JsValue JSON_parse secretKeyBytes Keypair_fromSecretKey password
       (deleteWallet saved)
     = CreateVault.NoWallet.
Proof.
  cbn zeta. repeat split. unfold loadWallet, saveWallet.
  destruct (encrypt (JSON_stringify (keypairToWalletData keypair)) password)
    as [|c blob] eqn:E; [contradiction|].
  rewrite Hcipher, Hparse. unfold walletDataToKeypair. rewrite Hbytes.
  cbn [keypairToWalletData secretKey].
  rewrite CipherFacts.map_byteOf_byteValue, Hkeypair. reflexivity.
Qed.

(** X25.  The app stores a new wallet only under a password of at least
    8 code units that equals its confirmation; otherwise the stored item
    is left as it is.  An item that is present but empty counts as an
    existing wallet and yet loads as none. *)
Theorem web_wallet_create_guard (password confirmPassword : jsstring)
  (newKeypair : Wallet.Keypair) (item : Item) :
  let r := handleCreateWallet encrypt JSON_stringify password confirmPassword
             newKeypair item in
  (r.2 <> item -> (8 <= length password)%nat /\ password = confirmPassword)
  /\ ((8 <= length password)%nat -> password = confirmPassword ->
      r = (inr newKeypair,
           Some (encrypt (JSON_stringify (keypairToWalletData newKeypair)) password)))
  /\ walletExists (Some []) = true
  /\ loadWallet decrypt JsValue JSON_parse secretKeyBytes Keypair_fromSecretKey password
       (Some [])
     = CreateVault.NoWallet.
Proof.
  cbn zeta. unfold handleCreateWallet. repeat split.
  - destruct (length password <? 8)%nat eqn:E; [contradiction|].
    apply Nat.ltb_ge in E. exact E.
  - destruct (length password <? 8)%nat; [contradiction|].
    destruct (streq password confirmPassword) eqn:E; [|contradiction].
    now apply MultisigFacts.streq_true.
  - intros Hlen ->. apply Nat.ltb_ge in Hlen. rewrite Hlen.
    assert (E : streq confirmPassword confirmPassword = true)
      by now apply MultisigFacts.streq_true.
    rewrite E. reflexivity.
Qed.

End WithPlatform.

(** A JSON of the stand-in platform: the secret key's numbers, the
    address left out. *)
Definition standInStringify (data : WalletData) : jsstring :=
  js "[" ++ Wallet.joinComma (map Wallet.decimal (secretKey data)) ++ js "]".

Lemma web_wallet_round_trip_witness :
  let saved := saveWallet WalletFacts.standInEncrypt standInStringify
                 WalletFacts.sampleKeypair (js "correcthorsebattery") (Some (js "old")) in
  loadWallet WalletFacts.standInDecrypt (list Z) WalletCliFacts.parseNumbers
    WalletCliFacts.bytesOfNumbers WalletCliFacts.sampleFromSecretKey
    (js "correcthorsebattery") saved
  = CreateVault.Loaded WalletFacts.sampleKeypair
  /\ saved = saveWallet WalletFacts.standInEncrypt standInStringify
               WalletFacts.sampleKeypair (js "correcthorsebattery") None
  /\ walletExists saved = true
  /\ walletExists (deleteWallet saved) = false
  /\ loadWallet WalletFacts.standInDecrypt (list Z) WalletCliFacts.parseNumbers
       WalletCliFacts.bytesOfNumbers WalletCliFacts.sampleFromSecretKey
       (js "correcthorsebattery") (deleteWallet saved)
     = CreateVault.NoWallet.
Proof.
  apply (web_wallet_round_trip WalletFacts.standInEncrypt WalletFacts.standInDecrypt
           standInStringify (list Z) WalletCliFacts.parseNumbers
           WalletCliFacts.bytesOfNumbers WalletCliFacts.sampleFromSecretKey
           WalletFacts.sampleKeypair (js "correcthorsebattery") (Some (js "old"))
           [1; 2; 255]).
  - vm_compute. discriminate.
  - vm_compute. reflexivity.
  - vm_compute. reflexivity.
  - vm_compute. reflexivity.
  - vm_compute. reflexivity.
Defined.

End WebWalletFacts.

(** ** The vault form of the wallet-adapter app *)

Module ExternalFormFacts.

Import ExternalCreateVault.

Section WithWeb3.

Variable isPublicKey : jsstring -> bool.

Definition addressOk (m : MemberInput) : Prop :=
  trim (address m) <> [] /\ isPublicKey (trim (address m)) = true.

Definition submitted (m : MemberInput) : PublicKey * Z :=
  (mkPublicKey (trim (address m)),
   createPermissions (initiate (permissions m)) (vote (permissions m))
     (execute (permissions m))).

Lemma validateMembers_inr (members : list MemberInput)
  (validMembers result : list (PublicKey * Z)) :
  validateMembers isPublicKey members validMembers = inr result
  <-> Forall addressOk members /\ result = validMembers ++ map submitted members.
Proof.
  revert validMembers. induction members as [|m members IH]; intros validMembers;
    cbn [validateMembers map].
  - rewrite app_nil_r. split.
    + intros H. injection H as <-. split; [constructor | reflexivity].
    + intros [_ ->]. reflexivity.
  - rewrite Forall_cons_iff. unfold addressOk at 1.
    destruct (trim (address m)) as [|c t] eqn:Et.
    { split; [discriminate | intros [[[H _] _] _]; contradiction]. }
    destruct (isPublicKey (c :: t)) eqn:Ek.
    + rewrite IH. unfold submitted at 2. rewrite Et, <- app_assoc. cbn [app].
      split.
      * intros [Hall ->]. split; [split; [split; [discriminate | reflexivity] | exact Hall]
                                  | reflexivity].
      * intros [[_ Hall] ->]. split; [exact Hall | reflexivity].
    + split; [discriminate | intros [[[_ H] _] _]; discriminate].
Qed.

Lemma createPermissions_vote (i v e : bool) :
  Permissions_has (createPermissions i v e) Permission_Vote = v.
Proof. destruct i, v, e; vm_compute; reflexivity. Qed.

(** X26.  The form of the wallet-adapter app submits a vault exactly
    when a wallet is connected, every address is, once trimmed, non-empty
    and valid, and the threshold lies between 1 and the number of members
    that may vote; it then submits the trimmed addresses in order with the
    masks of the ticked boxes.  Unlike the built-in form it checks neither
    that the addresses differ nor that a member has a permission: the same
    voter entered twice is submitted twice, with a threshold of 2. *)
Theorem external_form_submission (walletPublicKey : option PublicKey)
  (members : list MemberInput) (threshold : Z) :
  (forall validMembers t,
     handleCreate isPublicKey walletPublicKey members threshold
     = createMultisigVaultWA validMembers t
     <-> walletPublicKey <> None
         /\ Forall addressOk members
         /\ 1 <= threshold
            <= Z.of_nat (length (List.filter
                                   (fun km => Permissions_has km.2 Permission_Vote)
                                   (map submitted members)))
         /\ validMembers = map submitted members /\ t = threshold)
  /\ (forall m,
        walletPublicKey <> None -> addressOk m -> vote (permissions m) = true ->
        handleCreate isPublicKey walletPublicKey [m; m] 2
        = createMultisigVaultWA [submitted m; submitted m] 2).
Proof.
  assert (Hvoters : forall ms,
    Z.of_nat (length (List.filter (fun km : PublicKey * Z =>
                                     Permissions_has km.2 Permission_Vote)
                        (map submitted ms)))
    = voterCount ms).
  { intros ms. unfold voterCount. f_equal.
    induction ms as [|m ms IH]; [reflexivity|].
    cbn [map List.filter]. unfold submitted at 1. cbn [snd].
    rewrite createPermissions_vote. cbn [filter list_filter].
    destruct (decide (vote (permissions m) = true)) as [E|E].
    - rewrite E. cbn [length]. now rewrite IH.
    - apply not_true_is_false in E. rewrite E. exact IH. }
  assert (Hmain : forall validMembers t,
     handleCreate isPublicKey walletPublicKey members threshold
     = createMultisigVaultWA validMembers t
     <-> walletPublicKey <> None
         /\ Forall addressOk members
         /\ 1 <= threshold <= voterCount members
         /\ validMembers = map submitted members /\ t = threshold).
  { intros validMembers t. unfold handleCreate.
    destruct walletPublicKey as [pk|];
      [|split; [discriminate | intros [H _]; contradiction]].
    destruct (validateMembers isPublicKey members []) as [e|vm] eqn:Hv.
    - split; [discriminate|]. intros (_ & Hall & _ & _ & _).
      assert (Hinr : validateMembers isPublicKey members [] = inr (map submitted members))
        by (apply validateMembers_inr; split; [exact Hall | reflexivity]).
      rewrite Hinr in Hv. discriminate.
    - apply validateMembers_inr in Hv. destruct Hv as [Hall ->]. cbn [app].
      destruct (thresholdRejected threshold members) eqn:Ht.
      + split; [discriminate|]. intros (_ & _ & Hb & _ & _).
        apply CreateVaultFacts.thresholdRejected_false in Hb. congruence.
      + apply CreateVaultFacts.thresholdRejected_false in Ht. split.
        * intros H. injection H as <- <-. repeat split; try assumption; try lia.
          discriminate.
        * intros (_ & _ & _ & -> & ->). reflexivity. }
  split.
  - intros validMembers t. rewrite Hvoters. apply Hmain.
  - intros m Hw Hm Hvote.
    assert (Hinr : validateMembers isPublicKey [m; m] [] = inr (map submitted [m; m])).
    { apply validateMembers_inr.
      split; [constructor; [exact Hm | constructor; [exact Hm | constructor]]
             | reflexivity]. }
    unfold handleCreate. destruct walletPublicKey; [|contradiction].
    rewrite Hinr.
    assert (Ht : thresholdRejected 2 [m; m] = false).
    { apply CreateVaultFacts.thresholdRejected_false. unfold voterCount.
      cbn [filter list_filter].
      destruct (decide (vote (permissions m) = true)); [cbn; lia | contradiction]. }
    rewrite Ht. reflexivity.
Qed.

End WithWeb3.

End ExternalFormFacts.
